(** * StreamInd SDK for Node.js: a shallow embedding of the transport core

    The development follows the TypeScript sources:
    - [errors.ts]  the error taxonomy and [StreamIndError];
    - [models.ts]  [Config], [getConfigWithDefaults], [Signal], [Directive];
    - [transport.ts] [WebSocketTransport]: binary framing, signal sending,
      statistics, the backoff computation;
    - [sdk.ts]     the terminal registry.

    Conventions of the embedding.
    - Integer-valued JavaScript numbers (lengths, counters, timestamps in
      milliseconds, byte values) are [Z]; the 32-bit operators [>>], [&] and
      [^] are [Z.shiftr], [Z.land] and [Z.lxor] on operands that fit 32 bits.
    - The tunables of a configuration and JSON numbers are rationals [Q],
      finite by construction.  The arithmetic of the run time on them, that
      of IEEE 754 doubles with its rounding, its infinities and NaN, is the
      module [Double], in which the backoff delay is computed.  The result
      of [parseInt] is an [option], whose [None] is NaN.
    - A [Buffer] is the list of its bytes; a string is a [string] of 8-bit
      characters, the code units U+0000 to U+00FF.  [toUpperCase] is that of
      JavaScript on these code units; its result, which leaves the range at
      U+00B5 and U+00FF and grows at U+00DF, is a list of code units.
    - The mutable transport object is a record that every method takes and
      returns; a method also returns the trace of what it did to the world
      around it (writes on the socket, callbacks fired) and how its promise
      settled.  [Date.now()], [Math.random()] and the completion of
      [ws.send] are inputs of the methods that use them. *)

From Stdlib Require Import ZArith QArith Qminmax Qpower Qround Lqa.
From Stdlib Require Import List String Ascii DecimalString Bool Lia.
From Stdlib Require DecimalPos DecimalZ.
Import ListNotations.

Local Open Scope Z_scope.
Local Open Scope string_scope.

(** ** Error codes (the [ErrorCode] enum and [StreamIndError]) *)

Inductive ErrorCode : Set :=
| OK
| NOT_INITIALIZED
| ALREADY_INITIALIZED
| INVALID_CONFIG
| NOT_CONNECTED
| ALREADY_CONNECTED
| CONNECTION_FAILED
| CONNECTION_TIMEOUT
| INVALID_SIGNAL
| SIGNAL_TOO_LARGE
| SEND_FAILED
| INVALID_PARAMETER
| TERMINAL_NOT_FOUND
| INTERNAL_ERROR.

Definition ErrorCode_value (c : ErrorCode) : Z :=
  match c with
  | OK => 0
  | NOT_INITIALIZED => 1
  | ALREADY_INITIALIZED => 2
  | INVALID_CONFIG => 3
  | NOT_CONNECTED => 4
  | ALREADY_CONNECTED => 5
  | CONNECTION_FAILED => 6
  | CONNECTION_TIMEOUT => 7
  | INVALID_SIGNAL => 8
  | SIGNAL_TOO_LARGE => 9
  | SEND_FAILED => 10
  | INVALID_PARAMETER => 11
  | TERMINAL_NOT_FOUND => 12
  | INTERNAL_ERROR => 99
  end.

(** The reverse mapping of the enum, [ErrorCode[code]]. *)
Definition ErrorCode_name (c : ErrorCode) : string :=
  match c with
  | OK => "OK"
  | NOT_INITIALIZED => "NOT_INITIALIZED"
  | ALREADY_INITIALIZED => "ALREADY_INITIALIZED"
  | INVALID_CONFIG => "INVALID_CONFIG"
  | NOT_CONNECTED => "NOT_CONNECTED"
  | ALREADY_CONNECTED => "ALREADY_CONNECTED"
  | CONNECTION_FAILED => "CONNECTION_FAILED"
  | CONNECTION_TIMEOUT => "CONNECTION_TIMEOUT"
  | INVALID_SIGNAL => "INVALID_SIGNAL"
  | SIGNAL_TOO_LARGE => "SIGNAL_TOO_LARGE"
  | SEND_FAILED => "SEND_FAILED"
  | INVALID_PARAMETER => "INVALID_PARAMETER"
  | TERMINAL_NOT_FOUND => "TERMINAL_NOT_FOUND"
  | INTERNAL_ERROR => "INTERNAL_ERROR"
  end.

(** What a [throw] or a rejected promise carries.  A plain [Error] has a
    message and no [code]; a [StreamIndError] has both. *)
Record Exception : Set := mkException {
  exn_code : option ErrorCode;
  exn_message : string
}.

Definition new_Error (message : string) : Exception :=
  mkException None message.

(** [new StreamIndError(code, message?)]: [super(message || ErrorCode[code])]. *)
Definition new_StreamIndError (code : ErrorCode) (message : option string) : Exception :=
  mkException (Some code)
    match message with
    | Some m => if String.eqb m EmptyString then ErrorCode_name code else m
    | None => ErrorCode_name code
    end.

(** ** Buffers *)

Definition Buffer := list Z.

Definition is_byte (b : Z) : Prop := 0 <= b < 256.

Definition is_buffer (data : Buffer) : Prop := Forall is_byte data.

(** [data.length] *)
Definition Buffer_length (data : Buffer) : Z := Z.of_nat (List.length data).

(** [buf[i]] for an index inside the buffer. *)
Definition Buffer_get (data : Buffer) (i : Z) : Z := nth (Z.to_nat i) data 0.

(** Storing a number in a buffer keeps its low eight bits. *)
Definition toUint8 (v : Z) : Z := Z.land v 255.

(** [Buffer.alloc(n)]: [n] zero bytes. *)
Definition Buffer_alloc (n : nat) : Buffer := repeat 0 n.

(** [Buffer.from(numbers)] *)
Definition Buffer_from (numbers : list Z) : Buffer := map toUint8 numbers.

(** The character code of an 8-bit character. *)
Definition charCode (c : ascii) : Z := Z.of_N (N_of_ascii c).

(** A JavaScript string is a sequence of UTF-16 code units.  A [string] of
    this file holds the code units below 256, the Latin-1 range; a string
    that a method of the runtime builds from one may leave that range and is
    kept as the list of its code units. *)
Definition CodeUnits : Set := list Z.

(** [buf.write(str, offset, 'ascii')]: one byte per code unit, its low eight
    bits, for as many code units as fit from [offset] on. *)
Fixpoint Buffer_write (buf : Buffer) (str : CodeUnits) (offset : nat) : Buffer :=
  match buf with
  | [] => []
  | b :: rest =>
      match offset with
      | S o => b :: Buffer_write rest str o
      | O =>
          match str with
          | [] => buf
          | c :: str' => toUint8 c :: Buffer_write rest str' O
          end
      end
  end.

(** ** Strings *)

(** [String.prototype.toUpperCase] on one character of the Latin-1 range,
    as the Unicode case mappings have it: [a]-[z] and the accented letters
    U+00E0 to U+00FE (but for the division sign U+00F7) go 32 down; the
    micro sign U+00B5 goes to the Greek capital mu U+039C; the sharp s
    U+00DF goes to the two letters [SS]; the y with diaeresis U+00FF goes to
    U+0178; every other character is kept. *)
Definition toUpperCase_char (c : ascii) : CodeUnits :=
  let n := charCode c in
  if ((97 <=? n) && (n <=? 122))%Z then [n - 32]
  else if (n =? 181)%Z then [924]
  else if (n =? 223)%Z then [83; 83]
  else if ((224 <=? n) && (n <=? 254) && negb (n =? 247))%Z then [n - 32]
  else if (n =? 255)%Z then [376]
  else [n].

Definition toUpperCase (s : string) : CodeUnits :=
  flat_map toUpperCase_char (list_ascii_of_string s).

(** [s.substring(start, end)] for [start <= end]. *)
Definition js_substring (s : CodeUnits) (start end_ : nat) : CodeUnits :=
  firstn (end_ - start) (skipn start s).


(** ** Configuration ([models.ts]) *)

(** [Config] has optional fields and [Required<Config>] has them all: the
    record is indexed by what wraps an optional field, [option] for the
    interface and nothing for its [Required] form. *)
Record ConfigOf (F : Type -> Type) : Type := mkConfig {
  deviceId : string;
  deviceType : string;
  endpoint : string;
  tenantId : string;
  productId : string;
  productKey : string;
  enableDirectiveReceiving : F bool;
  connectionTimeoutMs : F Q;
  heartbeatIntervalMs : F Q;
  maxMessageSize : F Q;
  maxReconnectAttempts : F Q;
  baseReconnectIntervalMs : F Q;
  maxReconnectIntervalMs : F Q;
  backoffFactor : F Q;
  jitterFactor : F Q
}.

Arguments mkConfig {F}.
Arguments deviceId {F}.
Arguments deviceType {F}.
Arguments endpoint {F}.
Arguments tenantId {F}.
Arguments productId {F}.
Arguments productKey {F}.
Arguments enableDirectiveReceiving {F}.
Arguments connectionTimeoutMs {F}.
Arguments heartbeatIntervalMs {F}.
Arguments maxMessageSize {F}.
Arguments maxReconnectAttempts {F}.
Arguments baseReconnectIntervalMs {F}.
Arguments maxReconnectIntervalMs {F}.
Arguments backoffFactor {F}.
Arguments jitterFactor {F}.

Definition Required (T : Type) : Type := T.

Definition Config : Type := ConfigOf option.
Definition RequiredConfig : Type := ConfigOf Required.

(** The nullish coalescing operator [a ?? b]. *)
Definition nullish {T : Type} (a : option T) (b : T) : T :=
  match a with
  | Some v => v
  | None => b
  end.

Infix "??" := nullish (at level 45, left associativity).

Definition getConfigWithDefaults (config : Config) : RequiredConfig :=
  {| deviceId := deviceId config;
     deviceType := deviceType config;
     endpoint := endpoint config;
     tenantId := tenantId config;
     productId := productId config;
     productKey := productKey config;
     enableDirectiveReceiving := enableDirectiveReceiving config ?? true;
     connectionTimeoutMs := connectionTimeoutMs config ?? 10000%Q;
     heartbeatIntervalMs := heartbeatIntervalMs config ?? 5000%Q;
     maxMessageSize := maxMessageSize config ?? inject_Z (10 * 1024 * 1024);
     maxReconnectAttempts := maxReconnectAttempts config ?? (-1)%Q;
     baseReconnectIntervalMs := baseReconnectIntervalMs config ?? 1000%Q;
     maxReconnectIntervalMs := maxReconnectIntervalMs config ?? 60000%Q;
     backoffFactor := backoffFactor config ?? 2%Q;
     jitterFactor := jitterFactor config ?? (1 # 10)%Q |}.

(** ** The transport object ([transport.ts]) *)

(** The five accumulated counters, [this.stats]. *)
Record Stats : Set := mkStats {
  signalsSent : Z;
  audioSent : Z;
  directivesReceived : Z;
  audioReceived : Z;
  errors : Z
}.

(** A callback installed on a transport: a function of the caller, or the
    wrapper by which the registry forwards to its global callback under a
    terminal id. *)
Inductive Callback : Set :=
| UserCallback (fn : nat)
| GlobalWrapper (terminalId : string).

(** Handles of the runtime: a socket and a pending timer. *)
Definition WebSocket : Set := nat.
Definition Timeout : Set := nat.

Record WebSocketTransport : Type := mkTransport {
  config : RequiredConfig;
  ws : option WebSocket;
  connected : bool;
  reconnectAttempts : Z;
  lastActivity : Z;
  shouldReconnect : bool;
  heartbeatTimer : option Timeout;
  reconnectTimer : option Timeout;
  connectTime : Z;
  onConnected : option Callback;
  onDirective : option Callback;
  onAudioData : option Callback;
  onError : option Callback;
  onClose : option Callback;
  stats : Stats
}.

(** [new WebSocketTransport(config)] *)
Definition new_WebSocketTransport (cfg : Config) : WebSocketTransport :=
  {| config := getConfigWithDefaults cfg;
     ws := None;
     connected := false;
     reconnectAttempts := 0;
     lastActivity := 0;
     shouldReconnect := true;
     heartbeatTimer := None;
     reconnectTimer := None;
     connectTime := 0;
     onConnected := None;
     onDirective := None;
     onAudioData := None;
     onError := None;
     onClose := None;
     stats := mkStats 0 0 0 0 0 |}.

(** Field updates. *)
Definition with_stats (t : WebSocketTransport) (s : Stats) : WebSocketTransport :=
  mkTransport (config t) (ws t) (connected t) (reconnectAttempts t) (lastActivity t)
    (shouldReconnect t) (heartbeatTimer t) (reconnectTimer t) (connectTime t)
    (onConnected t) (onDirective t) (onAudioData t) (onError t) (onClose t) s.

Definition with_lastActivity (t : WebSocketTransport) (now : Z) : WebSocketTransport :=
  mkTransport (config t) (ws t) (connected t) (reconnectAttempts t) now
    (shouldReconnect t) (heartbeatTimer t) (reconnectTimer t) (connectTime t)
    (onConnected t) (onDirective t) (onAudioData t) (onError t) (onClose t) (stats t).

Definition with_onConnected (t : WebSocketTransport) (cb : Callback) : WebSocketTransport :=
  mkTransport (config t) (ws t) (connected t) (reconnectAttempts t) (lastActivity t)
    (shouldReconnect t) (heartbeatTimer t) (reconnectTimer t) (connectTime t)
    (Some cb) (onDirective t) (onAudioData t) (onError t) (onClose t) (stats t).

Definition with_onDirective (t : WebSocketTransport) (cb : Callback) : WebSocketTransport :=
  mkTransport (config t) (ws t) (connected t) (reconnectAttempts t) (lastActivity t)
    (shouldReconnect t) (heartbeatTimer t) (reconnectTimer t) (connectTime t)
    (onConnected t) (Some cb) (onAudioData t) (onError t) (onClose t) (stats t).

Definition with_onError (t : WebSocketTransport) (cb : Callback) : WebSocketTransport :=
  mkTransport (config t) (ws t) (connected t) (reconnectAttempts t) (lastActivity t)
    (shouldReconnect t) (heartbeatTimer t) (reconnectTimer t) (connectTime t)
    (onConnected t) (onDirective t) (onAudioData t) (Some cb) (onClose t) (stats t).

Definition with_onClose (t : WebSocketTransport) (cb : Callback) : WebSocketTransport :=
  mkTransport (config t) (ws t) (connected t) (reconnectAttempts t) (lastActivity t)
    (shouldReconnect t) (heartbeatTimer t) (reconnectTimer t) (connectTime t)
    (onConnected t) (onDirective t) (onAudioData t) (onError t) (Some cb) (stats t).

Definition setConnectionCallback := with_onConnected.
Definition setDirectiveCallback := with_onDirective.
Definition setErrorCallback := with_onError.
Definition setCloseCallback := with_onClose.

(** [this.stats.signalsSent++], [this.stats.audioSent++], [this.stats.errors++] *)
Definition incr_signalsSent (s : Stats) : Stats :=
  mkStats (signalsSent s + 1) (audioSent s) (directivesReceived s) (audioReceived s) (errors s).

Definition incr_audioSent (s : Stats) : Stats :=
  mkStats (signalsSent s) (audioSent s + 1) (directivesReceived s) (audioReceived s) (errors s).

Definition incr_errors (s : Stats) : Stats :=
  mkStats (signalsSent s) (audioSent s) (directivesReceived s) (audioReceived s) (errors s + 1).

(** *** What a method does to the world *)

Inductive Frame : Set :=
| TextFrame (text : string)
| BinaryFrame (bytes : Buffer).

Inductive Event : Set :=
| WsSend (frame : Frame)                                   (* [this.ws.send(...)] *)
| CallOnError (cb : Callback) (code : ErrorCode) (message : string).

Inductive Settled : Set :=
| Resolved
| Rejected (e : Exception).

Record Outcome : Type := mkOutcome {
  after : WebSocketTransport;
  trace : list Event;
  settled : Settled
}.

(** The frames handed to the socket in a trace. *)
Fixpoint writes (tr : list Event) : list Frame :=
  match tr with
  | [] => []
  | WsSend f :: tr' => f :: writes tr'
  | CallOnError _ _ _ :: tr' => writes tr'
  end.

(** [if (this.onError) this.onError(code, message)] *)
Definition fire_onError (t : WebSocketTransport) (code : ErrorCode) (message : string) : list Event :=
  match onError t with
  | Some cb => [CallOnError cb code message]
  | None => []
  end.

(** A computation in a [try] block: what it did, and the value it reached or
    the exception it threw. *)
Definition Try (A : Type) : Type := (list Event * (Exception + A))%type.

(** [sendMessage] and [sendBinary]: the promise around [ws.send].  The
    argument [completion] is the error that the socket passes to the
    callback of [send], if any. *)
Definition ws_send (t : WebSocketTransport) (frame : Frame) (completion : option string) : Try unit :=
  match ws t with
  | None => ([], inl (new_Error "Not connected"))
  | Some _ =>
      if negb (connected t) then ([], inl (new_Error "Not connected"))
      else ([WsSend frame],
            match completion with
            | Some message => inl (new_Error message)
            | None => inr tt
            end)
  end.

Definition sendMessage (t : WebSocketTransport) (message : string) := ws_send t (TextFrame message).
Definition sendBinary (t : WebSocketTransport) (data : Buffer) := ws_send t (BinaryFrame data).

(** *** [sendBinaryData]: the 14-byte header and the masked payload *)

(** The mask key: [Buffer.allocUnsafe(4)], every byte of which is then set to
    [Math.floor(Math.random() * 256)].  [random i] is the value of the
    [i]-th call of [Math.random()]. *)
Definition new_maskKey (random : nat -> Q) : Buffer :=
  map (fun i => toUint8 (Qfloor (random i * 256))) [0; 1; 2; 3]%nat.

(** The last loop of the encoder, from index [i] on:
    [protocolData.push(data[i] ^ maskKey[i % 4])]. *)
Fixpoint push_masked (maskKey : Buffer) (i : Z) (data : Buffer) : list Z :=
  match data with
  | [] => []
  | b :: rest => Z.lxor b (Buffer_get maskKey (i mod 4)) :: push_masked maskKey (i + 1) rest
  end.

(** The array [protocolData] at the end of the [try] block, or the exception
    thrown while it is built. *)
Definition protocolData (data : Buffer) (dataType : string) (random : nat -> Q)
  : Exception + list Z :=
  let dataLen := Buffer_length data in
  if dataLen >? 65535 then
    inl (new_StreamIndError SIGNAL_TOO_LARGE (Some "Binary data exceeds 65535 bytes"))
  else
    let dataTypeStr := js_substring (toUpperCase dataType) 0 7 in
    let dataTypeBytes := Buffer_write (Buffer_alloc 7) dataTypeStr 0 in
    let maskKey := new_maskKey random in
    inr ([0x82]
           ++ [Z.land (Z.shiftr dataLen 8) 0xFF; Z.land dataLen 0xFF]
           ++ map (Buffer_get dataTypeBytes) [0; 1; 2; 3; 4; 5; 6]
           ++ map (Buffer_get maskKey) [0; 1; 2; 3]
           ++ push_masked maskKey 0 data)%list.

Definition sendBinaryData (t : WebSocketTransport) (data : Buffer) (dataType : string)
    (random : nat -> Q) (now : Z) (completion : option string) : Outcome :=
  if negb (connected t) then
    mkOutcome t [] (Rejected (new_StreamIndError NOT_CONNECTED None))
  else
    let attempt : Try unit :=
      match protocolData data dataType random with
      | inl thrown => ([], inl thrown)
      | inr bytes => sendBinary t (Buffer_from bytes) completion
      end in
    match attempt with
    | (tr, inr _) =>
        mkOutcome (with_stats (with_lastActivity t now) (incr_audioSent (stats t)))
          tr Resolved
    | (tr, inl error) =>
        mkOutcome (with_stats t (incr_errors (stats t)))
          (tr ++ fire_onError t SEND_FAILED (exn_message error))%list
          (Rejected (new_StreamIndError SEND_FAILED (Some (exn_message error))))
    end.

(** [sendAudioData(data, audioFormat = 'opus')] *)
Definition sendAudioData (t : WebSocketTransport) (data : Buffer) (audioFormat : option string) :=
  sendBinaryData t data (audioFormat ?? "opus").

(** *** Reading a binary frame back, as the wire format is described

    The mask key is the four bytes at offsets 10 to 13, the payload section
    starts at offset 14, and byte [i] of the payload is XOR-ed with byte
    [i mod 4] of the key. *)
Definition frame_maskKey (frame : Buffer) : Buffer := firstn 4 (skipn 10 frame).

Definition frame_payload (frame : Buffer) : Buffer := skipn 14 frame.

Definition xor_with_key (key payload : Buffer) : Buffer :=
  map (fun ib : nat * Z => Z.lxor (snd ib) (nth (fst ib mod 4) key 0))
      (combine (seq 0 (List.length payload)) payload).

Definition xor_decode (frame : Buffer) : Buffer :=
  xor_with_key (frame_maskKey frame) (frame_payload frame).


(** *** Statistics *)

Module Statistics.
Record t : Type := make {
  signalsSent : Z;
  audioSent : Z;
  directivesReceived : Z;
  audioReceived : Z;
  errors : Z;
  connected : bool;
  uptimeSeconds : Q;
  reconnectAttempts : Z
}.
End Statistics.

(** [getStatistics()], read at time [now = Date.now()]. *)
Definition getStatistics (t : WebSocketTransport) (now : Z) : Statistics.t :=
  let uptime :=
    if connected t && (connectTime t >? 0)
    then (inject_Z (now - connectTime t) / 1000)%Q
    else 0%Q in
  {| Statistics.signalsSent := signalsSent (stats t);
     Statistics.audioSent := audioSent (stats t);
     Statistics.directivesReceived := directivesReceived (stats t);
     Statistics.audioReceived := audioReceived (stats t);
     Statistics.errors := errors (stats t);
     Statistics.connected := connected t;
     Statistics.uptimeSeconds := uptime;
     Statistics.reconnectAttempts := reconnectAttempts t |}.

Definition resetStatistics (t : WebSocketTransport) : WebSocketTransport :=
  with_stats t
    {| signalsSent := 0;
       audioSent := 0;
       directivesReceived := 0;
       audioReceived := 0;
       errors := 0 |}.

(** ** The numbers of the run time

    A JavaScript number is an IEEE 754 double: a finite value with 53
    significant bits and a binary exponent from -1074 to 971, one of the two
    infinities, or NaN.  The arithmetic operators compute the exact result
    and round it to the nearest double, ties to the even significand; a
    result of magnitude [2^1024] or more after rounding is an infinity.  The
    two zeros are one value here: they differ only under division and
    [Object.is], which the transport does not use. *)

Module Double.

Inductive Number : Set :=
| NaN
| Infinity (negative : bool)
| Finite (q : Q).

(** The integer nearest to [x]; of two that are as near, the even one. *)
Definition round_half_even (x : Q) : Z :=
  let f := Qfloor x in
  match (x - inject_Z f ?= 1 # 2)%Q with
  | Lt => f
  | Gt => f + 1
  | Eq => if Z.even f then f else f + 1
  end.

Definition pow2 (e : Z) : Q := (2 ^ e)%Q.

(** The binary exponent of [a > 0]: the [e] with [2^e <= a < 2^(e+1)]. *)
Definition floor_log2 (a : Q) : Z :=
  let e := Z.log2 (Qnum a) - Z.log2 (Z.pos (Qden a)) in
  if Qle_bool (pow2 e) a then e else e - 1.

(** The exponent of the last of the 53 bits of the doubles around [a > 0];
    below [2^-1022] the doubles are the multiples of [2^-1074]. *)
Definition quantum (a : Q) : Z := Z.max (floor_log2 a) (-1022) - 52.

(** The multiple of [2^(quantum a)] nearest to [a > 0]. *)
Definition nearest (a : Q) : Q :=
  (inject_Z (round_half_even (a / pow2 (quantum a))) * pow2 (quantum a))%Q.

Definition round_positive (a : Q) : Number :=
  let v := nearest a in
  if Qle_bool (pow2 1024) v then Infinity false else Finite v.

(** Unary [-]. *)
Definition neg (x : Number) : Number :=
  match x with
  | NaN => NaN
  | Infinity negative => Infinity (negb negative)
  | Finite q => Finite (- q)
  end.

(** The double nearest to the exact value [q]. *)
Definition round64 (q : Q) : Number :=
  match (q ?= 0)%Q with
  | Eq => Finite 0
  | Gt => round_positive q
  | Lt => neg (round_positive (- q))
  end.

(** The double a numeric literal or a parsed number denotes. *)
Definition of_Q (q : Q) : Number := round64 q.

(** [x <= y]: false as soon as one side is NaN. *)
Definition le (x y : Number) : Prop :=
  match x, y with
  | NaN, _ | _, NaN => False
  | Infinity true, _ => True
  | _, Infinity false => True
  | Finite a, Finite b => (a <= b)%Q
  | _, _ => False
  end.

(** [x] and [y] are the same number ([x === y], [Finite] values being
    rationals up to [==]). *)
Definition eqv (x y : Number) : Prop := le x y /\ le y x.

(** [q] is the value of a double. *)
Definition representable (q : Q) : Prop := eqv (round64 q) (Finite q).

(** [Number.isNaN] and [Number.isFinite]. *)
Definition isNaN (x : Number) : bool :=
  match x with NaN => true | _ => false end.

Definition isFinite (x : Number) : bool :=
  match x with Finite _ => true | _ => false end.

(** [x * y]: zero times an infinity is NaN. *)
Definition mul (x y : Number) : Number :=
  match x, y with
  | NaN, _ | _, NaN => NaN
  | Finite a, Finite b => round64 (a * b)
  | Infinity s, Infinity s' => Infinity (xorb s s')
  | Infinity s, Finite a | Finite a, Infinity s =>
      match (a ?= 0)%Q with
      | Eq => NaN
      | Gt => Infinity s
      | Lt => Infinity (negb s)
      end
  end.

(** [x + y]: the sum of the two opposite infinities is NaN. *)
Definition add (x y : Number) : Number :=
  match x, y with
  | NaN, _ | _, NaN => NaN
  | Finite a, Finite b => round64 (a + b)
  | Infinity s, Infinity s' => if Bool.eqb s s' then Infinity s else NaN
  | Infinity s, Finite _ | Finite _, Infinity s => Infinity s
  end.

(** [x - y]. *)
Definition sub (x y : Number) : Number := add x (neg y).

(** [Math.min(x, y)] and [Math.max(x, y)]: NaN when an argument is NaN. *)
Definition Math_min (x y : Number) : Number :=
  match x, y with
  | NaN, _ | _, NaN => NaN
  | Infinity true, _ | _, Infinity true => Infinity true
  | Infinity false, z | z, Infinity false => z
  | Finite a, Finite b => Finite (Qmin a b)
  end.

Definition Math_max (x y : Number) : Number :=
  match x, y with
  | NaN, _ | _, NaN => NaN
  | Infinity false, _ | _, Infinity false => Infinity false
  | Infinity true, z | z, Infinity true => z
  | Finite a, Finite b => Finite (Qmax a b)
  end.

(** A power function that rounds the exact power once, for an integer
    exponent.  ECMAScript leaves the precision of [Math.pow] to the
    implementation, so the backoff computation below takes [Math.pow] as a
    parameter; this function is one admissible [Math.pow], exact on the
    powers that are doubles (those of 2 among them). *)
Definition rounded_power (x : Number) (n : Z) : Number :=
  if (n =? 0)%Z then Finite 1
  else
    match x with
    | NaN => NaN
    | Infinity negative =>
        if (n <? 0)%Z then Finite 0 else Infinity (negative && Z.odd n)
    | Finite q =>
        match (q ?= 0)%Q with
        | Eq => if (n <? 0)%Z then Infinity false else Finite 0
        | _ => round64 (q ^ n)
        end
    end.

Section Backoff.

(** [Math.pow], at an integer exponent. *)
Variable Math_pow : Number -> Z -> Number.

(** The first two statements of [calculateBackoffDelay]: the value of
    [delay] after [Math.min], before any jitter is added.  [base],
    [maxDelay] and [factor] are the constants the method reads from
    [this.config], [attempts] is [this.reconnectAttempts]. *)
Definition exponentialBackoff (base maxDelay factor : Number) (attempts : Z) : Number :=
  let delay := mul base (Math_pow factor attempts) in
  Math_min delay maxDelay.

(** [calculateBackoffDelay()], where [random] is the value [Math.random()]
    returns in it. *)
Definition calculateBackoffDelay (base maxDelay factor jitter : Number) (attempts : Z)
    (random : Number) : Number :=
  let delay := exponentialBackoff base maxDelay factor attempts in
  let jitterAmount := mul (mul delay jitter) (sub (mul random (Finite 2)) (Finite 1)) in
  let delay := add delay jitterAmount in
  Math_max (Finite 0) delay.

(** What the backoff needs of [Math.pow] at the configured factor: on the
    attempts, which are integers from 0 on, the power is at least 1 and does
    not decrease. *)
Definition power_grows (factor : Number) : Prop :=
  forall n n' : Z, 0 <= n <= n' ->
    le (Finite 1) (Math_pow factor n) /\ le (Math_pow factor n) (Math_pow factor n').

(** The range described for the jittered delay, in the same arithmetic: the
    two ends of [base * factor^attempts * (1 -/+ jitterFactor)], each
    clamped to the range from [0] to [maxDelay * (1 + jitterFactor)]. *)
Definition described_jitter_range (base maxDelay factor jitter : Number) (attempts : Z)
    (delay : Number) : Prop :=
  let grown := mul base (Math_pow factor attempts) in
  let top := mul maxDelay (add (Finite 1) jitter) in
  let clamp x := Math_max (Finite 0) (Math_min x top) in
  le (clamp (mul grown (sub (Finite 1) jitter))) delay
  /\ le delay (clamp (mul grown (add (Finite 1) jitter))).

End Backoff.

End Double.

(** *** Backoff *)

(** The delay of a reconnect timer as the traces of the transport name it:
    the formula of [calculateBackoffDelay] on the rationals of the
    configuration, [exponentialBackoff] being its first two statements.  The
    traces carry this delay as a label; the value the run time computes,
    with its rounding, is [Double.calculateBackoffDelay], and the ranges of
    the delay are stated of that one. *)
Definition exponentialBackoff (cfg : RequiredConfig) (attempts : Z) : Q :=
  let base := baseReconnectIntervalMs cfg in
  let maxDelay := maxReconnectIntervalMs cfg in
  let factor := backoffFactor cfg in
  let delay := (base * factor ^ attempts)%Q in
  Qmin delay maxDelay.

Definition calculateBackoffDelay (t : WebSocketTransport) (random : Q) : Q :=
  let jitter := jitterFactor (config t) in
  let delay := exponentialBackoff (config t) (reconnectAttempts t) in
  let jitterAmount := (delay * jitter * (random * 2 - 1))%Q in
  let delay := (delay + jitterAmount)%Q in
  Qmax 0 delay.

(** A transport that has made [attempts] reconnect attempts. *)
Definition with_reconnectAttempts (t : WebSocketTransport) (attempts : Z) : WebSocketTransport :=
  mkTransport (config t) (ws t) (connected t) attempts (lastActivity t)
    (shouldReconnect t) (heartbeatTimer t) (reconnectTimer t) (connectTime t)
    (onConnected t) (onDirective t) (onAudioData t) (onError t) (onClose t) (stats t).

(** ** JSON values and [JSON.parse] *)

(** The values [JSON.parse] produces.  An object is the list of its own
    properties in insertion order, each key once; a number is the rational
    value of a finite double. *)
#[warnings="-register-all"]
Inductive Json : Type :=
| JNull
| JBool (b : bool)
| JNumber (q : Q)
| JString (s : string)
| JArray (items : list Json)
| JObject (members : list (string * Json)).

(** [obj[key] = v] on the own properties of an object. *)
Fixpoint set_member (members : list (string * Json)) (key : string) (v : Json)
  : list (string * Json) :=
  match members with
  | [] => [(key, v)]
  | (k, old) :: rest =>
      if String.eqb k key then (k, v) :: rest else (k, old) :: set_member rest key v
  end.

Fixpoint get_member (members : list (string * Json)) (key : string) : option Json :=
  match members with
  | [] => None
  | (k, v) :: rest => if String.eqb k key then Some v else get_member rest key
  end.

Module JSONText.

Definition code (c : ascii) : N := N_of_ascii c.

Definition quote : ascii := "034"%char.
Definition backslash : ascii := "092"%char.

Definition is_ws (c : ascii) : bool :=
  let n := code c in
  (n =? 32)%N || (n =? 9)%N || (n =? 10)%N || (n =? 13)%N.

Definition is_digit (c : ascii) : bool :=
  let n := code c in (48 <=? n)%N && (n <=? 57)%N.

Definition digit_value (c : ascii) : Z := Z.of_N (code c) - 48.

Definition hex_value (c : ascii) : option N :=
  let n := code c in
  if (48 <=? n)%N && (n <=? 57)%N then Some (n - 48)%N
  else if (65 <=? n)%N && (n <=? 70)%N then Some (n - 55)%N
  else if (97 <=? n)%N && (n <=? 102)%N then Some (n - 87)%N
  else None.

Fixpoint skip_ws (s : string) : string :=
  match s with
  | String c r => if is_ws c then skip_ws r else s
  | EmptyString => s
  end.

(** A run of decimal digits: its value after [acc], its length, the rest. *)
Fixpoint read_digits (s : string) (acc : Z) (count : nat) : Z * nat * string :=
  match s with
  | String c r =>
      if is_digit c then read_digits r (acc * 10 + digit_value c) (S count)
      else (acc, count, s)
  | EmptyString => (acc, count, s)
  end.

(** The characters of a string literal after its opening quote.  A
    [\uXXXX] escape above U+00FF has no 8-bit character and is refused. *)
Fixpoint parse_chars (s : string) : option (string * string) :=
  let cons (c : ascii) (r : option (string * string)) :=
    match r with
    | Some (body, rest) => Some (String c body, rest)
    | None => None
    end in
  match s with
  | EmptyString => None
  | String c r =>
      if Ascii.eqb c quote then Some (EmptyString, r)
      else if Ascii.eqb c backslash then
        match r with
        | String e r' =>
            if Ascii.eqb e quote then cons quote (parse_chars r')
            else if Ascii.eqb e backslash then cons backslash (parse_chars r')
            else if Ascii.eqb e "/" then cons "/"%char (parse_chars r')
            else if Ascii.eqb e "b" then cons "008"%char (parse_chars r')
            else if Ascii.eqb e "f" then cons "012"%char (parse_chars r')
            else if Ascii.eqb e "n" then cons "010"%char (parse_chars r')
            else if Ascii.eqb e "r" then cons "013"%char (parse_chars r')
            else if Ascii.eqb e "t" then cons "009"%char (parse_chars r')
            else if Ascii.eqb e "u" then
              match r' with
              | String h1 (String h2 (String h3 (String h4 r''))) =>
                  match hex_value h1, hex_value h2, hex_value h3, hex_value h4 with
                  | Some a, Some b, Some c', Some d =>
                      let n := (((a * 16 + b) * 16 + c') * 16 + d)%N in
                      if (n <? 256)%N then cons (ascii_of_N n) (parse_chars r'')
                      else None
                  | _, _, _, _ => None
                  end
              | _ => None
              end
            else None
        | EmptyString => None
        end
      else if (code c <? 32)%N then None
      else cons c (parse_chars r)
  end.

(** A number literal: [-? int frac? exp?]. *)
Definition parse_number (s : string) : option (Q * string) :=
  let (negative, s1) :=
    match s with
    | String "-" r => (true, r)
    | _ => (false, s)
    end in
  match s1 with
  | EmptyString => None
  | String c r =>
      if negb (is_digit c) then None
      else
        let (int_part, s2) :=
          if Ascii.eqb c "0" then (0, r)
          else let '(v, _, rest) := read_digits s1 0 0 in (v, rest) in
        let fraction :=
          match s2 with
          | String "." r2 =>
              let '(v, n, rest) := read_digits r2 0 0 in
              match n with O => None | _ => Some (v, n, rest) end
          | _ => Some (0, O, s2)
          end in
        match fraction with
        | None => None
        | Some (frac, frac_len, s3) =>
            let exponent :=
              match s3 with
              | String e r3 =>
                  if Ascii.eqb e "e" || Ascii.eqb e "E" then
                    let (exp_negative, r4) :=
                      match r3 with
                      | String "-" r' => (true, r')
                      | String "+" r' => (false, r')
                      | _ => (false, r3)
                      end in
                    let '(v, n, rest) := read_digits r4 0 0 in
                    match n with
                    | O => None
                    | _ => Some (if exp_negative then - v else v, rest)
                    end
                  else Some (0, s3)
              | EmptyString => Some (0, s3)
              end in
            match exponent with
            | None => None
            | Some (e, rest) =>
                let scale := 10 ^ Z.of_nat frac_len in
                let mantissa := (inject_Z (int_part * scale + frac) / inject_Z scale)%Q in
                let magnitude := (mantissa * 10 ^ e)%Q in
                Some (Qred (if negative then - magnitude else magnitude)%Q, rest)
            end
        end
  end.

Section Composite.
(** The parser of one value, for the elements of an array and the
    members of an object. *)
Variable parse_element : string -> option (Json * string).

(** After [[], at the start of an element; [acc] holds the elements read. *)
Fixpoint parse_items (fuel : nat) (s : string) (acc : list Json)
  : option (Json * string) :=
  match fuel with
  | O => None
  | S fuel' =>
      match parse_element s with
      | None => None
      | Some (v, rest) =>
          match skip_ws rest with
          | String "," rest' => parse_items fuel' rest' (acc ++ [v])
          | String "]" rest' => Some (JArray (acc ++ [v]), rest')
          | _ => None
          end
      end
  end.

(** After [{], at the start of a member; [acc] holds the members read.
    A key that comes again overwrites the earlier value. *)
Fixpoint parse_members (fuel : nat) (s : string) (acc : list (string * Json))
  : option (Json * string) :=
  match fuel with
  | O => None
  | S fuel' =>
      match skip_ws s with
      | String c r =>
          if negb (Ascii.eqb c quote) then None
          else
            match parse_chars r with
            | None => None
            | Some (key, after_key) =>
                match skip_ws after_key with
                | String ":" after_colon =>
                    match parse_element after_colon with
                    | None => None
                    | Some (v, rest) =>
                        match skip_ws rest with
                        | String "," rest' => parse_members fuel' rest' (set_member acc key v)
                        | String "}" rest' => Some (JObject (set_member acc key v), rest')
                        | _ => None
                        end
                    end
                | _ => None
                end
            end
      | EmptyString => None
      end
  end.
End Composite.

(** One JSON value and what follows it.  Every level of nesting and every
    element consumes a character, so a fuel above the length of the text
    never runs out. *)
Fixpoint parse_value (fuel : nat) (s : string) : option (Json * string) :=
  match fuel with
  | O => None
  | S fuel' =>
      match skip_ws s with
      | EmptyString => None
      | String "{" r =>
          match skip_ws r with
          | String "}" r' => Some (JObject [], r')
          | _ => parse_members (parse_value fuel') fuel' r []
          end
      | String "[" r =>
          match skip_ws r with
          | String "]" r' => Some (JArray [], r')
          | _ => parse_items (parse_value fuel') fuel' r []
          end
      | String "t" (String "r" (String "u" (String "e" r))) => Some (JBool true, r)
      | String "f" (String "a" (String "l" (String "s" (String "e" r)))) => Some (JBool false, r)
      | String "n" (String "u" (String "l" (String "l" r))) => Some (JNull, r)
      | String c r =>
          if Ascii.eqb c quote then
            match parse_chars r with
            | Some (body, rest) => Some (JString body, rest)
            | None => None
            end
          else
            match parse_number (String c r) with
            | Some (q, rest) => Some (JNumber q, rest)
            | None => None
            end
      end
  end.

End JSONText.

(** [JSON.parse(text)]; [None] is the [SyntaxError] it throws.  This parser
    runs the examples: it reads the texts whose escapes stay below U+0100,
    and reads a number as the rational it denotes, which is the number of
    the run time when that rational is a double.  What is proved of
    decoding in general takes [JSON.parse] as a parameter
    ([Directive.fromJSON_with], [handleTextMessage_with]). *)
Definition JSON_parse (text : string) : option Json :=
  match JSONText.parse_value (S (String.length text)) text with
  | Some (v, rest) =>
      match JSONText.skip_ws rest with
      | EmptyString => Some v
      | _ => None
      end
  | None => None
  end.

(** A JSON text written with ['] where JSON has the double quote. *)
Fixpoint json_text (s : string) : string :=
  match s with
  | EmptyString => EmptyString
  | String c r => String (if Ascii.eqb c "'" then JSONText.quote else c) (json_text r)
  end.

(** ** Reading properties and coercions of the runtime *)

Definition string_of_nat (n : nat) : string := NilZero.string_of_uint (Nat.to_uint n).

(** The element of a list whose index is written [key] in decimal. *)
Definition at_index {A : Type} (l : list A) (key : string) : option A :=
  match find (fun i => String.eqb (string_of_nat i) key) (seq 0 (List.length l)) with
  | Some i => nth_error l i
  | None => None
  end.

(** [obj[key]]: [inl] is the [TypeError] of reading a property of [null],
    [inr None] is [undefined].  Own properties are read; the properties an
    object inherits from its prototype are not part of the model. *)
Definition get_property (obj : Json) (key : string) : Exception + option Json :=
  match obj with
  | JNull => inl (new_Error "TypeError: Cannot read properties of null")
  | JObject members => inr (get_member members key)
  | JArray items =>
      inr (if String.eqb key "length" then Some (JNumber (inject_Z (Z.of_nat (List.length items))))
           else at_index items key)
  | JString str =>
      inr (if String.eqb key "length" then Some (JNumber (inject_Z (Z.of_nat (String.length str))))
           else option_map (fun c => JString (String c EmptyString))
                  (at_index (list_ascii_of_string str) key))
  | JBool _ | JNumber _ => inr None
  end.

(** Truthiness, and [a || b]. *)
Definition truthy (v : Json) : bool :=
  match v with
  | JNull => false
  | JBool b => b
  | JNumber q => negb (Qeq_bool q 0)
  | JString str => negb (String.eqb str EmptyString)
  | JArray _ | JObject _ => true
  end.

Definition or_else (a : option Json) (b : Json) : Json :=
  match a with
  | Some v => if truthy v then v else b
  | None => b
  end.

(** [value === 'text'] *)
Definition is_string (value : option Json) (text : string) : bool :=
  match value with
  | Some (JString str) => String.eqb str text
  | _ => false
  end.

(** [parseInt(s, 10)]: white space, a sign, then decimal digits; [None] is
    [NaN], the result when no digit is there.  The white space of the
    language, among the code units below 256: tab, line feed, vertical tab,
    form feed, carriage return, space and no-break space.  The result is the
    integer the digits denote; the runtime returns the double nearest to it,
    which is the integer itself up to [2^53]. *)
Definition is_StrWhiteSpace (c : ascii) : bool :=
  let n := N_of_ascii c in
  ((9 <=? n)%N && (n <=? 13)%N) || (n =? 32)%N || (n =? 160)%N.

Fixpoint trimStart (s : string) : string :=
  match s with
  | String c r => if is_StrWhiteSpace c then trimStart r else s
  | EmptyString => s
  end.

Definition parseInt (s : string) : option Z :=
  let (negative, digits) :=
    match trimStart s with
    | String c r =>
        if Ascii.eqb c "-" then (true, r)
        else if Ascii.eqb c "+" then (false, r)
        else (false, String c r)
    | EmptyString => (false, EmptyString)
    end in
  let '(v, n, _) := JSONText.read_digits digits 0 0 in
  match n with
  | O => None
  | _ => Some (if negative then - v else v)
  end.

Section ToString.
(** How the runtime prints a number, [Number.prototype.toString]. *)
Variable Number_toString : Q -> string.

(** [String(value)] of a JSON value: an array prints its elements joined
    by commas, with nothing for [null].  An object prints as
    [[object Object]] through the [toString] it inherits; one that has a
    member named [toString] of its own, which hides the inherited one, is
    outside this definition. *)
Fixpoint ToString (v : Json) : string :=
  match v with
  | JNull => "null"
  | JBool true => "true"
  | JBool false => "false"
  | JNumber q => Number_toString q
  | JString str => str
  | JObject _ => "[object Object]"
  | JArray items =>
      let element (x : Json) :=
        match x with
        | JNull => EmptyString
        | _ => ToString x
        end in
      (fix join (l : list Json) : string :=
         match l with
         | [] => EmptyString
         | [x] => element x
         | x :: rest => element x ++ "," ++ join rest
         end) items
  end.

Definition js_String (value : option Json) : string :=
  match value with
  | Some v => ToString v
  | None => "undefined"
  end.
End ToString.

Section ToNumber.
(** Two conversions of the runtime: how it prints a number, and how it reads
    a string as a number ([None] is [NaN]). *)
Variable Number_toString : Q -> string.
Variable StringToNumber : string -> option Q.

(** [Number(value)]: an array or an object is read through its string
    form. *)
Definition js_Number (value : option Json) : option Q :=
  match value with
  | None => None
  | Some JNull => Some 0%Q
  | Some (JBool true) => Some 1%Q
  | Some (JBool false) => Some 0%Q
  | Some (JNumber q) => Some q
  | Some (JString str) => StringToNumber str
  | Some ((JArray _ | JObject _) as v) => StringToNumber (ToString Number_toString v)
  end.
End ToNumber.

(** ** Directives ([models.ts]) *)

Module Directive.

(** The fields are declared [string] and [Record<string, any>]; what
    [fromJSON] stores in them is whatever the JSON text holds. *)
Record t : Type := make {
  id : Json;
  name : Json;
  timestamp : string;
  parameters : Json
}.

Section Decoding.
(** [JSON.parse], a built-in of the runtime: the value it returns, or
    [None] where it throws. *)
Variable JSON_parse : string -> option Json.

(** [Directive.fromJSON(jsonStr)], built at the time whose ISO form is
    [now]. *)
Definition fromJSON_with (jsonStr : string) (now : string) : Exception + t :=
  match JSON_parse jsonStr with
  | None => inl (new_Error "SyntaxError")
  | Some data =>
      match get_property data "parameters", get_property data "id", get_property data "name" with
      | inr data_parameters, inr data_id, inr data_name =>
          let params := or_else data_parameters (JObject []) in
          let params :=
            match params with
            | JString text =>
                match JSON_parse text with
                | Some parsed => parsed
                | None => JObject []
                end
            | _ => params
            end in
          inr (make (or_else data_id (JString EmptyString))
                 (or_else data_name (JString EmptyString)) now params)
      | inl thrown, _, _ => inl thrown
      | _, inl thrown, _ => inl thrown
      | _, _, inl thrown => inl thrown
      end
  end.
End Decoding.

(** [Directive.fromJSON] run with the parser of this file. *)
Definition fromJSON : string -> string -> Exception + t := fromJSON_with JSON_parse.

Section Accessors.
Variable Number_toString : Q -> string.

Definition getIntParameter (d : t) (key : string) (defaultValue : Q) : Exception + Q :=
  match get_property (parameters d) key with
  | inl thrown => inl thrown
  | inr (Some (JNumber value)) => inr (inject_Z (Qfloor value))
  | inr value =>
      match parseInt (js_String Number_toString value) with
      | None => inr defaultValue
      | Some num => inr (inject_Z num)
      end
  end.
End Accessors.

Definition getBoolParameter (d : t) (key : string) (defaultValue : bool) : Exception + bool :=
  match get_property (parameters d) key with
  | inl thrown => inl thrown
  | inr (Some (JBool value)) => inr value
  | inr value =>
      if is_string value "true" then inr true
      else if is_string value "false" then inr false
      else inr defaultValue
  end.

Definition getStringParameter (d : t) (key : string) (defaultValue : string)
  : Exception + string :=
  match get_property (parameters d) key with
  | inl thrown => inl thrown
  | inr (Some (JString value)) => inr value
  | inr _ => inr defaultValue
  end.

Section NumberAccessor.
Variable Number_toString : Q -> string.
Variable StringToNumber : string -> option Q.

Definition getNumberParameter (d : t) (key : string) (defaultValue : Q) : Exception + Q :=
  match get_property (parameters d) key with
  | inl thrown => inl thrown
  | inr (Some (JNumber value)) => inr value
  | inr value =>
      match js_Number Number_toString StringToNumber value with
      | None => inr defaultValue
      | Some num => inr num
      end
  end.
End NumberAccessor.

(** [this.parameters[key] ?? defaultValue] *)
Definition getObjectParameter (d : t) (key : string) (defaultValue : Json) : Exception + Json :=
  match get_property (parameters d) key with
  | inl thrown => inl thrown
  | inr (Some JNull) | inr None => inr defaultValue
  | inr (Some value) => inr value
  end.

End Directive.

(** ** Signals ([models.ts]) and [sendSignal] ([transport.ts]) *)

Module Signal.

Record SignalSource : Set := mkSource {
  receptorId : string;
  receptorTopic : string;
  generatedTime : string
}.

Record t : Type := make {
  uuid : string;
  type : string;
  timestamp : string;
  source : SignalSource;
  payload : list (string * Json)
}.

(** The object [toJSON] hands to [JSON.stringify]. *)
Definition wire_object (s : t) : Json :=
  JObject
    [("uuid", JString (uuid s));
     ("type", JString (type s));
     ("timestamp", JString (timestamp s));
     ("source",
       JObject
         [("receptorId", JString (receptorId (source s)));
          ("receptorTopic", JString (receptorTopic (source s)));
          ("generatedTime", JString (generatedTime (source s)))]);
     ("payload", JObject (payload s))].

(** How an integer is printed in a template literal. *)
Definition decimal (z : Z) : string := NilZero.string_of_int (Z.to_int z).

(** [new Signal(type)]: [signalCounter] is the counter of the module before
    the call, [nowMs] is [Date.now()] and [nowIso] is
    [new Date().toISOString()].  The result is the signal and the counter
    after the call. *)
Definition create (signalCounter : Z) (type : string) (nowMs : Z) (nowIso : string) : t * Z :=
  let signalCounter := signalCounter + 1 in
  (make ("sig_" ++ decimal nowMs ++ "_" ++ decimal signalCounter) type nowIso
     (mkSource EmptyString EmptyString nowIso) [],
   signalCounter).

Definition getPayload (s : t) : list (string * Json) := payload s.

End Signal.

(** [a > b] on numbers. *)
Definition Qgt_bool (a b : Q) : bool := negb (Qle_bool a b).

(** [if (!field) field = value] on a string field. *)
Definition fill_if_empty (field value : string) : string :=
  if String.eqb field EmptyString then value else field.

(** The three assignments of [sendSignal] that fill the source of a signal. *)
Definition autofill_source (t : WebSocketTransport) (signal : Signal.t) : Signal.t :=
  let src := Signal.source signal in
  Signal.make (Signal.uuid signal) (Signal.type signal) (Signal.timestamp signal)
    (Signal.mkSource
       (fill_if_empty (Signal.receptorId src) (deviceId (config t)))
       (fill_if_empty (Signal.receptorTopic src) (deviceType (config t)))
       (fill_if_empty (Signal.generatedTime src) (Signal.timestamp signal)))
    (Signal.payload signal).

Section SendSignal.
(** Two built-ins of the runtime: [JSON.stringify] on the wire object of a
    signal, and [Buffer.byteLength(text, 'utf8')]. *)
Variable JSON_stringify : Json -> string.
Variable byteLength : string -> Z.

Definition Signal_toJSON (signal : Signal.t) : string :=
  JSON_stringify (Signal.wire_object signal).

(** [sendSignal(signal)]: the outcome, and the signal object as the call
    leaves it. *)
Definition sendSignal (t : WebSocketTransport) (signal : Signal.t)
    (now : Z) (completion : option string) : Outcome * Signal.t :=
  if negb (connected t) then
    (mkOutcome t [] (Rejected (new_StreamIndError NOT_CONNECTED None)), signal)
  else
    let signal := autofill_source t signal in
    let jsonStr := Signal_toJSON signal in
    if Qgt_bool (inject_Z (byteLength jsonStr)) (maxMessageSize (config t)) then
      (mkOutcome t [] (Rejected (new_StreamIndError SIGNAL_TOO_LARGE None)), signal)
    else
      match sendMessage t jsonStr completion with
      | (tr, inr _) =>
          (mkOutcome (with_stats (with_lastActivity t now) (incr_signalsSent (stats t)))
             tr Resolved, signal)
      | (tr, inl error) =>
          (mkOutcome (with_stats t (incr_errors (stats t)))
             (tr ++ fire_onError t SEND_FAILED (exn_message error))%list
             (Rejected (new_StreamIndError SEND_FAILED (Some (exn_message error)))), signal)
      end.
End SendSignal.

(** ** The terminal registry ([sdk.ts]) *)

Module Terminal.
Record t : Type := make {
  config : Config;
  transport : WebSocketTransport
}.
End Terminal.

(** A [Map] with string keys: its entries in insertion order, each key once. *)
Module StringMap.
Section Ops.
Context {V : Type}.

Fixpoint get (m : list (string * V)) (key : string) : option V :=
  match m with
  | [] => None
  | (k, v) :: rest => if String.eqb k key then Some v else get rest key
  end.

Definition has (m : list (string * V)) (key : string) : bool :=
  match get m key with
  | Some _ => true
  | None => false
  end.

Fixpoint set (m : list (string * V)) (key : string) (v : V) : list (string * V) :=
  match m with
  | [] => [(key, v)]
  | (k, old) :: rest =>
      if String.eqb k key then (k, v) :: rest else (k, old) :: set rest key v
  end.

Definition keys (m : list (string * V)) : list string := map fst m.

Fixpoint delete (m : list (string * V)) (key : string) : list (string * V) :=
  match m with
  | [] => []
  | (k, v) :: rest => if String.eqb k key then rest else (k, v) :: delete rest key
  end.
End Ops.
End StringMap.

Record SDK : Type := mkSDK {
  terminals : list (string * Terminal.t);
  lastError : string;
  globalConnectionCallback : option nat;
  globalDirectiveCallback : option nat;
  globalErrorCallback : option nat;
  globalCloseCallback : option nat
}.

Definition new_SDK : SDK := mkSDK [] EmptyString None None None None.

(** [if (global) transport.setXCallback(wrapper)] *)
Definition apply_global (global : option nat)
    (setCallback : WebSocketTransport -> Callback -> WebSocketTransport)
    (terminalId : string) (transport : WebSocketTransport) : WebSocketTransport :=
  match global with
  | Some _ => setCallback transport (GlobalWrapper terminalId)
  | None => transport
  end.

Definition registerTerminal (sdk : SDK) (terminalId : string) (config : Config)
  : SDK * ErrorCode :=
  if StringMap.has (terminals sdk) terminalId then
    (mkSDK (terminals sdk) ("Terminal " ++ terminalId ++ " already registered")
       (globalConnectionCallback sdk) (globalDirectiveCallback sdk)
       (globalErrorCallback sdk) (globalCloseCallback sdk),
     ALREADY_INITIALIZED)
  else
    let transport := new_WebSocketTransport config in
    let transport := apply_global (globalConnectionCallback sdk) setConnectionCallback terminalId transport in
    let transport := apply_global (globalDirectiveCallback sdk) setDirectiveCallback terminalId transport in
    let transport := apply_global (globalErrorCallback sdk) setErrorCallback terminalId transport in
    let transport := apply_global (globalCloseCallback sdk) setCloseCallback terminalId transport in
    (mkSDK (StringMap.set (terminals sdk) terminalId (Terminal.make config transport))
       (lastError sdk)
       (globalConnectionCallback sdk) (globalDirectiveCallback sdk)
       (globalErrorCallback sdk) (globalCloseCallback sdk),
     OK).

Definition getAllTerminals (sdk : SDK) : list string := StringMap.keys (terminals sdk).

(** ** The binary frame as the wire format describes it *)

(** The loop of the encoder computes, at every index, the XOR the wire
    format names. *)
Definition xor_from (key : Buffer) (start : nat) (payload : Buffer) : Buffer :=
  map (fun ib : nat * Z => Z.lxor (snd ib) (nth (fst ib mod 4) key 0))
      (combine (seq start (List.length payload)) payload).


(** ** Sample objects *)

(** A connected transport with default tunables, used to run the methods on
    concrete inputs. *)
Definition sample_config : Config :=
  mkConfig "device-001" "sensor" "wss://platform.example/signals" "tenant" "product" "key"
    None None None None None None None None None.

Definition sample_transport : WebSocketTransport :=
  mkTransport (getConfigWithDefaults sample_config) (Some 1%nat) true 0 1000 true
    (Some 1%nat) None 1000 None None None (Some (UserCallback 0)) None (mkStats 0 0 0 0 0).

Definition sample_random (i : nat) : Q := ((Z.of_nat i * 37 + 11) # 100)%Q.

(** A tunable of the default configuration, as the double the run time
    holds for it. *)
Definition default_tunable (field : RequiredConfig -> Q) : Double.Number :=
  Double.of_Q (field (getConfigWithDefaults sample_config)).

(** ** The invariant of a resolved configuration *)

(** The numeric tunables are non-negative and the backoff factor is at
    least 1.  Finiteness is in the type: a [Q] is a finite number. *)
Definition tunables_invariant (cfg : RequiredConfig) : Prop :=
  (0 <= connectionTimeoutMs cfg)%Q
  /\ (0 <= heartbeatIntervalMs cfg)%Q
  /\ (0 <= maxMessageSize cfg)%Q
  /\ (0 <= baseReconnectIntervalMs cfg)%Q
  /\ (0 <= maxReconnectIntervalMs cfg)%Q
  /\ (0 <= backoffFactor cfg)%Q
  /\ (0 <= jitterFactor cfg)%Q
  /\ (1 <= backoffFactor cfg)%Q.

(** [P] holds of an optional field when the field is supplied. *)
Definition supplied (P : Q -> Prop) (field : option Q) : Prop :=
  match field with
  | Some v => P v
  | None => True
  end.

(** The tunables a caller supplies meet the bounds of the invariant. *)
Definition supplied_tunables_ok (config : Config) : Prop :=
  supplied (Qle 0) (connectionTimeoutMs config)
  /\ supplied (Qle 0) (heartbeatIntervalMs config)
  /\ supplied (Qle 0) (maxMessageSize config)
  /\ supplied (Qle 0) (baseReconnectIntervalMs config)
  /\ supplied (Qle 0) (maxReconnectIntervalMs config)
  /\ supplied (Qle 1) (backoffFactor config)
  /\ supplied (Qle 0) (jitterFactor config).

(** A resolved configuration read again as an input: every optional field
    is supplied. *)
Definition supply_all (cfg : RequiredConfig) : Config :=
  {| deviceId := deviceId cfg;
     deviceType := deviceType cfg;
     endpoint := endpoint cfg;
     tenantId := tenantId cfg;
     productId := productId cfg;
     productKey := productKey cfg;
     enableDirectiveReceiving := Some (enableDirectiveReceiving cfg);
     connectionTimeoutMs := Some (connectionTimeoutMs cfg);
     heartbeatIntervalMs := Some (heartbeatIntervalMs cfg);
     maxMessageSize := Some (maxMessageSize cfg);
     maxReconnectAttempts := Some (maxReconnectAttempts cfg);
     baseReconnectIntervalMs := Some (baseReconnectIntervalMs cfg);
     maxReconnectIntervalMs := Some (maxReconnectIntervalMs cfg);
     backoffFactor := Some (backoffFactor cfg);
     jitterFactor := Some (jitterFactor cfg) |}.

(** A configuration whose caller supplies five of the tunables and leaves
    the others to their defaults. *)
Definition tuned_config : Config :=
  mkConfig "device-001" "sensor" "wss://platform.example/signals" "tenant" "product" "key"
    (Some false) (Some 2500%Q) None (Some 65536%Q) None (Some 250%Q) None (Some (3 # 2)%Q)
    (Some 0%Q).

(** A configuration whose caller asks for a backoff factor of one half. *)
Definition shrinking_config : Config :=
  mkConfig "device-001" "sensor" "wss://platform.example/signals" "tenant" "product" "key"
    None None None None None None None (Some (1 # 2)%Q) None.

(** ** Samples for [sendSignal] and the registry *)

(** A serializer that agrees with [JSON.stringify] on values whose strings
    need no escape and whose numbers are integers; it stands for the
    built-in when [sendSignal] is run on a sample. *)
Fixpoint stringify_plain (v : Json) : string :=
  let quoted (str : string) := String JSONText.quote (str ++ String JSONText.quote EmptyString) in
  match v with
  | JNull => "null"
  | JBool true => "true"
  | JBool false => "false"
  | JNumber q => NilZero.string_of_int (Z.to_int (Qfloor q))
  | JString str => quoted str
  | JArray items =>
      "[" ++ (fix join (l : list Json) : string :=
                match l with
                | [] => EmptyString
                | [x] => stringify_plain x
                | x :: rest => stringify_plain x ++ "," ++ join rest
                end) items ++ "]"
  | JObject members =>
      "{" ++ (fix join (l : list (string * Json)) : string :=
                match l with
                | [] => EmptyString
                | [(k, x)] => quoted k ++ ":" ++ stringify_plain x
                | (k, x) :: rest => quoted k ++ ":" ++ stringify_plain x ++ "," ++ join rest
                end) members ++ "}"
  end.

(** The UTF-8 length of an ASCII string. *)
Definition ascii_byteLength (text : string) : Z := Z.of_nat (String.length text).

(** A transport whose configuration allows messages of at most 64 bytes. *)
Definition narrow_transport : WebSocketTransport :=
  mkTransport
    (getConfigWithDefaults
       (mkConfig "device-001" "sensor" "wss://platform.example/signals" "tenant" "product" "key"
          None None None (Some 64%Q) None None None None None))
    (Some 1%nat) true 0 1000 true (Some 1%nat) None 1000 None None None
    (Some (UserCallback 0)) None (mkStats 3 0 0 0 0).

Definition sample_signal : Signal.t :=
  Signal.make "sig_1767225600000_1" "sensor.data" "2026-01-01T00:00:00.000Z"
    (Signal.mkSource EmptyString EmptyString "2026-01-01T00:00:00.000Z")
    [("value", JNumber 25%Q); ("unit", JString "celsius")].

(** A registry in which ["terminal-1"] is registered. *)
Definition one_terminal_sdk : SDK := fst (registerTerminal new_SDK "terminal-1" sample_config).

(** ** Directive parameters as they are described *)

(** The directive of the example. *)
Definition motor_move_text : string :=
  json_text "{'id':'d1','name':'motor.move','parameters':{'speed':'42','enabled':'true'}}".


(** How the runtime prints an integer-valued number of ordinary size. *)
Definition print_integer (q : Q) : string := NilZero.string_of_int (Z.to_int (Qfloor q)).

Fixpoint all_digits (s : string) : bool :=
  match s with
  | EmptyString => true
  | String c r => JSONText.is_digit c && all_digits r
  end.











(** * The rest of the transport, the registry and the models *)

(** ** [getWebSocketUrl] ([models.ts]) *)

(** [getWebSocketUrl(config, traceId = '')]; it reads the identity fields
    only, so it takes a [Config] and a [Required<Config>] alike. *)
Definition getWebSocketUrl {F : Type -> Type} (config : ConfigOf F) (traceId : string) : string :=
  let url := endpoint config in
  let url := url ++ "?tenantId=" ++ tenantId config in
  let url := url ++ "&productId=" ++ productId config in
  let url := url ++ "&productKey=" ++ productKey config in
  if String.eqb traceId EmptyString then url
  else url ++ "&traceId=" ++ traceId.

(** ** The connection lifecycle ([transport.ts]) *)

(** Assignments to the fields of the transport. *)
Definition set_ws (t : WebSocketTransport) (sock : option WebSocket) : WebSocketTransport :=
  mkTransport (config t) sock (connected t) (reconnectAttempts t) (lastActivity t)
    (shouldReconnect t) (heartbeatTimer t) (reconnectTimer t) (connectTime t)
    (onConnected t) (onDirective t) (onAudioData t) (onError t) (onClose t) (stats t).

Definition set_connected (t : WebSocketTransport) (b : bool) : WebSocketTransport :=
  mkTransport (config t) (ws t) b (reconnectAttempts t) (lastActivity t)
    (shouldReconnect t) (heartbeatTimer t) (reconnectTimer t) (connectTime t)
    (onConnected t) (onDirective t) (onAudioData t) (onError t) (onClose t) (stats t).

Definition set_shouldReconnect (t : WebSocketTransport) (b : bool) : WebSocketTransport :=
  mkTransport (config t) (ws t) (connected t) (reconnectAttempts t) (lastActivity t)
    b (heartbeatTimer t) (reconnectTimer t) (connectTime t)
    (onConnected t) (onDirective t) (onAudioData t) (onError t) (onClose t) (stats t).

Definition set_heartbeatTimer (t : WebSocketTransport) (timer : option Timeout)
  : WebSocketTransport :=
  mkTransport (config t) (ws t) (connected t) (reconnectAttempts t) (lastActivity t)
    (shouldReconnect t) timer (reconnectTimer t) (connectTime t)
    (onConnected t) (onDirective t) (onAudioData t) (onError t) (onClose t) (stats t).

Definition set_reconnectTimer (t : WebSocketTransport) (timer : option Timeout)
  : WebSocketTransport :=
  mkTransport (config t) (ws t) (connected t) (reconnectAttempts t) (lastActivity t)
    (shouldReconnect t) (heartbeatTimer t) timer (connectTime t)
    (onConnected t) (onDirective t) (onAudioData t) (onError t) (onClose t) (stats t).

Definition set_connectTime (t : WebSocketTransport) (now : Z) : WebSocketTransport :=
  mkTransport (config t) (ws t) (connected t) (reconnectAttempts t) (lastActivity t)
    (shouldReconnect t) (heartbeatTimer t) (reconnectTimer t) now
    (onConnected t) (onDirective t) (onAudioData t) (onError t) (onClose t) (stats t).

Definition setAudioDataCallback (t : WebSocketTransport) (cb : Callback) : WebSocketTransport :=
  mkTransport (config t) (ws t) (connected t) (reconnectAttempts t) (lastActivity t)
    (shouldReconnect t) (heartbeatTimer t) (reconnectTimer t) (connectTime t)
    (onConnected t) (onDirective t) (Some cb) (onError t) (onClose t) (stats t).

(** [this.stats.directivesReceived++], [this.stats.audioReceived++] *)
Definition incr_directivesReceived (s : Stats) : Stats :=
  mkStats (signalsSent s) (audioSent s) (directivesReceived s + 1) (audioReceived s) (errors s).

Definition incr_audioReceived (s : Stats) : Stats :=
  mkStats (signalsSent s) (audioSent s) (directivesReceived s) (audioReceived s + 1) (errors s).

(** What the timers of the transport run. *)
Inductive Task : Set :=
| ConnectTimeout      (* the timeout of [connect] *)
| HeartbeatTick       (* [sendHeartbeat] *)
| ReconnectAttempt.   (* the callback of [startReconnect] *)

(** What the lifecycle methods and the socket handlers do to the world:
    what the sending methods do, and the socket, the timers and the other
    callbacks besides. *)
Inductive Action : Type :=
| Did (e : Event)
| OpenSocket (url : string)                                  (* [new WebSocket(url, ...)] *)
| CloseSocket (sock : WebSocket) (code : Z) (reason : string) (* [ws.close(code, reason)] *)
| SetTimeout (handle : Timeout) (task : Task) (delay : Q)
| ClearTimeout (handle : Timeout)
| CallOnConnected (cb : Callback) (isConnected : bool) (errorMessage : string)
| CallOnDirective (cb : Callback) (directive : Directive.t)
| CallOnAudioData (cb : Callback) (data : Buffer)
| CallOnClose (cb : Callback) (code : Z) (reason : string).

(** [if (this.onX) this.onX(...)] *)
Definition call_onError (t : WebSocketTransport) (code : ErrorCode) (message : string)
  : list Action :=
  map Did (fire_onError t code message).

Definition call_onConnected (t : WebSocketTransport) (isConnected : bool) (errorMessage : string)
  : list Action :=
  match onConnected t with
  | Some cb => [CallOnConnected cb isConnected errorMessage]
  | None => []
  end.

Definition call_onClose (t : WebSocketTransport) (code : Z) (reason : string) : list Action :=
  match onClose t with
  | Some cb => [CallOnClose cb code reason]
  | None => []
  end.

(** [if (timer) clearTimeout(timer)] *)
Definition clear_timer (timer : option Timeout) : list Action :=
  match timer with
  | Some handle => [ClearTimeout handle]
  | None => []
  end.

(** [isConnected()] *)
Definition isConnected (t : WebSocketTransport) : bool := connected t.

(** [disconnect()].  The method awaits nothing: it runs to its end at once. *)
Definition disconnect (t : WebSocketTransport) : WebSocketTransport * list Action :=
  let closing :=
    match ws t with
    | Some sock => [CloseSocket sock 1000 "Normal disconnection"]
    | None => []
    end in
  let t' :=
    set_connected
      (set_ws
         (set_reconnectTimer
            (set_heartbeatTimer (set_shouldReconnect t false) None)
            None)
         None)
      false in
  (t',
   (clear_timer (heartbeatTimer t) ++ clear_timer (reconnectTimer t) ++ closing
      ++ call_onClose t 1000 "Normal disconnection"
      ++ call_onConnected t false "User disconnected")%list).

(** [startReconnect()]: [random] is what [Math.random()] returns in
    [calculateBackoffDelay], [handle] what [setTimeout] returns. *)
Definition startReconnect (t : WebSocketTransport) (random : Q) (handle : Timeout)
  : WebSocketTransport * list Action :=
  if Qgt_bool (maxReconnectAttempts (config t)) 0
     && Qle_bool (maxReconnectAttempts (config t)) (inject_Z (reconnectAttempts t))
  then (t, [])
  else
    let delay := calculateBackoffDelay t random in
    (set_reconnectTimer t (Some handle), [SetTimeout handle ReconnectAttempt delay]).

(** [handleDisconnect()] *)
Definition handleDisconnect (t : WebSocketTransport) (random : Q) (handle : Timeout)
  : WebSocketTransport * list Action :=
  if negb (connected t) then (t, [])
  else
    let t1 := set_heartbeatTimer (set_ws (set_connected t false) None) None in
    let before :=
      (clear_timer (heartbeatTimer t) ++ call_onConnected t false "Connection lost")%list in
    if shouldReconnect t1 then
      let (t2, scheduled) := startReconnect t1 random handle in
      (t2, (before ++ scheduled)%list)
    else (t1, before).

(** [startHeartbeat()] *)
Definition startHeartbeat (t : WebSocketTransport) (handle : Timeout)
  : WebSocketTransport * list Action :=
  (set_heartbeatTimer t (Some handle),
   (clear_timer (heartbeatTimer t)
      ++ [SetTimeout handle HeartbeatTick (heartbeatIntervalMs (config t))])%list).

(** The text of the keepalive, [JSON.stringify({ type: 'ping' })]. *)
Definition heartbeat_text : string := json_text "{'type':'ping'}".

(** [sendHeartbeat], the body of the heartbeat timer, run at time [now]: the
    transport and the actions when it returns, and whether the promise of
    the keepalive is rejected, in which case [handleDisconnect] runs next. *)
Definition sendHeartbeat (t : WebSocketTransport) (now : Z) (completion : option string)
    (handle : Timeout) : WebSocketTransport * list Action * bool :=
  if negb (connected t) then (t, [], false)
  else
    let (sent, failed) :=
      if Qle_bool (heartbeatIntervalMs (config t)) (inject_Z (now - lastActivity t)) then
        match sendMessage t heartbeat_text completion with
        | (tr, inl _) => (map Did tr, true)
        | (tr, inr _) => (map Did tr, false)
        end
      else ([], false) in
    (set_heartbeatTimer t (Some handle),
     (sent ++ [SetTimeout handle HeartbeatTick (heartbeatIntervalMs (config t))])%list,
     failed).

(** [a && b] and [if (a)] read a value for its truthiness; [undefined] is
    falsy. *)
Definition js_truthy (value : option Json) : bool :=
  match value with
  | Some v => truthy v
  | None => false
  end.

Section Receiving.
(** [JSON.parse], a built-in of the runtime: the value it returns, or
    [None] where it throws. *)
Variable JSON_parse : string -> option Json.

(** [handleTextMessage(message)], where a directive that is built gets the
    timestamp [directiveNow]. *)
Definition handleTextMessage_with (t : WebSocketTransport) (message : string)
    (directiveNow : string) : WebSocketTransport * list Action :=
  let caught :=
    (with_stats t (incr_errors (stats t)),
     call_onError t INTERNAL_ERROR "Invalid JSON message") in
  match JSON_parse message with
  | None => caught
  | Some data =>
      match get_property data "name", get_property data "id" with
      | inr data_name, inr data_id =>
          if js_truthy data_name && js_truthy data_id then
            match Directive.fromJSON_with JSON_parse message directiveNow with
            | inl _ => caught
            | inr directive =>
                (with_stats t (incr_directivesReceived (stats t)),
                 match onDirective t with
                 | Some cb =>
                     if enableDirectiveReceiving (config t)
                     then [CallOnDirective cb directive]
                     else []
                 | None => []
                 end)
            end
          else (t, [])
      | _, _ => caught
      end
  end.
End Receiving.

(** [handleTextMessage] run with the parser of this file. *)
Definition handleTextMessage
  : WebSocketTransport -> string -> string -> WebSocketTransport * list Action :=
  handleTextMessage_with JSON_parse.

(** [connect(traceId = '')] up to the point where it waits for the socket.
    [timer] is the handle of the timeout it arms; [socket] is the socket
    [new WebSocket] returns, or the message of the error it throws.  The
    last component is the exception the promise is rejected with at once, or
    [None] when the promise is left pending. *)
Definition connect (t : WebSocketTransport) (traceId : string) (timer : Timeout)
    (socket : string + WebSocket) : WebSocketTransport * list Action * option Exception :=
  if connected t then (t, [], Some (new_StreamIndError ALREADY_CONNECTED None))
  else
    let t1 := set_shouldReconnect t true in
    let url := getWebSocketUrl (config t1) traceId in
    let armed := SetTimeout timer ConnectTimeout (connectionTimeoutMs (config t1)) in
    match socket with
    | inr sock => (set_ws t1 (Some sock), [armed; OpenSocket url], None)
    | inl message =>
        (with_stats t1 (incr_errors (stats t1)),
         ([armed; OpenSocket url; ClearTimeout timer]
            ++ call_onError t1 CONNECTION_FAILED message
            ++ call_onConnected t1 false message)%list,
         Some (new_StreamIndError CONNECTION_FAILED (Some message)))
    end.

(** The timeout of [connect] fires: the promise is rejected with the
    exception returned. *)
Definition on_timeout (t : WebSocketTransport) : WebSocketTransport * list Action * Exception :=
  (with_stats t (incr_errors (stats t)),
   (call_onError t CONNECTION_TIMEOUT "Connection timeout"
      ++ call_onConnected t false "Connection timeout")%list,
   new_StreamIndError CONNECTION_TIMEOUT None).

(** The handler of ['open']; [activityNow] and [connectNow] are the two
    readings of [Date.now()], [handle] is the handle of the heartbeat timer.
    The promise of [connect] is resolved. *)
Definition on_open (t : WebSocketTransport) (timer : Timeout) (activityNow connectNow : Z)
    (handle : Timeout) : WebSocketTransport * list Action :=
  let t1 :=
    set_connectTime
      (with_lastActivity (with_reconnectAttempts (set_connected t true) 0) activityNow)
      connectNow in
  let (t2, heartbeat) := startHeartbeat t1 handle in
  (t2, ([ClearTimeout timer] ++ call_onConnected t1 true EmptyString ++ heartbeat)%list).

(** The handler of ['message']: a [Buffer] is the bytes of a [BinaryFrame],
    anything else is the text of a [TextFrame]. *)
Definition on_message (t : WebSocketTransport) (now : Z) (data : Frame) (directiveNow : string)
  : WebSocketTransport * list Action :=
  let t1 := with_lastActivity t now in
  match data with
  | BinaryFrame bytes =>
      (with_stats t1 (incr_audioReceived (stats t1)),
       match onAudioData t1 with
       | Some cb => [CallOnAudioData cb bytes]
       | None => []
       end)
  | TextFrame text => handleTextMessage t1 text directiveNow
  end.

(** The handler of ['error']: the promise of [connect], if still pending, is
    rejected with the exception returned. *)
Definition on_error (t : WebSocketTransport) (timer : Timeout) (message : string)
  : WebSocketTransport * list Action * Exception :=
  (with_stats t (incr_errors (stats t)),
   ([ClearTimeout timer]
      ++ call_onError t CONNECTION_FAILED message
      ++ (if negb (connected t) then call_onConnected t false message else []))%list,
   new_StreamIndError CONNECTION_FAILED (Some message)).

(** The handler of ['close']. *)
Definition on_close (t : WebSocketTransport) (code : Z) (reason : string)
    (random : Q) (handle : Timeout) : WebSocketTransport * list Action :=
  let reasonStr := reason in
  let closed :=
    call_onClose t code
      (if String.eqb reasonStr EmptyString then "Abnormal closure" else reasonStr) in
  let (t', handled) := handleDisconnect t random handle in
  (t', (closed ++ handled)%list).

(** The callback of the reconnect timer.  After the guard and the increment
    it calls [connect()]; when the promise of [connect] is rejected at once,
    the [catch] calls [startReconnect] ([random], [handle]).  When the
    promise is left pending and rejected later, [startReconnect] runs then. *)
Definition reconnectAttempt (t : WebSocketTransport) (timer : Timeout)
    (socket : string + WebSocket) (random : Q) (handle : Timeout)
  : WebSocketTransport * list Action :=
  if negb (shouldReconnect t) || connected t then (t, [])
  else
    let t1 := with_reconnectAttempts t (reconnectAttempts t + 1) in
    match connect t1 EmptyString timer socket with
    | (t2, acts, Some _) =>
        let (t3, again) := startReconnect t2 random handle in
        (t3, (acts ++ again)%list)
    | (t2, acts, None) => (t2, acts)
    end.

(** ** The other operations of the registry ([sdk.ts]) *)

Module SDK.

(** [this.lastError = ...] *)
Definition set_lastError (sdk : SDK) (message : string) : SDK :=
  mkSDK (terminals sdk) message
    (globalConnectionCallback sdk) (globalDirectiveCallback sdk)
    (globalErrorCallback sdk) (globalCloseCallback sdk).

Definition set_terminals (sdk : SDK) (entries : list (string * Terminal.t)) : SDK :=
  mkSDK entries (lastError sdk)
    (globalConnectionCallback sdk) (globalDirectiveCallback sdk)
    (globalErrorCallback sdk) (globalCloseCallback sdk).

(** The start of every operation on one terminal, when the id is unknown. *)
Definition not_found (sdk : SDK) (terminalId : string) : SDK :=
  set_lastError sdk ("Terminal " ++ terminalId ++ " not found").

(** The transport of a terminal is an object the map refers to: a method
    that changes it changes what the map holds under the id. *)
Definition store_transport (sdk : SDK) (terminalId : string) (terminal : Terminal.t)
    (transport : WebSocketTransport) : SDK :=
  set_terminals sdk
    (StringMap.set (terminals sdk) terminalId
       (Terminal.make (Terminal.config terminal) transport)).

Definition unregisterTerminal (sdk : SDK) (terminalId : string)
  : SDK * ErrorCode * list Action :=
  match StringMap.get (terminals sdk) terminalId with
  | None => (not_found sdk terminalId, TERMINAL_NOT_FOUND, [])
  | Some terminal =>
      let actions :=
        if isConnected (Terminal.transport terminal)
        then snd (disconnect (Terminal.transport terminal))
        else [] in
      (set_terminals sdk (StringMap.delete (terminals sdk) terminalId), OK, actions)
  end.

Definition getConnectedTerminals (sdk : SDK) : list string :=
  map fst (filter (fun entry => isConnected (Terminal.transport (snd entry))) (terminals sdk)).

(** [return error.code || fallback] in a [catch] of the registry. *)
Definition code_or (error : Exception) (fallback : ErrorCode) : ErrorCode :=
  match exn_code error with
  | Some OK | None => fallback
  | Some code => code
  end.

(** [connect(terminalId, traceId = '')] up to the point where the transport
    waits for the socket: the code returned at once, or [None] while the
    promise of the transport is pending. *)
Definition connect (sdk : SDK) (terminalId : string) (traceId : string) (timer : Timeout)
    (socket : string + WebSocket) : SDK * list Action * option ErrorCode :=
  match StringMap.get (terminals sdk) terminalId with
  | None => (not_found sdk terminalId, [], Some TERMINAL_NOT_FOUND)
  | Some terminal =>
      match connect (Terminal.transport terminal) traceId timer socket with
      | (transport, actions, Some error) =>
          (set_lastError (store_transport sdk terminalId terminal transport)
             (exn_message error),
           actions,
           Some (code_or error CONNECTION_FAILED))
      | (transport, actions, None) =>
          (store_transport sdk terminalId terminal transport, actions, None)
      end
  end.

Definition disconnect (sdk : SDK) (terminalId : string) : SDK * ErrorCode * list Action :=
  match StringMap.get (terminals sdk) terminalId with
  | None => (not_found sdk terminalId, TERMINAL_NOT_FOUND, [])
  | Some terminal =>
      let (transport, actions) := disconnect (Terminal.transport terminal) in
      (store_transport sdk terminalId terminal transport, OK, actions)
  end.

Definition isConnected (sdk : SDK) (terminalId : string) : bool :=
  match StringMap.get (terminals sdk) terminalId with
  | Some terminal => isConnected (Terminal.transport terminal)
  | None => false
  end.

(** What a sending method of the registry makes of the outcome of the
    method of the transport. *)
Definition settle (sdk : SDK) (terminalId : string) (terminal : Terminal.t) (out : Outcome)
  : SDK * ErrorCode * list Event :=
  let sdk' := store_transport sdk terminalId terminal (after out) in
  match settled out with
  | Resolved => (sdk', OK, trace out)
  | Rejected error => (set_lastError sdk' (exn_message error), code_or error SEND_FAILED, trace out)
  end.

Section Sending.
Variable JSON_stringify : Json -> string.
Variable byteLength : string -> Z.

(** [sendSignal(terminalId, signal)]: the registry, the code, what was done
    and the signal object as the call leaves it. *)
Definition sendSignal (sdk : SDK) (terminalId : string) (signal : Signal.t)
    (now : Z) (completion : option string) : SDK * ErrorCode * list Event * Signal.t :=
  match StringMap.get (terminals sdk) terminalId with
  | None => (not_found sdk terminalId, TERMINAL_NOT_FOUND, [], signal)
  | Some terminal =>
      let (out, signal') :=
        sendSignal JSON_stringify byteLength (Terminal.transport terminal) signal now completion in
      (settle sdk terminalId terminal out, signal')
  end.
End Sending.

Definition sendBinaryData (sdk : SDK) (terminalId : string) (data : Buffer) (dataType : string)
    (random : nat -> Q) (now : Z) (completion : option string) : SDK * ErrorCode * list Event :=
  match StringMap.get (terminals sdk) terminalId with
  | None => (not_found sdk terminalId, TERMINAL_NOT_FOUND, [])
  | Some terminal =>
      settle sdk terminalId terminal
        (sendBinaryData (Terminal.transport terminal) data dataType random now completion)
  end.

(** [sendAudioData(terminalId, data, audioFormat = 'opus')] *)
Definition sendAudioData (sdk : SDK) (terminalId : string) (data : Buffer)
    (audioFormat : option string) :=
  sendBinaryData sdk terminalId data (audioFormat ?? "opus").

(** The five methods that set a callback of one terminal; [setCallback] is
    the method of the transport, [fn] the function of the caller. *)
Definition set_callback (setCallback : WebSocketTransport -> Callback -> WebSocketTransport)
    (sdk : SDK) (terminalId : string) (fn : nat) : SDK * ErrorCode :=
  match StringMap.get (terminals sdk) terminalId with
  | None => (not_found sdk terminalId, TERMINAL_NOT_FOUND)
  | Some terminal =>
      (store_transport sdk terminalId terminal
         (setCallback (Terminal.transport terminal) (UserCallback fn)),
       OK)
  end.

Definition setConnectionCallback := set_callback setConnectionCallback.
Definition setDirectiveCallback := set_callback setDirectiveCallback.
Definition setAudioDataCallback := set_callback setAudioDataCallback.
Definition setErrorCallback := set_callback setErrorCallback.
Definition setCloseCallback := set_callback setCloseCallback.

(** [getTerminalStatistics(terminalId)], read at time [now]; [None] is
    [null]. *)
Definition getTerminalStatistics (sdk : SDK) (terminalId : string) (now : Z)
  : option Statistics.t :=
  match StringMap.get (terminals sdk) terminalId with
  | Some terminal => Some (getStatistics (Terminal.transport terminal) now)
  | None => None
  end.

Definition getLastError (sdk : SDK) : string := lastError sdk.

End SDK.

(** ** Payloads ([models.ts]) *)

Module Payload.

(** [data] is the record of the own properties of the object. *)
Record t : Type := make { data : list (string * Json) }.

(** [new Payload()] *)
Definition empty : t := make [].

Definition setString (p : t) (key : string) (value : string) : t :=
  make (set_member (data p) key (JString value)).

Definition getString (p : t) (key : string) (defaultValue : string) : string :=
  match get_member (data p) key with
  | Some (JString value) => value
  | _ => defaultValue
  end.

Definition setNumber (p : t) (key : string) (value : Q) : t :=
  make (set_member (data p) key (JNumber value)).

Section NumberAccessor.
Variable Number_toString : Q -> string.
Variable StringToNumber : string -> option Q.

Definition getNumber (p : t) (key : string) (defaultValue : Q) : Q :=
  match get_member (data p) key with
  | Some (JNumber value) => value
  | value =>
      match js_Number Number_toString StringToNumber value with
      | None => defaultValue
      | Some num => num
      end
  end.
End NumberAccessor.

Definition setBool (p : t) (key : string) (value : bool) : t :=
  make (set_member (data p) key (JBool value)).

Definition getBool (p : t) (key : string) (defaultValue : bool) : bool :=
  match get_member (data p) key with
  | Some (JBool value) => value
  | value =>
      if is_string value "true" then true
      else if is_string value "false" then false
      else defaultValue
  end.

Definition setObject (p : t) (key : string) (value : Json) : t :=
  make (set_member (data p) key value).

(** [this.data[key] ?? defaultValue] *)
Definition getObject (p : t) (key : string) (defaultValue : Json) : Json :=
  match get_member (data p) key with
  | Some JNull | None => defaultValue
  | Some value => value
  end.

Definition clear (p : t) : t := make [].

End Payload.

(** ** What an operation leaves alone *)

(** The two transports differ at most in [lastActivity] and the counters. *)
Definition same_connection (t t' : WebSocketTransport) : Prop :=
  config t' = config t
  /\ ws t' = ws t
  /\ connected t' = connected t
  /\ reconnectAttempts t' = reconnectAttempts t
  /\ shouldReconnect t' = shouldReconnect t
  /\ heartbeatTimer t' = heartbeatTimer t
  /\ reconnectTimer t' = reconnectTimer t
  /\ connectTime t' = connectTime t
  /\ onConnected t' = onConnected t
  /\ onDirective t' = onDirective t
  /\ onAudioData t' = onAudioData t
  /\ onError t' = onError t
  /\ onClose t' = onClose t.

(** No counter of [s'] is below the one of [s]. *)
Definition counters_grow (s s' : Stats) : Prop :=
  signalsSent s <= signalsSent s'
  /\ audioSent s <= audioSent s'
  /\ directivesReceived s <= directivesReceived s'
  /\ audioReceived s <= audioReceived s'
  /\ errors s <= errors s'.

(** The sum of the five counters. *)
Definition counters_total (s : Stats) : Z :=
  signalsSent s + audioSent s + directivesReceived s + audioReceived s + errors s.

(** A transport that was never connected. *)
Definition idle_transport : WebSocketTransport := new_WebSocketTransport sample_config.

(** ** Retrying, and the steps of a transport *)

(** The next reconnect will be scheduled: the caller has not disconnected,
    and the attempts are unlimited or not used up. *)
Definition will_retry (t : WebSocketTransport) : Prop :=
  shouldReconnect t = true
  /\ ((maxReconnectAttempts (config t) <= 0)%Q
      \/ (inject_Z (reconnectAttempts t) < maxReconnectAttempts (config t))%Q).

(** No retry: the caller has disconnected, or the attempts are limited and
    used up. *)
Definition gives_up (t : WebSocketTransport) : Prop :=
  shouldReconnect t = false
  \/ ((0 < maxReconnectAttempts (config t))%Q
      /\ (maxReconnectAttempts (config t) <= inject_Z (reconnectAttempts t))%Q).

(** No action of the list arms the reconnect timer. *)
Definition schedules_nothing (actions : list Action) : Prop :=
  forall handle delay, ~ In (SetTimeout handle ReconnectAttempt delay) actions.

(** One failed reconnect: the reconnect timer fires and [connect] opens the
    socket [sock]; the timeout of [connect] fires; the [catch] of the timer
    callback calls [startReconnect]. *)
Definition failed_round (timer : Timeout) (sock : WebSocket) (random : Q) (handle : Timeout)
    (t : WebSocketTransport) : WebSocketTransport :=
  let t1 := fst (reconnectAttempt t timer (inr sock) random handle) in
  let t2 := fst (fst (on_timeout t1)) in
  fst (startReconnect t2 random handle).

Fixpoint failed_rounds (k : nat) (timer : Timeout) (sock : WebSocket) (random : Q)
    (handle : Timeout) (t : WebSocketTransport) : WebSocketTransport :=
  match k with
  | O => t
  | S k' => failed_rounds k' timer sock random handle (failed_round timer sock random handle t)
  end.

Section Steps.
Variable JSON_stringify : Json -> string.
Variable byteLength : string -> Z.

(** One thing that happens to a transport, whatever the inputs: a method
    called by the owner, a handler run by the socket, a timer that fires, or
    the [catch] that follows a rejected promise. *)
Inductive step : WebSocketTransport -> WebSocketTransport -> Prop :=
| step_connect (t : WebSocketTransport) traceId timer socket :
    step t (fst (fst (connect t traceId timer socket)))
| step_timeout (t : WebSocketTransport) :
    step t (fst (fst (on_timeout t)))
| step_open (t : WebSocketTransport) timer activityNow connectNow handle :
    step t (fst (on_open t timer activityNow connectNow handle))
| step_message (t : WebSocketTransport) now data directiveNow :
    step t (fst (on_message t now data directiveNow))
| step_error (t : WebSocketTransport) timer message :
    step t (fst (fst (on_error t timer message)))
| step_close (t : WebSocketTransport) code reason random handle :
    step t (fst (on_close t code reason random handle))
| step_disconnect (t : WebSocketTransport) :
    step t (fst (disconnect t))
| step_sendSignal (t : WebSocketTransport) signal now completion :
    step t (after (fst (sendSignal JSON_stringify byteLength t signal now completion)))
| step_sendBinaryData (t : WebSocketTransport) data dataType random now completion :
    step t (after (sendBinaryData t data dataType random now completion))
| step_heartbeat (t : WebSocketTransport) now completion handle :
    step t (fst (fst (sendHeartbeat t now completion handle)))
| step_heartbeat_failed (t : WebSocketTransport) random handle :
    step t (fst (handleDisconnect t random handle))
| step_reconnect (t : WebSocketTransport) timer socket random handle :
    step t (fst (reconnectAttempt t timer socket random handle))
| step_reconnect_failed (t : WebSocketTransport) random handle :
    step t (fst (startReconnect t random handle))
| step_setConnectionCallback (t : WebSocketTransport) cb : step t (setConnectionCallback t cb)
| step_setDirectiveCallback (t : WebSocketTransport) cb : step t (setDirectiveCallback t cb)
| step_setAudioDataCallback (t : WebSocketTransport) cb : step t (setAudioDataCallback t cb)
| step_setErrorCallback (t : WebSocketTransport) cb : step t (setErrorCallback t cb)
| step_setCloseCallback (t : WebSocketTransport) cb : step t (setCloseCallback t cb).

(** The states a transport built from [cfg] goes through. *)
Inductive reachable (cfg : Config) : WebSocketTransport -> Prop :=
| reach_new : reachable cfg (new_WebSocketTransport cfg)
| reach_step (t t' : WebSocketTransport) : reachable cfg t -> step t t' -> reachable cfg t'
| reach_reset (t : WebSocketTransport) : reachable cfg t -> reachable cfg (resetStatistics t).

End Steps.

(** What holds of every state a transport goes through. *)
Definition transport_invariant (cfg : Config) (t : WebSocketTransport) : Prop :=
  config t = getConfigWithDefaults cfg
  /\ (connected t = false -> heartbeatTimer t = None)
  /\ 0 <= reconnectAttempts t
  /\ 0 <= signalsSent (stats t)
  /\ 0 <= audioSent (stats t)
  /\ 0 <= directivesReceived (stats t)
  /\ 0 <= audioReceived (stats t)
  /\ 0 <= errors (stats t).

(** A transport whose configuration allows three reconnect attempts. *)
Definition limited_transport : WebSocketTransport :=
  new_WebSocketTransport
    (mkConfig "device-001" "sensor" "wss://platform.example/signals" "tenant" "product" "key"
       None None None None (Some 3%Q) None None None None).

(** What one step may do to the bookkeeping of a transport: the
    configuration is kept, no counter goes down, the counters together grow
    by at most one, the reconnect count stays non-negative, and a heartbeat
    timer is held only while connected. *)
Definition bounded_effect (t t' : WebSocketTransport) : Prop :=
  config t' = config t
  /\ counters_grow (stats t) (stats t')
  /\ counters_total (stats t') <= counters_total (stats t) + 1
  /\ (0 <= reconnectAttempts t -> 0 <= reconnectAttempts t')
  /\ ((connected t = false -> heartbeatTimer t = None) ->
      connected t' = false -> heartbeatTimer t' = None).

Section Runs.
Variable JSON_stringify : Json -> string.
Variable byteLength : string -> Z.

(** [run n t t']: [n] steps lead from [t] to [t'], with no call of
    [resetStatistics] in between. *)
Inductive run : nat -> WebSocketTransport -> WebSocketTransport -> Prop :=
| run_nil (t : WebSocketTransport) : run 0 t t
| run_step (n : nat) (t t' t'' : WebSocketTransport) :
    run n t t' -> step JSON_stringify byteLength t' t'' -> run (S n) t t''.

End Runs.

(** A transport that connected, received a directive and a binary frame, lost
    the connection and failed one reconnect attempt. *)
Definition worn_transport : WebSocketTransport :=
  let t1 := fst (fst (connect idle_transport "trace-1" 4%nat (inr 5%nat))) in
  let t2 := fst (on_open t1 4%nat 7000 7000 6%nat) in
  let t3 := fst (on_message t2 7100 (TextFrame motor_move_text) "2026-01-01T00:00:00.000Z") in
  let t4 := fst (on_message t3 7200 (BinaryFrame [1; 2; 3]) "2026-01-01T00:00:00.000Z") in
  let t5 := fst (on_close t4 1006 EmptyString (1 # 2) 7%nat) in
  fst (reconnectAttempt t5 8%nat (inl "connect ECONNREFUSED") (1 # 2) 9%nat).

(** What an operation on the terminal [terminalId] keeps: the ids, every
    other terminal, and the configuration the terminal was registered
    with. *)
Definition keeps_the_registry (sdk : SDK) (terminalId : string) (sdk' : SDK) : Prop :=
  getAllTerminals sdk' = getAllTerminals sdk
  /\ option_map Terminal.config (StringMap.get (terminals sdk') terminalId)
     = option_map Terminal.config (StringMap.get (terminals sdk) terminalId)
  /\ (forall other : string,
        other <> terminalId ->
        StringMap.get (terminals sdk') other = StringMap.get (terminals sdk) other).

(** The names every object has a property under without having one of its
    own: the properties of [Object.prototype].  For another name an object
    read at the name gives its own property or [undefined]. *)
Definition inherited_names : list string :=
  ["constructor"; "__proto__"; "hasOwnProperty"; "isPrototypeOf"; "propertyIsEnumerable";
   "toLocaleString"; "toString"; "valueOf"; "__defineGetter__"; "__defineSetter__";
   "__lookupGetter__"; "__lookupSetter__"].

Definition is_inherited_name (key : string) : bool :=
  existsb (String.eqb key) inherited_names.

(** The directive of the example with its parameters written as a JSON
    text inside a string. *)
Definition encoded_parameters_text : string :=
  json_text "{'id':'d1','name':'motor.move','parameters':'{\'speed\':\'42\',\'enabled\':\'true\'}'}".


(** * Properties *)

(** ** Bytes *)

Lemma toUint8_is_byte (v : Z) : is_byte (toUint8 v).
Proof.
  unfold is_byte, toUint8.
  change 255 with (Z.ones 8).
  rewrite Z.land_ones by lia.
  apply Z.mod_pos_bound; lia.
Qed.

Lemma toUint8_of_byte (b : Z) : is_byte b -> toUint8 b = b.
Proof.
  unfold is_byte, toUint8; intros Hb.
  change 255 with (Z.ones 8).
  rewrite Z.land_ones by lia.
  apply Z.mod_small; lia.
Qed.

Lemma toUint8_lxor (a b : Z) : toUint8 (Z.lxor a b) = Z.lxor (toUint8 a) (toUint8 b).
Proof.
  unfold toUint8.
  apply Z.bits_inj'; intros n Hn.
  rewrite Z.land_spec, !Z.lxor_spec, !Z.land_spec.
  destruct (Z.testbit 255 n), (Z.testbit a n), (Z.testbit b n); reflexivity.
Qed.

Lemma lxor_is_byte (a b : Z) : is_byte a -> is_byte b -> is_byte (Z.lxor a b).
Proof.
  intros Ha Hb.
  rewrite <- (toUint8_of_byte a Ha), <- (toUint8_of_byte b Hb), <- toUint8_lxor.
  apply toUint8_is_byte.
Qed.

Lemma lxor_twice (b k : Z) : Z.lxor (Z.lxor b k) k = b.
Proof. now rewrite Z.lxor_assoc, Z.lxor_nilpotent, Z.lxor_0_r. Qed.

Lemma Buffer_from_of_buffer (data : Buffer) : is_buffer data -> Buffer_from data = data.
Proof.
  unfold is_buffer, Buffer_from.
  induction 1 as [|b rest Hb _ IH]; simpl; [reflexivity|].
  now rewrite IH, toUint8_of_byte.
Qed.

Lemma charCode_is_byte (c : ascii) : is_byte (charCode c).
Proof.
  unfold is_byte, charCode.
  pose proof (N_ascii_bounded c) as Hc.
  lia.
Qed.

Lemma nth_is_byte (key : Buffer) (i : nat) : is_buffer key -> is_byte (nth i key 0).
Proof.
  intros Hkey; revert i.
  induction Hkey as [|b rest Hb _ IH]; intros [|i]; simpl; auto; unfold is_byte; lia.
Qed.

Lemma new_maskKey_is_buffer (random : nat -> Q) : is_buffer (new_maskKey random).
Proof. unfold new_maskKey; simpl; repeat constructor; apply toUint8_is_byte. Qed.

(** ** The masking loop *)

Lemma Buffer_get_mod4 (key : Buffer) (k : nat) :
  Buffer_get key (Z.of_nat k mod 4) = nth (k mod 4) key 0.
Proof.
  unfold Buffer_get.
  change 4 with (Z.of_nat 4).
  now rewrite <- Nat2Z.inj_mod, Nat2Z.id.
Qed.

Lemma push_masked_xor_from (key data : Buffer) (k : nat) :
  push_masked key (Z.of_nat k) data = xor_from key k data.
Proof.
  revert k; induction data as [|b rest IH]; intros k; [reflexivity|].
  unfold xor_from; simpl.
  rewrite Buffer_get_mod4; f_equal.
  replace (Z.of_nat k + 1) with (Z.of_nat (S k)) by lia.
  apply IH.
Qed.

Lemma xor_from_is_buffer (key data : Buffer) (k : nat) :
  is_buffer key -> is_buffer data -> is_buffer (xor_from key k data).
Proof.
  intros Hkey Hdata; revert k.
  induction Hdata as [|b rest Hb _ IH]; intros k; unfold xor_from; simpl; constructor.
  - apply lxor_is_byte; [assumption | now apply nth_is_byte].
  - apply IH.
Qed.

Lemma xor_from_involutive (key data : Buffer) (k : nat) :
  xor_from key k (xor_from key k data) = data.
Proof.
  revert k; induction data as [|b rest IH]; intros k; [reflexivity|].
  unfold xor_from in *; simpl.
  now rewrite lxor_twice, IH.
Qed.

(** ** [sendBinaryData] *)

Lemma writes_app (tr1 tr2 : list Event) : writes (tr1 ++ tr2) = (writes tr1 ++ writes tr2)%list.
Proof.
  induction tr1 as [|[f|cb c m] tr1 IH]; simpl; [reflexivity| |assumption].
  now rewrite IH.
Qed.

Lemma writes_fire_onError (t : WebSocketTransport) (code : ErrorCode) (message : string) :
  writes (fire_onError t code message) = [].
Proof. unfold fire_onError; now destruct (onError t). Qed.

(** Within the limit the encoder throws nothing, and [protocolData] is the
    three fixed bytes, the seven bytes of the data type, the mask key and
    the masked payload. *)
Lemma protocolData_within_limit (data : Buffer) (dataType : string) (random : nat -> Q) :
  Buffer_length data <= 65535 ->
  protocolData data dataType random =
  inr ([0x82; Z.land (Z.shiftr (Buffer_length data) 8) 0xFF; Z.land (Buffer_length data) 0xFF]
         ++ map (Buffer_get (Buffer_write (Buffer_alloc 7) (js_substring (toUpperCase dataType) 0 7) 0))
              [0; 1; 2; 3; 4; 5; 6]
         ++ new_maskKey random
         ++ xor_from (new_maskKey random) 0 data)%list.
Proof.
  intros Hlen; unfold protocolData.
  destruct (Z.gtb_spec (Buffer_length data) 65535) as [Hgt|_]; [lia|].
  now rewrite (push_masked_xor_from _ data 0).
Qed.

Lemma protocolData_beyond_limit (data : Buffer) (dataType : string) (random : nat -> Q) :
  Buffer_length data > 65535 ->
  protocolData data dataType random =
  inl (new_StreamIndError SIGNAL_TOO_LARGE (Some "Binary data exceeds 65535 bytes")).
Proof.
  intros Hlen; unfold protocolData.
  destruct (Z.gtb_spec (Buffer_length data) 65535) as [_|Hle]; [reflexivity|lia].
Qed.

(** On a connected transport that holds a socket, what the encoder built is
    handed to the socket, once, whatever the socket answers. *)
Lemma sendBinaryData_writes (t : WebSocketTransport) (sock : WebSocket) (data : Buffer)
    (dataType : string) (random : nat -> Q) (now : Z) (completion : option string)
    (bytes : list Z) :
  connected t = true ->
  ws t = Some sock ->
  protocolData data dataType random = inr bytes ->
  writes (trace (sendBinaryData t data dataType random now completion))
  = [BinaryFrame (Buffer_from bytes)].
Proof.
  intros Hconn Hws Hbytes.
  unfold sendBinaryData, sendBinary, ws_send.
  rewrite Hconn, Hbytes, Hws; simpl.
  destruct completion as [message|]; simpl; [|reflexivity].
  now rewrite writes_fire_onError.
Qed.

(** An exception thrown by the encoder reaches the [catch] of the method. *)
Lemma sendBinaryData_encoder_throws (t : WebSocketTransport) (data : Buffer)
    (dataType : string) (random : nat -> Q) (now : Z) (completion : option string)
    (thrown : Exception) :
  connected t = true ->
  protocolData data dataType random = inl thrown ->
  sendBinaryData t data dataType random now completion
  = mkOutcome (with_stats t (incr_errors (stats t)))
      (fire_onError t SEND_FAILED (exn_message thrown))
      (Rejected (new_StreamIndError SEND_FAILED (Some (exn_message thrown)))).
Proof.
  intros Hconn Hthrown.
  unfold sendBinaryData.
  now rewrite Hconn, Hthrown.
Qed.






(** C1.  Binary-frame round trip.  For every payload of at most 65535 bytes,
    every data-type tag and every mask key drawn while encoding, the frame
    that [sendBinaryData] hands to the socket of a connected transport
    carries the drawn key at offsets 10 to 13, and XOR-ing byte [i] of its
    payload section (offset 14 onward) with byte [i mod 4] of that embedded
    key gives back the payload. *)
Theorem binary_frame_round_trip
    (t : WebSocketTransport) (sock : WebSocket) (data : Buffer) (dataType : string)
    (random : nat -> Q) (now : Z) (completion : option string) :
  connected t = true ->
  ws t = Some sock ->
  is_buffer data ->
  Buffer_length data <= 65535 ->
  exists frame : Buffer,
    writes (trace (sendBinaryData t data dataType random now completion)) = [BinaryFrame frame]
    /\ frame_maskKey frame = new_maskKey random
    /\ xor_decode frame = data.
Proof.
  intros Hconn Hws Hdata Hlen.
  pose proof (protocolData_within_limit data dataType random Hlen) as Hbytes.
  eexists; split; [exact (sendBinaryData_writes t sock _ _ _ now completion _ Hconn Hws Hbytes)|].
  set (dataTypeBytes := Buffer_write _ _ _).
  pose proof (new_maskKey_is_buffer random) as Hkey.
  assert (Hframe_key :
    frame_maskKey
      (Buffer_from
         ([0x82; Z.land (Z.shiftr (Buffer_length data) 8) 0xFF; Z.land (Buffer_length data) 0xFF]
            ++ map (Buffer_get dataTypeBytes) [0; 1; 2; 3; 4; 5; 6]
            ++ new_maskKey random ++ xor_from (new_maskKey random) 0 data))
    = new_maskKey random).
  { unfold frame_maskKey, Buffer_from.
    cbn [app map skipn].
    rewrite map_app, firstn_app.
    change (map toUint8 (new_maskKey random)) with (Buffer_from (new_maskKey random)).
    rewrite (Buffer_from_of_buffer _ Hkey).
    unfold new_maskKey; cbn [map List.length firstn Nat.sub app].
    reflexivity. }
  split; [exact Hframe_key|].
  unfold xor_decode; rewrite Hframe_key.
  unfold frame_payload, Buffer_from.
  cbn [app map skipn].
  rewrite map_app.
  replace (skipn 4 (map toUint8 (new_maskKey random) ++ map toUint8 (xor_from (new_maskKey random) 0 data)))
    with (map toUint8 (xor_from (new_maskKey random) 0 data))
    by (unfold new_maskKey; reflexivity).
  change (map toUint8 (xor_from (new_maskKey random) 0 data))
    with (Buffer_from (xor_from (new_maskKey random) 0 data)).
  rewrite (Buffer_from_of_buffer (xor_from (new_maskKey random) 0 data))
    by (now apply xor_from_is_buffer).
  apply (xor_from_involutive (new_maskKey random) data 0).
Qed.

Lemma binary_frame_round_trip_witness :
  exists frame : Buffer,
    writes (trace (sendBinaryData sample_transport [1; 2; 3; 255; 0] "opus" sample_random 2000 None))
    = [BinaryFrame frame]
    /\ frame_maskKey frame = new_maskKey sample_random
    /\ xor_decode frame = [1; 2; 3; 255; 0].
Proof.
  apply (binary_frame_round_trip sample_transport 1%nat [1; 2; 3; 255; 0] "opus"
           sample_random 2000 None).
  - reflexivity.
  - reflexivity.
  - repeat constructor; unfold is_byte; lia.
  - vm_compute; discriminate.
Defined.

(** C2, what the code does.  On a connected transport, a payload of more
    than 65535 bytes makes [sendBinaryData] fail before anything is handed
    to the socket, but the exception that leaves the method carries
    [SEND_FAILED]: the [SIGNAL_TOO_LARGE] error is thrown inside the [try]
    block, whose [catch] counts an error, reports [SEND_FAILED] to the
    error callback and throws a new [SEND_FAILED] error with the message of
    the first. *)
Theorem sendBinaryData_oversized_is_SEND_FAILED
    (t : WebSocketTransport) (data : Buffer) (dataType : string)
    (random : nat -> Q) (now : Z) (completion : option string) :
  connected t = true ->
  Buffer_length data > 65535 ->
  let out := sendBinaryData t data dataType random now completion in
  settled out = Rejected (mkException (Some SEND_FAILED) "Binary data exceeds 65535 bytes")
  /\ writes (trace out) = []
  /\ trace out = fire_onError t SEND_FAILED "Binary data exceeds 65535 bytes"
  /\ errors (stats (after out)) = errors (stats t) + 1.
Proof.
  intros Hconn Hlen out; subst out.
  rewrite (sendBinaryData_encoder_throws t data dataType random now completion _ Hconn
             (protocolData_beyond_limit data dataType random Hlen)).
  cbn [settled trace after exn_message new_StreamIndError].
  rewrite writes_fire_onError.
  repeat split; reflexivity.
Qed.

Lemma sendBinaryData_oversized_is_SEND_FAILED_witness :
  let out := sendBinaryData sample_transport (repeat 0 (Z.to_nat 65536)) "opus"
               sample_random 2000 None in
  settled out = Rejected (mkException (Some SEND_FAILED) "Binary data exceeds 65535 bytes")
  /\ writes (trace out) = []
  /\ trace out = [CallOnError (UserCallback 0) SEND_FAILED "Binary data exceeds 65535 bytes"]
  /\ errors (stats (after out)) = 1.
Proof.
  apply (sendBinaryData_oversized_is_SEND_FAILED sample_transport (repeat 0 (Z.to_nat 65536))
           "opus" sample_random 2000 None).
  - reflexivity.
  - unfold Buffer_length; rewrite repeat_length; vm_compute; reflexivity.
Defined.





(** ** Backoff *)

Local Ltac Qdecide := vm_compute; first [discriminate | reflexivity].

(** *** Rounding to the nearest double *)

Section DoubleArithmetic.

Import Double.

Lemma round_half_even_bounds (x : Q) :
  Qfloor x <= round_half_even x <= Qfloor x + 1.
Proof.
  unfold round_half_even; cbv zeta.
  destruct (_ ?= _)%Q; [destruct (Z.even _)| |]; lia.
Qed.

Lemma round_half_even_comp (x y : Q) : (x == y)%Q -> round_half_even x = round_half_even y.
Proof.
  intros Heq; unfold round_half_even; cbv zeta.
  rewrite (Qfloor_comp _ _ Heq).
  now rewrite Heq.
Qed.

Lemma round_half_even_Z (z : Z) : round_half_even (inject_Z z) = z.
Proof.
  unfold round_half_even; cbv zeta.
  rewrite Qfloor_Z.
  destruct (Qcompare_spec (inject_Z z - inject_Z z) (1 # 2)) as [H|H|H];
    [exfalso; lra | reflexivity | exfalso; lra].
Qed.

Lemma round_half_even_mono (x y : Q) :
  (x <= y)%Q -> round_half_even x <= round_half_even y.
Proof.
  intros Hle.
  pose proof (Qfloor_resp_le _ _ Hle) as Hfloor.
  destruct (Z.eq_dec (Qfloor x) (Qfloor y)) as [Heq|Hne].
  - unfold round_half_even; cbv zeta.
    rewrite <- Heq.
    destruct (Qcompare_spec (x - inject_Z (Qfloor x)) (1 # 2)) as [Hx|Hx|Hx],
             (Qcompare_spec (y - inject_Z (Qfloor x)) (1 # 2)) as [Hy|Hy|Hy];
      try (destruct (Z.even (Qfloor x))); try lia; exfalso; lra.
  - pose proof (round_half_even_bounds x); pose proof (round_half_even_bounds y); lia.
Qed.

Lemma round_half_even_le (x : Q) (z : Z) : (x <= inject_Z z)%Q -> round_half_even x <= z.
Proof.
  intros Hle; rewrite <- (round_half_even_Z z); now apply round_half_even_mono.
Qed.

Lemma round_half_even_ge (x : Q) (z : Z) : (inject_Z z <= x)%Q -> z <= round_half_even x.
Proof.
  intros Hle; rewrite <- (round_half_even_Z z) at 1; now apply round_half_even_mono.
Qed.

Lemma pow2_pos (e : Z) : (0 < pow2 e)%Q.
Proof. apply Qpower_0_lt; reflexivity. Qed.

Lemma pow2_plus (a b : Z) : (pow2 (a + b) == pow2 a * pow2 b)%Q.
Proof. apply Qpower_plus; discriminate. Qed.

Lemma pow2_le (a b : Z) : a <= b -> (pow2 a <= pow2 b)%Q.
Proof. intros H; apply Qpower_le_compat_l; [exact H | discriminate]. Qed.

Lemma pow2_lt (a b : Z) : a < b -> (pow2 a < pow2 b)%Q.
Proof. intros H; apply Qpower_lt_compat_l; [exact H | reflexivity]. Qed.

Lemma pow2_lt_inv (a b : Z) : (pow2 a < pow2 b)%Q -> a < b.
Proof. intros H; apply (Qpower_lt_compat_l_inv 2); [exact H | reflexivity]. Qed.

Lemma pow2_Z (e : Z) : 0 <= e -> (pow2 e == inject_Z (2 ^ e))%Q.
Proof. intros He; unfold pow2; now rewrite Zpower_Qpower. Qed.

Lemma log2_bounds (n : Z) :
  0 < n -> (pow2 (Z.log2 n) <= inject_Z n)%Q /\ (inject_Z n < pow2 (Z.log2 n + 1))%Q.
Proof.
  intros Hn.
  destruct (Z.log2_spec n Hn) as [Hlow Hhigh].
  pose proof (Z.log2_nonneg n) as Hlog.
  rewrite !pow2_Z by lia.
  split; [rewrite <- Zle_Qle | rewrite <- Zlt_Qlt]; [exact Hlow|].
  now rewrite <- Z.add_1_r in Hhigh.
Qed.

(** [floor_log2 a] is the binary exponent of [a]. *)
Lemma floor_log2_spec (a : Q) :
  (0 < a)%Q -> (pow2 (floor_log2 a) <= a)%Q /\ (a < pow2 (floor_log2 a + 1))%Q.
Proof.
  intros Ha.
  destruct a as [n d].
  assert (Hn : 0 < n) by (unfold Qlt in Ha; cbn in Ha; lia).
  destruct (log2_bounds n Hn) as [Hn_low Hn_high].
  destruct (log2_bounds (Z.pos d) eq_refl) as [Hd_low Hd_high].
  unfold floor_log2; cbn [Qnum Qden].
  set (ln := Z.log2 n) in *; set (ld := Z.log2 (Z.pos d)) in *.
  assert (Hvalue : (n # d == inject_Z n / inject_Z (Z.pos d))%Q) by apply Qmake_Qdiv.
  assert (Hd : (0 < inject_Z (Z.pos d))%Q) by reflexivity.
  assert (Hupper : (n # d < pow2 (ln - ld + 1))%Q).
  { rewrite Hvalue.
    apply Qlt_shift_div_r; [exact Hd|].
    apply Qlt_le_trans with (pow2 (ln + 1)); [exact Hn_high|].
    replace (ln + 1) with ((ln - ld + 1) + ld) by ring.
    rewrite pow2_plus.
    apply Qmult_le_l; [apply pow2_pos | exact Hd_low]. }
  assert (Hlower : (pow2 (ln - ld - 1) <= n # d)%Q).
  { rewrite Hvalue.
    apply Qle_shift_div_l; [exact Hd|].
    apply Qle_trans with (pow2 ln); [|exact Hn_low].
    replace ln with ((ln - ld - 1) + (ld + 1)) at 2 by ring.
    rewrite pow2_plus.
    apply Qmult_le_l; [apply pow2_pos | apply Qlt_le_weak, Hd_high]. }
  destruct (Qle_bool (pow2 (ln - ld)) (n # d)) eqn:Hcase.
  - apply Qle_bool_iff in Hcase; split; assumption.
  - split; [exact Hlower|].
    replace (ln - ld - 1 + 1) with (ln - ld) by ring.
    apply Qnot_le_lt; intros Hle.
    apply Qle_bool_iff in Hle; congruence.
Qed.

Lemma floor_log2_unique (a : Q) (e : Z) :
  (pow2 e <= a)%Q -> (a < pow2 (e + 1))%Q -> floor_log2 a = e.
Proof.
  intros Hlow Hhigh.
  assert (Ha : (0 < a)%Q) by (apply Qlt_le_trans with (pow2 e); [apply pow2_pos | exact Hlow]).
  destruct (floor_log2_spec a Ha) as [Hlow' Hhigh'].
  assert (H1 : floor_log2 a < e + 1)
    by (apply pow2_lt_inv; apply Qle_lt_trans with a; assumption).
  assert (H2 : e < floor_log2 a + 1)
    by (apply pow2_lt_inv; apply Qle_lt_trans with a; assumption).
  lia.
Qed.

Lemma floor_log2_mono (a b : Q) : (0 < a)%Q -> (a <= b)%Q -> floor_log2 a <= floor_log2 b.
Proof.
  intros Ha Hle.
  assert (Hb : (0 < b)%Q) by (apply Qlt_le_trans with a; assumption).
  destruct (floor_log2_spec a Ha) as [Hlow _].
  destruct (floor_log2_spec b Hb) as [_ Hhigh].
  assert (H : floor_log2 a < floor_log2 b + 1).
  { apply pow2_lt_inv.
    apply Qle_lt_trans with a; [exact Hlow|].
    apply Qle_lt_trans with b; assumption. }
  lia.
Qed.

Lemma floor_log2_comp (a b : Q) : (0 < a)%Q -> (a == b)%Q -> floor_log2 a = floor_log2 b.
Proof.
  intros Ha Heq.
  destruct (floor_log2_spec a Ha) as [Hlow Hhigh].
  symmetry; apply floor_log2_unique; now rewrite <- Heq.
Qed.

Lemma number_le_trans (x y z : Number) : le x y -> le y z -> le x z.
Proof.
  destruct x as [|[]|a], y as [|[]|b], z as [|[]|c]; cbn; try tauto.
  apply Qle_trans.
Qed.

Lemma number_le_neg (x y : Number) : le x y -> le (neg y) (neg x).
Proof.
  destruct x as [|[]|a], y as [|[]|b]; cbn; try tauto.
  apply Qopp_le_compat.
Qed.

Lemma quantum_mono (a b : Q) : (0 < a)%Q -> (a <= b)%Q -> quantum a <= quantum b.
Proof.
  intros Ha Hle; unfold quantum.
  pose proof (floor_log2_mono a b Ha Hle); lia.
Qed.

Lemma quantum_comp (a b : Q) : (0 < a)%Q -> (a == b)%Q -> quantum a = quantum b.
Proof. intros Ha Heq; unfold quantum; now rewrite (floor_log2_comp a b Ha Heq). Qed.

Lemma Qdiv_pow2_le (a b : Q) (e : Z) : (a <= b)%Q -> (a / pow2 e <= b / pow2 e)%Q.
Proof.
  intros Hle; unfold Qdiv.
  apply Qmult_le_compat_r; [exact Hle|].
  apply Qlt_le_weak, Qinv_lt_0_compat, pow2_pos.
Qed.

(** The scaled value is below [2^53], and from [2^52] on for a normal
    number. *)
Lemma scaled_below (a : Q) : (0 < a)%Q -> (a / pow2 (quantum a) <= inject_Z (2 ^ 53))%Q.
Proof.
  intros Ha.
  destruct (floor_log2_spec a Ha) as [_ Hhigh].
  apply Qle_shift_div_r; [apply pow2_pos|].
  rewrite <- (pow2_Z 53) by lia.
  rewrite <- pow2_plus.
  apply Qlt_le_weak, Qlt_le_trans with (pow2 (floor_log2 a + 1)); [exact Hhigh|].
  apply pow2_le; unfold quantum; lia.
Qed.

Lemma scaled_above (a : Q) :
  (0 < a)%Q -> -1022 <= floor_log2 a -> (inject_Z (2 ^ 52) <= a / pow2 (quantum a))%Q.
Proof.
  intros Ha Hnormal.
  destruct (floor_log2_spec a Ha) as [Hlow _].
  apply Qle_shift_div_l; [apply pow2_pos|].
  rewrite <- (pow2_Z 52) by lia.
  rewrite <- pow2_plus.
  apply Qle_trans with (pow2 (floor_log2 a)); [|exact Hlow].
  apply pow2_le; unfold quantum; lia.
Qed.

Lemma nearest_nonneg (a : Q) : (0 < a)%Q -> (0 <= nearest a)%Q.
Proof.
  intros Ha; unfold nearest.
  apply Qmult_le_0_compat; [|apply Qlt_le_weak, pow2_pos].
  change 0%Q with (inject_Z 0); rewrite <- Zle_Qle.
  apply round_half_even_ge.
  apply Qle_shift_div_l; [apply pow2_pos|].
  change (inject_Z 0) with 0%Q; rewrite Qmult_0_l; now apply Qlt_le_weak.
Qed.

Lemma nearest_below (a : Q) : (0 < a)%Q -> (nearest a <= pow2 (quantum a + 53))%Q.
Proof.
  intros Ha; unfold nearest.
  rewrite Z.add_comm, pow2_plus, (pow2_Z 53) by lia.
  apply Qmult_le_compat_r; [|apply Qlt_le_weak, pow2_pos].
  rewrite <- Zle_Qle.
  apply round_half_even_le, scaled_below, Ha.
Qed.

Lemma nearest_above (a : Q) :
  (0 < a)%Q -> -1022 <= floor_log2 a -> (pow2 (quantum a + 52) <= nearest a)%Q.
Proof.
  intros Ha Hnormal; unfold nearest.
  rewrite Z.add_comm, pow2_plus, (pow2_Z 52) by lia.
  apply Qmult_le_compat_r; [|apply Qlt_le_weak, pow2_pos].
  rewrite <- Zle_Qle.
  apply round_half_even_ge, scaled_above; assumption.
Qed.

Lemma nearest_mono (a b : Q) : (0 < a)%Q -> (a <= b)%Q -> (nearest a <= nearest b)%Q.
Proof.
  intros Ha Hle.
  assert (Hb : (0 < b)%Q) by (apply Qlt_le_trans with a; assumption).
  pose proof (quantum_mono a b Ha Hle) as Hq.
  destruct (Z.eq_dec (quantum a) (quantum b)) as [Heq|Hne].
  - unfold nearest; rewrite <- Heq.
    apply Qmult_le_compat_r; [|apply Qlt_le_weak, pow2_pos].
    rewrite <- Zle_Qle.
    apply round_half_even_mono, Qdiv_pow2_le, Hle.
  - apply Qle_trans with (pow2 (quantum a + 53)); [apply nearest_below, Ha|].
    apply Qle_trans with (pow2 (quantum b + 52)); [apply pow2_le; lia|].
    apply nearest_above; [exact Hb|].
    unfold quantum in *; lia.
Qed.

Lemma nearest_comp (a b : Q) : (0 < a)%Q -> (a == b)%Q -> (nearest a == nearest b)%Q.
Proof.
  intros Ha Heq; unfold nearest.
  rewrite (quantum_comp a b Ha Heq).
  assert (Hscaled : (a / pow2 (quantum b) == b / pow2 (quantum b))%Q) by now rewrite Heq.
  now rewrite (round_half_even_comp _ _ Hscaled).
Qed.

Lemma round_positive_mono (a b : Q) :
  (0 < a)%Q -> (a <= b)%Q -> le (round_positive a) (round_positive b).
Proof.
  intros Ha Hle.
  pose proof (nearest_mono a b Ha Hle) as Hnear.
  unfold round_positive; cbv zeta.
  destruct (Qle_bool (pow2 1024) (nearest a)) eqn:Hover_a,
           (Qle_bool (pow2 1024) (nearest b)) eqn:Hover_b; cbn; try exact I; try exact Hnear.
  apply Qle_bool_iff in Hover_a.
  assert (Hover : Qle_bool (pow2 1024) (nearest b) = true)
    by (apply Qle_bool_iff; apply Qle_trans with (nearest a); assumption).
  congruence.
Qed.

Lemma round_positive_nonneg (a : Q) : (0 < a)%Q -> le (Finite 0) (round_positive a).
Proof.
  intros Ha; unfold round_positive; cbv zeta.
  destruct (Qle_bool _ _); cbn; [exact I | apply nearest_nonneg, Ha].
Qed.

Lemma round64_nonneg (q : Q) : (0 <= q)%Q -> le (Finite 0) (round64 q).
Proof.
  intros Hq; unfold round64.
  destruct (Qcompare_spec q 0) as [H|H|H].
  - cbn; lra.
  - exfalso; lra.
  - now apply round_positive_nonneg.
Qed.

Lemma round64_nonpos (q : Q) : (q <= 0)%Q -> le (round64 q) (Finite 0).
Proof.
  intros Hq; unfold round64.
  destruct (Qcompare_spec q 0) as [H|H|H].
  - cbn; lra.
  - assert (Hpos : (0 < - q)%Q) by lra.
    apply (number_le_neg _ _ (round_positive_nonneg (- q) Hpos)).
  - exfalso; lra.
Qed.

(** Rounding keeps the order. *)
Lemma round64_mono (x y : Q) : (x <= y)%Q -> le (round64 x) (round64 y).
Proof.
  intros Hle.
  destruct (Qlt_le_dec 0 x) as [Hx|Hx].
  - unfold round64.
    destruct (Qcompare_spec x 0) as [H|H|H]; try (exfalso; lra).
    destruct (Qcompare_spec y 0) as [H'|H'|H']; try (exfalso; lra).
    now apply round_positive_mono.
  - destruct (Qlt_le_dec y 0) as [Hy|Hy].
    + unfold round64.
      destruct (Qcompare_spec x 0) as [H|H|H]; try (exfalso; lra).
      destruct (Qcompare_spec y 0) as [H'|H'|H']; try (exfalso; lra).
      apply number_le_neg, round_positive_mono; lra.
    + apply number_le_trans with (Finite 0); [now apply round64_nonpos | now apply round64_nonneg].
Qed.

Lemma round64_is_a_number (q : Q) : round64 q <> NaN.
Proof.
  pose proof (round64_mono q q (Qle_refl q)) as H.
  intros Hnan; rewrite Hnan in H; exact H.
Qed.

Lemma round64_comp (x y : Q) : (x == y)%Q -> eqv (round64 x) (round64 y).
Proof. intros Heq; split; apply round64_mono; rewrite Heq; apply Qle_refl. Qed.

Lemma Qmult_pow2_div (m : Q) (e : Z) : (m * pow2 e / pow2 e == m)%Q.
Proof.
  unfold Qdiv; rewrite <- Qmult_assoc, Qmult_inv_r, Qmult_1_r; [reflexivity|].
  intros H; pose proof (pow2_pos e) as Hpos; rewrite H in Hpos; discriminate.
Qed.

Lemma nearest_on_grid (m e : Z) :
  quantum (inject_Z m * pow2 e) = e ->
  (nearest (inject_Z m * pow2 e) == inject_Z m * pow2 e)%Q.
Proof.
  intros Hq; unfold nearest; rewrite Hq.
  now rewrite (round_half_even_comp _ _ (Qmult_pow2_div (inject_Z m) e)), round_half_even_Z.
Qed.

(** A multiple [m * 2^e] of the quantum of its own binade, with at most 53
    bits, rounds to itself. *)
Lemma nearest_fixed (m e : Z) :
  0 < m <= 2 ^ 53 -> -1074 <= e -> (2 ^ 52 <= m \/ e = -1074) ->
  (nearest (inject_Z m * pow2 e) == inject_Z m * pow2 e)%Q.
Proof.
  intros [Hpos Hmax] He Hnormal.
  assert (Hscale' : forall e' k, 0 <= k -> (inject_Z (2 ^ k) * pow2 e' == pow2 (e' + k))%Q).
  { intros e' k Hk; rewrite Z.add_comm, pow2_plus, (pow2_Z k) by exact Hk; reflexivity. }
  pose proof (Hscale' e) as Hscale.
  assert (Hlt : forall k, 0 <= k -> m < 2 ^ k -> (inject_Z m * pow2 e < pow2 (e + k))%Q).
  { intros k Hk Hm; rewrite <- (Hscale k Hk).
    apply Qmult_lt_r; [apply pow2_pos | now rewrite <- Zlt_Qlt]. }
  assert (Hge : forall k, 0 <= k -> 2 ^ k <= m -> (pow2 (e + k) <= inject_Z m * pow2 e)%Q).
  { intros k Hk Hm; rewrite <- (Hscale k Hk).
    apply Qmult_le_compat_r; [now rewrite <- Zle_Qle | apply Qlt_le_weak, pow2_pos]. }
  destruct (Z.eq_dec m (2 ^ 53)) as [Htop|Hbelow].
  - assert (Hvalue : (inject_Z m * pow2 e == inject_Z (2 ^ 52) * pow2 (e + 1))%Q).
    { rewrite Htop, (Hscale 53), (Hscale' (e + 1) 52) by lia.
      replace (e + 1 + 52) with (e + 53) by ring; reflexivity. }
    assert (Hposv : (0 < inject_Z m * pow2 e)%Q)
      by (apply Qmult_lt_0_compat; [now rewrite <- (Zlt_Qlt 0) | apply pow2_pos]).
    rewrite (nearest_comp _ _ Hposv Hvalue), Hvalue.
    apply nearest_on_grid.
    unfold quantum.
    rewrite (floor_log2_unique _ (e + 53)); [lia| |].
    + rewrite <- Hvalue; apply Hge; lia.
    + rewrite <- Hvalue; replace (e + 53 + 1) with (e + 54) by ring; apply Hlt; lia.
  - apply nearest_on_grid.
    unfold quantum.
    destruct (Z.le_gt_cases (2 ^ 52) m) as [Hnorm|Hsub].
    + rewrite (floor_log2_unique _ (e + 52)); [lia| |].
      * apply Hge; lia.
      * replace (e + 52 + 1) with (e + 53) by ring; apply Hlt; lia.
    + assert (He' : e = -1074) by (destruct Hnormal; [lia | assumption]).
      assert (Hposv : (0 < inject_Z m * pow2 e)%Q)
        by (apply Qmult_lt_0_compat; [now rewrite <- (Zlt_Qlt 0) | apply pow2_pos]).
      destruct (floor_log2_spec _ Hposv) as [Hlow _].
      assert (Hfl : floor_log2 (inject_Z m * pow2 e) < e + 52).
      { apply pow2_lt_inv.
        apply Qle_lt_trans with (inject_Z m * pow2 e)%Q; [exact Hlow|].
        apply Hlt; lia. }
      lia.
Qed.

Lemma nearest_idem (a : Q) :
  (0 < a)%Q ->
  (nearest a == 0)%Q \/ ((0 < nearest a)%Q /\ (nearest (nearest a) == nearest a)%Q).
Proof.
  intros Ha.
  set (e := quantum a); set (m := round_half_even (a / pow2 e)).
  assert (Hvalue : nearest a = (inject_Z m * pow2 e)%Q) by reflexivity.
  assert (Hm0 : 0 <= m).
  { apply round_half_even_ge.
    apply Qle_shift_div_l; [apply pow2_pos|].
    change (inject_Z 0) with 0%Q; rewrite Qmult_0_l; now apply Qlt_le_weak. }
  assert (Hm53 : m <= 2 ^ 53) by (apply round_half_even_le, scaled_below, Ha).
  destruct (Z.eq_dec m 0) as [Hzero|Hnonzero].
  - left; rewrite Hvalue, Hzero; apply Qmult_0_l.
  - right; rewrite Hvalue; split.
    + apply Qmult_lt_0_compat; [rewrite <- (Zlt_Qlt 0); lia | apply pow2_pos].
    + apply nearest_fixed; [lia | unfold e, quantum; lia |].
      destruct (Z.le_gt_cases (-1022) (floor_log2 a)) as [Hnormal|Hsub].
      * left; apply round_half_even_ge, scaled_above; assumption.
      * right; unfold e, quantum; lia.
Qed.

Lemma representable_0 : representable 0.
Proof. split; cbn; apply Qle_refl. Qed.

Lemma round_positive_representable (a v : Q) :
  (0 < a)%Q -> round_positive a = Finite v -> representable v.
Proof.
  intros Ha; unfold round_positive; cbv zeta.
  destruct (Qle_bool (pow2 1024) (nearest a)) eqn:Hover; [discriminate|].
  intros [= <-].
  destruct (nearest_idem a Ha) as [Hzero|[Hpos Hfixed]].
  - destruct (round64_comp _ _ Hzero) as [H1 H2]; cbn in H1, H2.
    split; [apply number_le_trans with (Finite 0); [exact H1|] | apply number_le_trans with (Finite 0); [|exact H2]];
      cbn; rewrite Hzero; apply Qle_refl.
  - unfold representable, round64.
    destruct (Qcompare_spec (nearest a) 0) as [H|H|H]; try (exfalso; lra).
    unfold round_positive; cbv zeta.
    assert (Hsame : Qle_bool (pow2 1024) (nearest (nearest a)) = false).
    { destruct (Qle_bool (pow2 1024) (nearest (nearest a))) eqn:Hcase; [|reflexivity].
      apply Qle_bool_iff in Hcase; rewrite Hfixed in Hcase.
      apply Qle_bool_iff in Hcase; congruence. }
    rewrite Hsame; split; cbn; rewrite Hfixed; apply Qle_refl.
Qed.

Lemma number_eqv_neg (x y : Number) : eqv x y -> eqv (neg x) (neg y).
Proof. intros [H1 H2]; split; now apply number_le_neg. Qed.

Lemma round64_opp (q : Q) : eqv (round64 (- q)) (neg (round64 q)).
Proof.
  unfold round64.
  destruct (Qcompare_spec q 0) as [H|H|H], (Qcompare_spec (- q) 0) as [H'|H'|H'];
    try (exfalso; lra).
  - split; cbn; lra.
  - pose proof (round_positive_mono (- q) (- q) H' (Qle_refl _)) as Hrefl.
    destruct (round_positive (- q)) as [|[]|v]; unfold eqv; cbn in *; try tauto.
    split; lra.
  - assert (Hpos : (0 < - - q)%Q) by lra.
    assert (Heq : (- - q == q)%Q) by ring.
    apply number_eqv_neg; split; apply round_positive_mono; lra.
Qed.

Lemma round64_representable (q v : Q) : round64 q = Finite v -> representable v.
Proof.
  unfold round64.
  destruct (Qcompare_spec q 0) as [H|H|H].
  - intros [= <-]; exact representable_0.
  - assert (Hpos : (0 < - q)%Q) by lra.
    destruct (round_positive (- q)) as [|s|w] eqn:Hw; cbn; try discriminate.
    intros [= <-].
    pose proof (round_positive_representable _ _ Hpos Hw) as [H1 H2].
    destruct (round64_opp w) as [H3 H4].
    split.
    + apply number_le_trans with (neg (round64 w)); [exact H3|].
      apply (number_le_neg _ _ H2).
    + apply number_le_trans with (neg (round64 w)); [|exact H4].
      apply (number_le_neg _ _ H1).
  - apply round_positive_representable, H.
Qed.

Lemma representable_opp (q : Q) : representable q -> representable (- q).
Proof.
  intros [H1 H2].
  destruct (round64_opp q) as [H3 H4].
  split.
  - apply number_le_trans with (neg (round64 q)); [exact H3|].
    apply (number_le_neg _ _ H2).
  - apply number_le_trans with (neg (round64 q)); [|exact H4].
    apply (number_le_neg _ _ H1).
Qed.

(** Rounding cannot cross a double. *)
Lemma round64_le (x y : Q) : representable y -> (x <= y)%Q -> le (round64 x) (Finite y).
Proof.
  intros [Hy _] Hle; apply number_le_trans with (round64 y); [now apply round64_mono | exact Hy].
Qed.

Lemma round64_ge (x y : Q) : representable x -> (x <= y)%Q -> le (Finite x) (round64 y).
Proof.
  intros [_ Hx] Hle; apply number_le_trans with (round64 x); [exact Hx | now apply round64_mono].
Qed.

Lemma representable_1 : representable 1.
Proof. split; vm_compute; discriminate. Qed.

Lemma representable_2 : representable 2.
Proof. split; vm_compute; discriminate. Qed.

Lemma representable_minus_1 : representable (- (1)).
Proof. apply representable_opp, representable_1. Qed.

(** An exact value between two doubles rounds to a finite double between
    them. *)
Lemma round64_between (lo hi q : Q) :
  representable lo -> representable hi -> (lo <= q)%Q -> (q <= hi)%Q ->
  exists v, round64 q = Finite v /\ (lo <= v)%Q /\ (v <= hi)%Q /\ representable v.
Proof.
  intros Hlo Hhi Hlow Hhigh.
  pose proof (round64_ge lo q Hlo Hlow) as H1.
  pose proof (round64_le q hi Hhi Hhigh) as H2.
  destruct (round64 q) as [|[]|v] eqn:Hq; cbn in H1, H2; try tauto.
  exists v; repeat split; try assumption; apply (round64_representable q v Hq).
Qed.

Lemma number_le_refl (x : Number) : isNaN x = false -> le x x.
Proof.
  destruct x as [|[]|a]; cbn; try discriminate; intros _; try exact I.
  apply Qle_refl.
Qed.

Lemma le_is_a_number (x y : Number) : le x y -> isNaN x = false /\ isNaN y = false.
Proof. destruct x as [|[]|a], y as [|[]|b]; cbn; intros H; try tauto; split; reflexivity. Qed.

Lemma round64_not_NaN (q : Q) : isNaN (round64 q) = false.
Proof.
  pose proof (round64_is_a_number q) as H.
  destruct (round64 q); [contradiction | reflexivity | reflexivity].
Qed.

(** *** [Math.min] and [Math.max] *)

Lemma Math_min_le_r (x y : Number) :
  isNaN x = false -> isNaN y = false -> le (Math_min x y) y.
Proof.
  destruct x as [|[]|a], y as [|[]|b]; cbn; try discriminate; intros _ _; try exact I;
    try apply Qle_refl.
  apply Q.le_min_r.
Qed.

Lemma Math_min_le_l (x y : Number) :
  isNaN x = false -> isNaN y = false -> le (Math_min x y) x.
Proof.
  destruct x as [|[]|a], y as [|[]|b]; cbn; try discriminate; intros _ _; try exact I;
    try apply Qle_refl.
  apply Q.le_min_l.
Qed.

Lemma Math_min_mono_l (x x' y : Number) :
  le x x' -> isNaN y = false -> le (Math_min x y) (Math_min x' y).
Proof.
  destruct x as [|[]|a], x' as [|[]|a'], y as [|[]|b]; cbn; try discriminate; try tauto;
    intros Hle _; try apply Qle_refl.
  - apply Q.le_min_r.
  - now apply Q.min_le_compat_r.
Qed.

Lemma Math_max_ge_l (x y : Number) :
  isNaN x = false -> isNaN y = false -> le x (Math_max x y).
Proof.
  destruct x as [|[]|a], y as [|[]|b]; cbn; try discriminate; intros _ _; try exact I;
    try apply Qle_refl.
  apply Q.le_max_l.
Qed.

Lemma Math_max_ge_r (x y : Number) :
  isNaN x = false -> isNaN y = false -> le y (Math_max x y).
Proof.
  destruct x as [|[]|a], y as [|[]|b]; cbn; try discriminate; intros _ _; try exact I;
    try apply Qle_refl.
  apply Q.le_max_r.
Qed.

Lemma Math_max_lub (x y z : Number) : le x z -> le y z -> le (Math_max x y) z.
Proof.
  destruct x as [|[]|a], y as [|[]|b], z as [|[]|c]; cbn; try tauto.
  apply Q.max_lub.
Qed.

(** *** Products and sums of numbers that are not negative *)

Lemma Qcompare_Gt (a : Q) : (0 < a)%Q -> (a ?= 0)%Q = Gt.
Proof. intros Ha; destruct (Qcompare_spec a 0) as [H|H|H]; [exfalso; lra | exfalso; lra | reflexivity]. Qed.

(** [b * x] does not decrease with [x >= 1], for [b >= 0], unless it is the
    NaN of zero times infinity. *)
Lemma mul_mono_r (b x y : Number) :
  le (Finite 0) b -> le (Finite 1) x -> le x y ->
  isNaN (mul b y) = false ->
  le (mul b x) (mul b y).
Proof.
  destruct b as [|[]|bv]; cbn [le]; intros Hb; try contradiction.
  - destruct x as [|[]|p], y as [|[]|q]; cbn [le mul xorb]; intros Hx Hy _; try contradiction.
    + exact I.
    + rewrite (Qcompare_Gt p) by lra; exact I.
    + rewrite (Qcompare_Gt p), (Qcompare_Gt q) by lra; exact I.
  - destruct x as [|[]|p], y as [|[]|q]; cbn [le mul xorb]; intros Hx Hy Hnum; try contradiction.
    + apply number_le_refl, Hnum.
    + destruct (Qcompare_spec bv 0) as [H|H|H]; [discriminate | exfalso; lra |].
      pose proof (round64_not_NaN (bv * p)) as Hr.
      destruct (round64 (bv * p)) as [|[]|v]; try discriminate; exact I.
    + apply round64_mono; nra.
Qed.

(** [b * x] is not negative for [b >= 0] and [x >= 1], unless it is NaN. *)
Lemma mul_nonneg (b x : Number) :
  le (Finite 0) b -> le (Finite 1) x -> isNaN (mul b x) = false ->
  le (Finite 0) (mul b x).
Proof.
  destruct b as [|[]|bv], x as [|[]|p]; cbn [le mul xorb]; intros Hb Hx; try contradiction.
  - intros _; exact I.
  - rewrite (Qcompare_Gt p) by lra; intros _; exact I.
  - destruct (Qcompare_spec bv 0) as [H|H|H];
      [discriminate | exfalso; lra | intros _; exact I].
  - intros _; apply round64_nonneg; nra.
Qed.

(** When [base >= 0] and the power is at least 1, the product is NaN exactly
    when the base is zero and the power has overflowed. *)
Lemma mul_is_NaN (b x : Number) :
  le (Finite 0) b -> le (Finite 1) x ->
  (isNaN (mul b x) = true <-> eqv b (Finite 0) /\ x = Infinity false).
Proof.
  destruct b as [|[]|bv], x as [|[]|p]; cbn [le mul xorb]; intros Hb Hx; try contradiction.
  - cbn; split; [discriminate | intros [[[] _] _]].
  - rewrite (Qcompare_Gt p) by lra.
    cbn; split; [discriminate | intros [[[] _] _]].
  - unfold eqv; destruct (Qcompare_spec bv 0) as [H|H|H]; cbn [isNaN le].
    + split; [intros _; split; [split; lra | reflexivity] | reflexivity].
    + exfalso; lra.
    + split; [discriminate | intros [[H1 _] _]; exfalso; lra].
  - rewrite round64_not_NaN.
    split; [discriminate | intros [_ Habs]; discriminate].
Qed.

(** The capped delay is a finite number between 0 and the cap. *)
Lemma capped_is_finite (d : Number) (m : Q) :
  le (Finite 0) d -> (0 <= m)%Q ->
  exists dv, Math_min d (Finite m) = Finite dv
             /\ (0 <= dv)%Q /\ (dv <= m)%Q /\ le (Finite dv) d.
Proof.
  destruct d as [|[]|v]; cbn [le]; try tauto; intros Hd Hm.
  - exists m; cbn; repeat split; try assumption; apply Qle_refl.
  - exists (Qmin v m); cbn; repeat split.
    + now apply Q.min_glb.
    + apply Q.le_min_r.
    + apply Q.le_min_l.
Qed.

(** A finite product has finite factors. *)
Lemma mul_finite (x y : Number) :
  isFinite (mul x y) = true ->
  exists a b v, x = Finite a /\ y = Finite b /\ round64 (a * b) = Finite v.
Proof.
  destruct x as [|s|a], y as [|s'|b]; cbn [mul isFinite]; try discriminate.
  - destruct (b ?= 0)%Q; discriminate.
  - destruct (a ?= 0)%Q; discriminate.
  - destruct (round64 (a * b)) as [| |v] eqn:Hv; try discriminate.
    intros _; exists a, b, v; repeat split; exact Hv.
Qed.

(** *** The power rounded once *)

Lemma Qpower_ge_1 (q : Q) (n : Z) : (1 <= q)%Q -> 0 <= n -> (1 <= q ^ n)%Q.
Proof.
  intros Hq Hn.
  apply Qle_trans with (q ^ 0)%Q; [cbn; apply Qle_refl|].
  apply Qpower_le_compat_l; [exact Hn | exact Hq].
Qed.

Lemma rounded_power_ge_1 (x : Number) (n : Z) :
  le (Finite 1) x -> 0 <= n -> le (Finite 1) (rounded_power x n).
Proof.
  intros Hx Hn; unfold rounded_power.
  destruct (Z.eqb_spec n 0) as [Hz|Hnz]; [cbn; apply Qle_refl|].
  destruct x as [|[]|q]; cbn [le] in Hx; try tauto.
  - destruct (Z.ltb_spec n 0); [lia | exact I].
  - rewrite (Qcompare_Gt q) by lra.
    apply round64_ge; [exact representable_1 | now apply Qpower_ge_1].
Qed.

Lemma rounded_power_grows (x : Number) : le (Finite 1) x -> power_grows rounded_power x.
Proof.
  intros Hx n n' Hn; split; [apply rounded_power_ge_1; [exact Hx | lia]|].
  pose proof (rounded_power_ge_1 x n' Hx ltac:(lia)) as Hone.
  unfold rounded_power in *.
  destruct (Z.eqb_spec n 0) as [Hz|Hnz], (Z.eqb_spec n' 0) as [Hz'|Hnz']; try lia.
  - cbn; apply Qle_refl.
  - exact Hone.
  - destruct x as [|[]|q]; cbn [le] in Hx; try tauto.
    + destruct (Z.ltb_spec n 0), (Z.ltb_spec n' 0); try lia; exact I.
    + rewrite (Qcompare_Gt q) by lra.
      apply round64_mono, Qpower_le_compat_l; [lia | exact Hx].
Qed.

(** *** The backoff delay *)

Section BackoffFacts.

Variable Math_pow : Number -> Z -> Number.

(** C4, amended.  In the double arithmetic of the run time, for every base
    interval [>= 0] and maximum interval [>= 0], and every factor at which
    [Math.pow] is at least 1 and does not decrease over the attempts (as the
    power of a factor [>= 1] does up to its rounding), the delay before
    jitter, [Math.min(base * Math.pow(factor, attempts), maxDelay)], does
    not decrease when [attempts >= 0] grows, and never exceeds the maximum
    interval, provided the product [base * Math.pow(factor, attempts)] is
    not NaN, which it is when the base is zero and the power has overflowed
    to [Infinity]. *)
Theorem backoff_nondecreasing_and_capped (base maxDelay factor : Number) (attempts attempts' : Z) :
  le (Finite 0) base ->
  le (Finite 0) maxDelay ->
  power_grows Math_pow factor ->
  0 <= attempts <= attempts' ->
  isNaN (mul base (Math_pow factor attempts')) = false ->
  le (exponentialBackoff Math_pow base maxDelay factor attempts)
     (exponentialBackoff Math_pow base maxDelay factor attempts')
  /\ le (exponentialBackoff Math_pow base maxDelay factor attempts') maxDelay.
Proof.
  intros Hbase Hmax Hgrows Hattempts Hnum.
  destruct (Hgrows attempts attempts' Hattempts) as [Hone Hmono].
  destruct (le_is_a_number _ _ Hmax) as [_ Hmaxnum].
  unfold exponentialBackoff; cbv zeta; split.
  - apply Math_min_mono_l; [|exact Hmaxnum].
    apply mul_mono_r; assumption.
  - apply Math_min_le_r; assumption.
Qed.

(** C5, amended.  In the double arithmetic of the run time, for every base
    [>= 0], maximum [>= 0] and jitter factor [>= 0], every factor at which
    [Math.pow] is at least 1 over the attempts, every [attempts >= 0] and
    every value [random] of [Math.random()] between 0 and 1 (the jitter draw
    is [u = random * 2 - 1], between -1 and 1), provided the product
    [base * Math.pow(factor, attempts)] is not NaN and
    [maxDelay * jitterFactor] is finite: the delay returned by
    [calculateBackoffDelay] is not below 0 and lies between
    [capped - capped * jitterFactor] and [capped + capped * jitterFactor],
    where [capped] is [Math.min(base * Math.pow(factor, attempts),
    maxDelay)] and every operation is rounded as the code computes it; hence
    it never exceeds [maxDelay + maxDelay * jitterFactor], nor
    [grown + grown * jitterFactor] for the uncapped product [grown] when
    [grown * jitterFactor] is not NaN. *)
Theorem jittered_delay_range (base maxDelay factor jitter : Number) (attempts : Z)
    (random : Number) :
  le (Finite 0) base ->
  le (Finite 0) maxDelay ->
  le (Finite 0) jitter ->
  power_grows Math_pow factor ->
  0 <= attempts ->
  le (Finite 0) random -> le random (Finite 1) ->
  isNaN (mul base (Math_pow factor attempts)) = false ->
  isFinite (mul maxDelay jitter) = true ->
  let grown := mul base (Math_pow factor attempts) in
  let capped := exponentialBackoff Math_pow base maxDelay factor attempts in
  let delay := calculateBackoffDelay Math_pow base maxDelay factor jitter attempts random in
  le (Finite 0) delay
  /\ le (sub capped (mul capped jitter)) delay
  /\ le delay (add capped (mul capped jitter))
  /\ le delay (add maxDelay (mul maxDelay jitter))
  /\ (isNaN (mul grown jitter) = false -> le delay (add grown (mul grown jitter))).
Proof.
  intros Hbase Hmax Hjitter Hgrows Hattempts Hr0 Hr1 Hnum Hfin.
  destruct (Hgrows attempts attempts ltac:(lia)) as [Hone _].
  pose proof (mul_nonneg _ _ Hbase Hone Hnum) as Hgrown.
  destruct (mul_finite _ _ Hfin) as (m & jv & mj & -> & -> & Hmj).
  cbn [le] in Hmax, Hjitter.
  unfold calculateBackoffDelay, exponentialBackoff; cbv zeta.
  set (grown := mul base (Math_pow factor attempts)) in *.
  destruct (capped_is_finite grown m Hgrown Hmax) as (dv & -> & Hdv0 & Hdvm & Hdvg).
  (* the jitter amplitude *)
  assert (HJ : exists Jv, round64 (dv * jv) = Finite Jv
                          /\ (0 <= Jv)%Q /\ (Jv <= mj)%Q /\ representable Jv).
  { pose proof (round64_nonneg (dv * jv) ltac:(nra)) as H1.
    pose proof (round64_mono (dv * jv) (m * jv) ltac:(nra)) as H2.
    rewrite Hmj in H2.
    destruct (round64 (dv * jv)) as [|[]|Jv] eqn:HJv; cbn in H1, H2; try tauto.
    exists Jv; repeat split; try assumption; apply (round64_representable _ _ HJv). }
  destruct HJ as (Jv & HJv & HJ0 & HJmj & HJrep).
  (* the draw *)
  destruct random as [|[]|r]; cbn [le] in Hr0, Hr1; try tauto.
  destruct (round64_between 0 2 (r * 2) representable_0 representable_2
              ltac:(lra) ltac:(lra)) as (x & Hx & Hx0 & Hx2 & _).
  destruct (round64_between (- (1)) 1 (x + - (1)) representable_minus_1 representable_1
              ltac:(lra) ltac:(lra)) as (w & Hw & Hw0 & Hw1 & _).
  destruct (round64_between (- Jv) Jv (Jv * w) (representable_opp _ HJrep) HJrep
              ltac:(nra) ltac:(nra)) as (a & Ha & Ha0 & Ha1 & _).
  unfold sub; cbn [mul add neg].
  rewrite Hx; cbn [add]; rewrite Hw; rewrite HJv; cbn [mul add neg]; rewrite Ha; cbn [add].
  rewrite Hmj; cbn [add].
  pose proof (round64_not_NaN (dv + a)) as Hsum.
  assert (Hupper : le (Math_max (Finite 0) (round64 (dv + a))) (round64 (dv + Jv))).
  { apply Math_max_lub; [apply round64_nonneg; lra | apply round64_mono; lra]. }
  split; [|split; [|split; [|split]]].
  - apply Math_max_ge_l; [reflexivity | exact Hsum].
  - apply number_le_trans with (round64 (dv + a)); [apply round64_mono; lra|].
    apply Math_max_ge_r; [reflexivity | exact Hsum].
  - exact Hupper.
  - apply number_le_trans with (round64 (dv + Jv)); [exact Hupper|].
    apply round64_mono; lra.
  - intros Hgj.
    apply number_le_trans with (round64 (dv + Jv)); [exact Hupper|].
    destruct grown as [|[]|gv]; cbn [le] in Hdvg, Hgrown; try tauto.
    + cbn [mul] in *.
      destruct (Qcompare_spec jv 0) as [H|H|H]; try discriminate; [exfalso; lra|].
      cbn; pose proof (round64_not_NaN (dv + Jv)) as Hn.
      destruct (round64 (dv + Jv)) as [|[]|v]; try discriminate; exact I.
    + cbn [mul].
      pose proof (round64_mono (dv * jv) (gv * jv) ltac:(nra)) as Hprod.
      rewrite HJv in Hprod.
      destruct (round64 (gv * jv)) as [|[]|gj]; cbn [le] in Hprod; try tauto.
      * cbn [add].
        pose proof (round64_not_NaN (dv + Jv)) as Hn.
        destruct (round64 (dv + Jv)) as [|[]|v]; try discriminate; exact I.
      * cbn [add]; apply round64_mono; lra.
Qed.

End BackoffFacts.

(** C4 as described fails.  With a base interval of 0, the factor 2 and the
    maximum 60000, the power is [Infinity] from 1024 attempts on and the
    delay before jitter is [Math.min(0 * Infinity, 60000)], which is NaN:
    after the delay 0 of 1023 attempts comes a delay that is neither at
    least 0 nor at most the maximum. *)
Lemma zero_base_counterexample :
  le (Finite 0) (Finite 0) /\ le (Finite 1) (Finite 2) /\ le (Finite 0) (Finite 60000)
  /\ rounded_power (Finite 2) 1024 = Infinity false
  /\ exponentialBackoff rounded_power (Finite 0) (Finite 60000) (Finite 2) 1023 = Finite 0
  /\ exponentialBackoff rounded_power (Finite 0) (Finite 60000) (Finite 2) 1024 = NaN
  /\ ~ le (exponentialBackoff rounded_power (Finite 0) (Finite 60000) (Finite 2) 1023)
          (exponentialBackoff rounded_power (Finite 0) (Finite 60000) (Finite 2) 1024)
  /\ ~ le (exponentialBackoff rounded_power (Finite 0) (Finite 60000) (Finite 2) 1024)
          (Finite 60000).
Proof.
  split; [vm_compute; discriminate|].
  split; [vm_compute; discriminate|].
  split; [vm_compute; discriminate|].
  split; [vm_compute; reflexivity|].
  split; [vm_compute; reflexivity|].
  split; [vm_compute; reflexivity|].
  split; vm_compute; intros H; exact H.
Qed.

Lemma backoff_nondecreasing_and_capped_witness :
  le (exponentialBackoff rounded_power (default_tunable baseReconnectIntervalMs) (default_tunable maxReconnectIntervalMs) (default_tunable backoffFactor) 3)
     (exponentialBackoff rounded_power (default_tunable baseReconnectIntervalMs) (default_tunable maxReconnectIntervalMs) (default_tunable backoffFactor) 9)
  /\ le (exponentialBackoff rounded_power (default_tunable baseReconnectIntervalMs) (default_tunable maxReconnectIntervalMs) (default_tunable backoffFactor) 9) (default_tunable maxReconnectIntervalMs).
Proof.
  apply (backoff_nondecreasing_and_capped rounded_power (default_tunable baseReconnectIntervalMs) (default_tunable maxReconnectIntervalMs) (default_tunable backoffFactor) 3 9).
  - vm_compute; discriminate.
  - vm_compute; discriminate.
  - apply rounded_power_grows; vm_compute; discriminate.
  - lia.
  - vm_compute; reflexivity.
Defined.

(** C5 as described fails.  With the default tunables (base 1000, factor 2,
    maximum 60000, jitter 0.1), seven attempts and the jitter draw [u = 0]
    ([Math.random()] returning one half), [calculateBackoffDelay] returns
    60000, while [base * factor^attempts * (1 -/+ jitter)] clamped to the
    range up to [maxDelay * (1 + jitter)] is at both ends the double of
    [60000 * (1 + 0.1)], about 66000; the delay is also below the unclamped
    lower end, about 115200. *)
Lemma jitter_range_counterexample :
  eqv (calculateBackoffDelay rounded_power (default_tunable baseReconnectIntervalMs) (default_tunable maxReconnectIntervalMs) (default_tunable backoffFactor) (default_tunable jitterFactor) 7
         (Finite (1 # 2)))
      (Finite 60000)
  /\ ~ described_jitter_range rounded_power (default_tunable baseReconnectIntervalMs) (default_tunable maxReconnectIntervalMs) (default_tunable backoffFactor) (default_tunable jitterFactor) 7
         (calculateBackoffDelay rounded_power (default_tunable baseReconnectIntervalMs) (default_tunable maxReconnectIntervalMs) (default_tunable backoffFactor) (default_tunable jitterFactor) 7
            (Finite (1 # 2)))
  /\ ~ le (mul (mul (default_tunable baseReconnectIntervalMs) (rounded_power (default_tunable backoffFactor) 7)) (sub (Finite 1) (default_tunable jitterFactor)))
          (calculateBackoffDelay rounded_power (default_tunable baseReconnectIntervalMs) (default_tunable maxReconnectIntervalMs) (default_tunable backoffFactor) (default_tunable jitterFactor) 7
             (Finite (1 # 2))).
Proof.
  split; [split; vm_compute; discriminate|]; split.
  - intros [Hlow _]; vm_compute in Hlow.
    now apply Hlow.
  - intros Hlow; vm_compute in Hlow.
    now apply Hlow.
Qed.

Lemma jittered_delay_range_witness :
  let base := default_tunable baseReconnectIntervalMs in
  let maxDelay := default_tunable maxReconnectIntervalMs in
  let factor := default_tunable backoffFactor in
  let jitter := default_tunable jitterFactor in
  let grown := mul base (rounded_power factor 7) in
  let capped := exponentialBackoff rounded_power base maxDelay factor 7 in
  let delay := calculateBackoffDelay rounded_power base maxDelay factor jitter 7 (Finite (1 # 4)) in
  le (Finite 0) delay
  /\ le (sub capped (mul capped jitter)) delay
  /\ le delay (add capped (mul capped jitter))
  /\ le delay (add maxDelay (mul maxDelay jitter))
  /\ (isNaN (mul grown jitter) = false -> le delay (add grown (mul grown jitter))).
Proof.
  apply (jittered_delay_range rounded_power (default_tunable baseReconnectIntervalMs) (default_tunable maxReconnectIntervalMs) (default_tunable backoffFactor) (default_tunable jitterFactor) 7
           (Finite (1 # 4))).
  - vm_compute; discriminate.
  - vm_compute; discriminate.
  - vm_compute; discriminate.
  - apply rounded_power_grows; vm_compute; discriminate.
  - lia.
  - vm_compute; discriminate.
  - vm_compute; discriminate.
  - vm_compute; reflexivity.
  - vm_compute; reflexivity.
Defined.

End DoubleArithmetic.

(** ** [sendSignal] *)

Lemma Qgt_bool_true (a b : Q) : (b < a)%Q -> Qgt_bool a b = true.
Proof.
  intros Hlt; unfold Qgt_bool.
  destruct (Qle_bool a b) eqn:Hle; [|reflexivity].
  apply Qle_bool_iff in Hle.
  exfalso; exact (Qlt_not_le _ _ Hlt Hle).
Qed.

(** C6.  For every connected transport and every signal whose JSON text,
    taken after the source fields are filled in, is longer in bytes than
    [maxMessageSize], [sendSignal] fails with [SIGNAL_TOO_LARGE]; nothing
    is handed to the socket and no callback fires, and the transport is
    left as it was, so [signalsSent] is unchanged.  [JSON.stringify] and
    [Buffer.byteLength] are any functions. *)
Theorem sendSignal_too_large
    (JSON_stringify : Json -> string) (byteLength : string -> Z)
    (t : WebSocketTransport) (signal : Signal.t) (now : Z) (completion : option string) :
  connected t = true ->
  (maxMessageSize (config t)
   < inject_Z (byteLength (Signal_toJSON JSON_stringify (autofill_source t signal))))%Q ->
  let out := fst (sendSignal JSON_stringify byteLength t signal now completion) in
  settled out = Rejected (mkException (Some SIGNAL_TOO_LARGE) "SIGNAL_TOO_LARGE")
  /\ trace out = []
  /\ writes (trace out) = []
  /\ after out = t
  /\ signalsSent (stats (after out)) = signalsSent (stats t).
Proof.
  intros Hconn Hsize out; subst out.
  unfold sendSignal.
  rewrite Hconn; cbn [negb].
  rewrite (Qgt_bool_true _ _ Hsize).
  repeat split; reflexivity.
Qed.

Lemma sendSignal_too_large_witness :
  let out := fst (sendSignal stringify_plain ascii_byteLength narrow_transport sample_signal
                    2000 None) in
  settled out = Rejected (mkException (Some SIGNAL_TOO_LARGE) "SIGNAL_TOO_LARGE")
  /\ trace out = []
  /\ writes (trace out) = []
  /\ after out = narrow_transport
  /\ signalsSent (stats (after out)) = 3.
Proof.
  apply (sendSignal_too_large stringify_plain ascii_byteLength narrow_transport sample_signal
           2000 None).
  - reflexivity.
  - vm_compute; reflexivity.
Defined.

(** ** The registry *)

Lemma StringMap_has_set {V : Type} (m : list (string * V)) (key : string) (v : V) :
  StringMap.has (StringMap.set m key v) key = true.
Proof.
  unfold StringMap.has.
  induction m as [|[k old] rest IH]; simpl.
  - now rewrite String.eqb_refl.
  - destruct (String.eqb k key) eqn:Hk; simpl; rewrite Hk; [reflexivity | exact IH].
Qed.

(** C7.  For every registry and every terminal id present in it,
    [registerTerminal] with that id returns [ALREADY_INITIALIZED] and leaves
    the map of terminals as it was: the configuration and transport
    registered under the id are untouched, and no terminal is added or
    removed.  The global callbacks are kept too; only the last error
    message is set. *)
Theorem registerTerminal_duplicate (sdk : SDK) (terminalId : string) (config : Config) :
  StringMap.has (terminals sdk) terminalId = true ->
  let result := registerTerminal sdk terminalId config in
  snd result = ALREADY_INITIALIZED
  /\ terminals (fst result) = terminals sdk
  /\ StringMap.get (terminals (fst result)) terminalId = StringMap.get (terminals sdk) terminalId
  /\ getAllTerminals (fst result) = getAllTerminals sdk
  /\ globalConnectionCallback (fst result) = globalConnectionCallback sdk
  /\ globalDirectiveCallback (fst result) = globalDirectiveCallback sdk
  /\ globalErrorCallback (fst result) = globalErrorCallback sdk
  /\ globalCloseCallback (fst result) = globalCloseCallback sdk.
Proof.
  intros Hhas result; subst result.
  unfold registerTerminal; rewrite Hhas.
  repeat split; reflexivity.
Qed.

Lemma registerTerminal_duplicate_witness :
  let result := registerTerminal one_terminal_sdk "terminal-1" shrinking_config in
  snd result = ALREADY_INITIALIZED
  /\ terminals (fst result) = terminals one_terminal_sdk
  /\ StringMap.get (terminals (fst result)) "terminal-1"
     = Some (Terminal.make sample_config (new_WebSocketTransport sample_config))
  /\ getAllTerminals (fst result) = ["terminal-1"]
  /\ globalConnectionCallback (fst result) = None
  /\ globalDirectiveCallback (fst result) = None
  /\ globalErrorCallback (fst result) = None
  /\ globalCloseCallback (fst result) = None.
Proof.
  apply (registerTerminal_duplicate one_terminal_sdk "terminal-1" shrinking_config).
  reflexivity.
Defined.

(** Registering twice: whatever the registry held, the second call with the
    id of the first is refused and the registry is the one the first call
    left. *)
Lemma registerTerminal_twice (sdk : SDK) (terminalId : string) (first second : Config) :
  StringMap.has (terminals sdk) terminalId = false ->
  let once := fst (registerTerminal sdk terminalId first) in
  snd (registerTerminal once terminalId second) = ALREADY_INITIALIZED
  /\ terminals (fst (registerTerminal once terminalId second)) = terminals once.
Proof.
  intros Hfresh once.
  assert (Hhas : StringMap.has (terminals once) terminalId = true).
  { subst once; unfold registerTerminal; rewrite Hfresh; cbn [fst terminals].
    apply StringMap_has_set. }
  unfold registerTerminal; rewrite Hhas.
  split; reflexivity.
Qed.

(** ** Directive parameters *)












(** ** Configuration defaults *)

(** C9 as described fails.  [getConfigWithDefaults] copies what the caller
    supplies: asked for a backoff factor of one half, it returns one half,
    below 1. *)
Lemma config_invariant_counterexample :
  (backoffFactor (getConfigWithDefaults shrinking_config) == 1 # 2)%Q
  /\ ~ tunables_invariant (getConfigWithDefaults shrinking_config).
Proof.
  split; [reflexivity|].
  intros (_ & _ & _ & _ & _ & _ & _ & Hfactor).
  vm_compute in Hfactor.
  now apply Hfactor.
Qed.

(** C9, amended.  For every input whose supplied tunables are non-negative,
    with a supplied backoff factor at least 1, the resolved configuration
    meets the invariant: all numeric tunables are (finite and) non-negative
    and the backoff factor is at least 1.  The result is a function of the
    input alone: each of the nine optional fields is the supplied value
    when there is one and its documented default otherwise
    ([enableDirectiveReceiving] true, [connectionTimeoutMs] 10000,
    [heartbeatIntervalMs] 5000, [maxMessageSize] 10 MiB,
    [maxReconnectAttempts] -1, [baseReconnectIntervalMs] 1000,
    [maxReconnectIntervalMs] 60000, [backoffFactor] 2, [jitterFactor] 0.1),
    and the six identity fields are copied. *)
Theorem getConfigWithDefaults_invariant (config : Config) :
  supplied_tunables_ok config ->
  let resolved := getConfigWithDefaults config in
  let resolves {T : Type} (field : option T) (value documented : T) :=
    match field with
    | Some v => value = v
    | None => value = documented
    end in
  tunables_invariant resolved
  /\ (resolves (enableDirectiveReceiving config) (enableDirectiveReceiving resolved) true
      /\ resolves (connectionTimeoutMs config) (connectionTimeoutMs resolved) 10000%Q
      /\ resolves (heartbeatIntervalMs config) (heartbeatIntervalMs resolved) 5000%Q
      /\ resolves (maxMessageSize config) (maxMessageSize resolved) 10485760%Q
      /\ resolves (maxReconnectAttempts config) (maxReconnectAttempts resolved) (-1)%Q
      /\ resolves (baseReconnectIntervalMs config) (baseReconnectIntervalMs resolved) 1000%Q
      /\ resolves (maxReconnectIntervalMs config) (maxReconnectIntervalMs resolved) 60000%Q
      /\ resolves (backoffFactor config) (backoffFactor resolved) 2%Q
      /\ resolves (jitterFactor config) (jitterFactor resolved) (1 # 10)%Q)
  /\ (deviceId resolved = deviceId config
      /\ deviceType resolved = deviceType config
      /\ endpoint resolved = endpoint config
      /\ tenantId resolved = tenantId config
      /\ productId resolved = productId config
      /\ productKey resolved = productKey config).
Proof.
  destruct config as [dId dType ep tId pId pKey edr cto hb mms mra base maxd bf jf].
  unfold supplied_tunables_ok, tunables_invariant, getConfigWithDefaults; cbn.
  intros (Hcto & Hhb & Hmms & Hbase & Hmax & Hbf & Hjf).
  split; [|split].
  - repeat split.
    + destruct cto; [exact Hcto | Qdecide].
    + destruct hb; [exact Hhb | Qdecide].
    + destruct mms; [exact Hmms | Qdecide].
    + destruct base; [exact Hbase | Qdecide].
    + destruct maxd; [exact Hmax | Qdecide].
    + destruct bf; cbn in *; [apply Qle_trans with (y := 1%Q); [Qdecide | exact Hbf] | Qdecide].
    + destruct jf; [exact Hjf | Qdecide].
    + destruct bf; [exact Hbf | Qdecide].
  - destruct edr, cto, hb, mms, mra, base, maxd, bf, jf; repeat split.
  - repeat split.
Qed.

Lemma getConfigWithDefaults_invariant_witness :
  let resolved := getConfigWithDefaults tuned_config in
  let resolves {T : Type} (field : option T) (value documented : T) :=
    match field with
    | Some v => value = v
    | None => value = documented
    end in
  tunables_invariant resolved
  /\ (resolves (enableDirectiveReceiving tuned_config) (enableDirectiveReceiving resolved) true
      /\ resolves (connectionTimeoutMs tuned_config) (connectionTimeoutMs resolved) 10000%Q
      /\ resolves (heartbeatIntervalMs tuned_config) (heartbeatIntervalMs resolved) 5000%Q
      /\ resolves (maxMessageSize tuned_config) (maxMessageSize resolved) 10485760%Q
      /\ resolves (maxReconnectAttempts tuned_config) (maxReconnectAttempts resolved) (-1)%Q
      /\ resolves (baseReconnectIntervalMs tuned_config) (baseReconnectIntervalMs resolved)
           1000%Q
      /\ resolves (maxReconnectIntervalMs tuned_config) (maxReconnectIntervalMs resolved)
           60000%Q
      /\ resolves (backoffFactor tuned_config) (backoffFactor resolved) 2%Q
      /\ resolves (jitterFactor tuned_config) (jitterFactor resolved) (1 # 10)%Q)
  /\ (deviceId resolved = deviceId tuned_config
      /\ deviceType resolved = deviceType tuned_config
      /\ endpoint resolved = endpoint tuned_config
      /\ tenantId resolved = tenantId tuned_config
      /\ productId resolved = productId tuned_config
      /\ productKey resolved = productKey tuned_config).
Proof.
  apply (getConfigWithDefaults_invariant tuned_config).
  unfold supplied_tunables_ok, tuned_config; cbn.
  repeat split; Qdecide.
Defined.

(** Resolving is the identity on what is already resolved: nothing but the
    absent fields of the input is ever filled in. *)
Lemma getConfigWithDefaults_supply_all (cfg : RequiredConfig) :
  getConfigWithDefaults (supply_all cfg) = cfg.
Proof. now destruct cfg. Qed.

(** ** Statistics *)

(** C10.  [resetStatistics] sets the five counters to zero and changes
    nothing else of the transport; read at the same instant before and
    after it, [getStatistics] reports the same connected flag, the same
    [reconnectAttempts] and the same [uptimeSeconds]. *)
Theorem resetStatistics_frame (t : WebSocketTransport) (now : Z) :
  let before := getStatistics t now in
  let after_reset := getStatistics (resetStatistics t) now in
  (Statistics.signalsSent after_reset = 0
   /\ Statistics.audioSent after_reset = 0
   /\ Statistics.directivesReceived after_reset = 0
   /\ Statistics.audioReceived after_reset = 0
   /\ Statistics.errors after_reset = 0)
  /\ (Statistics.connected after_reset = Statistics.connected before
      /\ Statistics.reconnectAttempts after_reset = Statistics.reconnectAttempts before
      /\ Statistics.uptimeSeconds after_reset = Statistics.uptimeSeconds before)
  /\ (config (resetStatistics t) = config t
      /\ ws (resetStatistics t) = ws t
      /\ connected (resetStatistics t) = connected t
      /\ reconnectAttempts (resetStatistics t) = reconnectAttempts t
      /\ lastActivity (resetStatistics t) = lastActivity t
      /\ shouldReconnect (resetStatistics t) = shouldReconnect t
      /\ heartbeatTimer (resetStatistics t) = heartbeatTimer t
      /\ reconnectTimer (resetStatistics t) = reconnectTimer t
      /\ connectTime (resetStatistics t) = connectTime t
      /\ onConnected (resetStatistics t) = onConnected t
      /\ onDirective (resetStatistics t) = onDirective t
      /\ onAudioData (resetStatistics t) = onAudioData t
      /\ onError (resetStatistics t) = onError t
      /\ onClose (resetStatistics t) = onClose t).
Proof. repeat split; reflexivity. Qed.

(** * Further properties of the code *)

(** ** Sending *)

Lemma xor_from_length (key data : Buffer) (k : nat) :
  List.length (xor_from key k data) = List.length data.
Proof.
  unfold xor_from.
  now rewrite length_map, length_combine, length_seq, Nat.min_id.
Qed.

Lemma same_connection_refl (t : WebSocketTransport) : same_connection t t.
Proof. repeat split. Qed.

Lemma counters_grow_refl (s : Stats) : counters_grow s s.
Proof. unfold counters_grow; lia. Qed.

(** X1.  Once [disconnect()] has run, and on a transport that was never
    connected, [sendBinaryData] and [sendSignal] fail with [NOT_CONNECTED]:
    nothing is handed to a socket, no callback fires, the transport and its
    counters stay as they are and the source of the signal is not filled
    in. *)
Theorem sends_need_a_connection
    (JSON_stringify : Json -> string) (byteLength : string -> Z)
    (t : WebSocketTransport) (cfg : Config) (data : Buffer) (dataType : string)
    (random : nat -> Q) (signal : Signal.t) (now : Z) (completion : option string) :
  let refused (t0 : WebSocketTransport) :=
    mkOutcome t0 [] (Rejected (mkException (Some NOT_CONNECTED) "NOT_CONNECTED")) in
  let closed := fst (disconnect t) in
  let fresh := new_WebSocketTransport cfg in
  sendBinaryData closed data dataType random now completion = refused closed
  /\ sendSignal JSON_stringify byteLength closed signal now completion = (refused closed, signal)
  /\ sendBinaryData fresh data dataType random now completion = refused fresh
  /\ sendSignal JSON_stringify byteLength fresh signal now completion = (refused fresh, signal).
Proof. repeat split; reflexivity. Qed.

(** X2.  On a connected transport that holds a socket, a payload of
    [n <= 65535] bytes is handed to the socket once, as a frame of [14 + n]
    bytes.  When the socket reports no error the promise resolves,
    [audioSent] grows by one and [lastActivity] becomes the time of the
    send; when it reports an error the promise is rejected with
    [SEND_FAILED], [errors] grows by one, the error callback is told
    [SEND_FAILED] with the message of the socket, and [audioSent] and
    [lastActivity] keep their values. *)
Theorem sendBinaryData_accounting
    (t : WebSocketTransport) (sock : WebSocket) (data : Buffer) (dataType : string)
    (random : nat -> Q) (now : Z) (message : string) :
  connected t = true ->
  ws t = Some sock ->
  Buffer_length data <= 65535 ->
  message <> EmptyString ->
  exists frame : Buffer,
    Buffer_length frame = 14 + Buffer_length data
    /\ sendBinaryData t data dataType random now None
       = mkOutcome (with_stats (with_lastActivity t now) (incr_audioSent (stats t)))
           [WsSend (BinaryFrame frame)] Resolved
    /\ sendBinaryData t data dataType random now (Some message)
       = mkOutcome (with_stats t (incr_errors (stats t)))
           (WsSend (BinaryFrame frame) :: fire_onError t SEND_FAILED message)
           (Rejected (mkException (Some SEND_FAILED) message)).
Proof.
  intros Hconn Hws Hlen Hmessage.
  pose proof (protocolData_within_limit data dataType random Hlen) as Hbytes.
  set (bytes := (_ ++ _)%list) in Hbytes.
  assert (Hframe : Buffer_length (Buffer_from bytes) = 14 + Buffer_length data).
  { subst bytes; unfold Buffer_length, Buffer_from.
    rewrite length_map, !length_app, length_map, xor_from_length.
    unfold new_maskKey; cbn [List.length map]; lia. }
  clearbody bytes.
  exists (Buffer_from bytes); split; [exact Hframe|]; split.
  - unfold sendBinaryData, sendBinary, ws_send.
    rewrite Hconn, Hbytes, Hws; reflexivity.
  - unfold sendBinaryData, sendBinary, ws_send.
    rewrite Hconn, Hbytes, Hws; cbn [negb app exn_message new_Error].
    unfold new_StreamIndError.
    destruct (String.eqb_spec message EmptyString) as [Heq|_]; [contradiction|reflexivity].
Qed.

Lemma sendBinaryData_accounting_witness :
  exists frame : Buffer,
    Buffer_length frame = 14 + Buffer_length [1; 2; 3; 255; 0]
    /\ sendBinaryData sample_transport [1; 2; 3; 255; 0] "opus" sample_random 2000 None
       = mkOutcome
           (with_stats (with_lastActivity sample_transport 2000)
              (incr_audioSent (stats sample_transport)))
           [WsSend (BinaryFrame frame)] Resolved
    /\ sendBinaryData sample_transport [1; 2; 3; 255; 0] "opus" sample_random 2000
         (Some "socket hang up")
       = mkOutcome (with_stats sample_transport (incr_errors (stats sample_transport)))
           (WsSend (BinaryFrame frame)
              :: fire_onError sample_transport SEND_FAILED "socket hang up")
           (Rejected (mkException (Some SEND_FAILED) "socket hang up")).
Proof.
  apply (sendBinaryData_accounting sample_transport 1%nat [1; 2; 3; 255; 0] "opus"
           sample_random 2000 "socket hang up").
  - reflexivity.
  - reflexivity.
  - vm_compute; discriminate.
  - discriminate.
Defined.

Lemma Qgt_bool_false (a b : Q) : (a <= b)%Q -> Qgt_bool a b = false.
Proof.
  intros Hle; unfold Qgt_bool.
  apply Qle_bool_iff in Hle.
  now rewrite Hle.
Qed.

(** X3.  On a connected transport that holds a socket, a signal whose JSON
    text fits in [maxMessageSize] is handed to the socket once, as the text
    of the signal with its source filled in.  When the socket reports no
    error the promise resolves, [signalsSent] grows by one and
    [lastActivity] becomes the time of the send; when it reports an error
    the promise is rejected with [SEND_FAILED], [errors] grows by one, the
    error callback is told, and [signalsSent] and [lastActivity] keep their
    values. *)
Theorem sendSignal_accounting
    (JSON_stringify : Json -> string) (byteLength : string -> Z)
    (t : WebSocketTransport) (sock : WebSocket) (signal : Signal.t) (now : Z)
    (message : string) :
  connected t = true ->
  ws t = Some sock ->
  (inject_Z (byteLength (Signal_toJSON JSON_stringify (autofill_source t signal)))
   <= maxMessageSize (config t))%Q ->
  message <> EmptyString ->
  let text := Signal_toJSON JSON_stringify (autofill_source t signal) in
  sendSignal JSON_stringify byteLength t signal now None
  = (mkOutcome (with_stats (with_lastActivity t now) (incr_signalsSent (stats t)))
       [WsSend (TextFrame text)] Resolved,
     autofill_source t signal)
  /\ sendSignal JSON_stringify byteLength t signal now (Some message)
     = (mkOutcome (with_stats t (incr_errors (stats t)))
          (WsSend (TextFrame text) :: fire_onError t SEND_FAILED message)
          (Rejected (mkException (Some SEND_FAILED) message)),
        autofill_source t signal).
Proof.
  intros Hconn Hws Hsize Hmessage text; subst text.
  unfold sendSignal, sendMessage, ws_send.
  rewrite Hconn, Hws, (Qgt_bool_false _ _ Hsize); cbn [negb app exn_message new_Error].
  unfold new_StreamIndError.
  destruct (String.eqb_spec message EmptyString) as [Heq|_]; [contradiction|].
  split; reflexivity.
Qed.

Lemma sendSignal_accounting_witness :
  let text := Signal_toJSON stringify_plain (autofill_source sample_transport sample_signal) in
  sendSignal stringify_plain ascii_byteLength sample_transport sample_signal 2000 None
  = (mkOutcome
       (with_stats (with_lastActivity sample_transport 2000)
          (incr_signalsSent (stats sample_transport)))
       [WsSend (TextFrame text)] Resolved,
     autofill_source sample_transport sample_signal)
  /\ sendSignal stringify_plain ascii_byteLength sample_transport sample_signal 2000
       (Some "socket hang up")
     = (mkOutcome (with_stats sample_transport (incr_errors (stats sample_transport)))
          (WsSend (TextFrame text)
             :: fire_onError sample_transport SEND_FAILED "socket hang up")
          (Rejected (mkException (Some SEND_FAILED) "socket hang up")),
        autofill_source sample_transport sample_signal).
Proof.
  apply (sendSignal_accounting stringify_plain ascii_byteLength sample_transport 1%nat
           sample_signal 2000 "socket hang up").
  - reflexivity.
  - reflexivity.
  - vm_compute; discriminate.
  - discriminate.
Defined.

Local Ltac settle_kept :=
  cbn [after trace app writes fst];
  rewrite ?writes_app, ?writes_fire_onError;
  repeat split; cbn; unfold counters_total; cbn; lia.

(** X4.  Whatever the state, the input and the answer of the socket, a send
    changes nothing of the connection: the configuration, the socket, the
    connected flag, the reconnect count and flag, the timers, the connect
    time and the callbacks are the same after [sendBinaryData] and after
    [sendSignal].  No counter goes down, the five counters together grow by
    at most one, and at most one frame is handed to the socket. *)
Theorem sends_keep_the_connection
    (JSON_stringify : Json -> string) (byteLength : string -> Z)
    (t : WebSocketTransport) (data : Buffer) (dataType : string) (random : nat -> Q)
    (signal : Signal.t) (now : Z) (completion : option string) :
  let kept (out : Outcome) :=
    same_connection t (after out)
    /\ counters_grow (stats t) (stats (after out))
    /\ counters_total (stats (after out)) <= counters_total (stats t) + 1
    /\ (List.length (writes (trace out)) <= 1)%nat in
  kept (sendBinaryData t data dataType random now completion)
  /\ kept (fst (sendSignal JSON_stringify byteLength t signal now completion)).
Proof.
  cbv zeta; split.
  - unfold sendBinaryData, sendBinary, ws_send.
    destruct (connected t) eqn:Hconn; cbn [negb]; [|settle_kept].
    destruct (protocolData data dataType random) as [thrown|bytes]; [settle_kept|].
    destruct (ws t) as [sock|]; [|settle_kept].
    cbn [negb].
    destruct completion as [message|]; settle_kept.
  - unfold sendSignal, sendMessage, ws_send.
    destruct (connected t) eqn:Hconn; cbn [negb fst]; [|settle_kept].
    destruct (Qgt_bool _ _); [settle_kept|].
    destruct (ws t) as [sock|]; [|settle_kept].
    cbn [negb].
    destruct completion as [message|]; settle_kept.
Qed.

Lemma sends_keep_the_connection_aux
    (JSON_stringify : Json -> string) (byteLength : string -> Z)
    (t : WebSocketTransport) (signal : Signal.t) (now : Z) (completion : option string) :
  config (after (fst (sendSignal JSON_stringify byteLength t signal now completion))) = config t
  /\ connected (after (fst (sendSignal JSON_stringify byteLength t signal now completion)))
     = connected t.
Proof.
  unfold sendSignal, sendMessage, ws_send.
  destruct t as [cfg sock conn att act should hb rt ct c1 c2 c3 c4 c5 st]; cbn.
  destruct conn; cbn; [|now split].
  destruct (Qgt_bool _ _); cbn; [now split|].
  destruct sock as [sock|]; cbn; [|now split].
  destruct completion as [message|]; cbn; now split.
Qed.

Lemma fill_if_empty_again (field value : string) :
  fill_if_empty (fill_if_empty field value) value = fill_if_empty field value.
Proof.
  unfold fill_if_empty.
  destruct (String.eqb field EmptyString) eqn:Hfield; [|now rewrite Hfield].
  now destruct (String.eqb value EmptyString) eqn:Hvalue; rewrite ?Hvalue.
Qed.

(** X5.  On a connected transport [sendSignal] changes the signal it is
    given in its source only: a source field the caller filled in is kept,
    an empty [receptorId] becomes the device id, an empty [receptorTopic]
    the device type and an empty [generatedTime] the timestamp of the
    signal, whether or not the send succeeds.  Sending the object again
    leaves it as the first send left it. *)
Theorem sendSignal_fills_the_source
    (JSON_stringify : Json -> string) (byteLength : string -> Z)
    (t : WebSocketTransport) (signal : Signal.t) (now now' : Z)
    (completion completion' : option string) :
  connected t = true ->
  let sent := snd (sendSignal JSON_stringify byteLength t signal now completion) in
  let t' := after (fst (sendSignal JSON_stringify byteLength t signal now completion)) in
  Signal.uuid sent = Signal.uuid signal
  /\ Signal.type sent = Signal.type signal
  /\ Signal.timestamp sent = Signal.timestamp signal
  /\ Signal.payload sent = Signal.payload signal
  /\ (Signal.receptorId (Signal.source signal) <> EmptyString ->
      Signal.receptorId (Signal.source sent) = Signal.receptorId (Signal.source signal))
  /\ (Signal.receptorId (Signal.source signal) = EmptyString ->
      Signal.receptorId (Signal.source sent) = deviceId (config t))
  /\ (Signal.receptorTopic (Signal.source signal) <> EmptyString ->
      Signal.receptorTopic (Signal.source sent) = Signal.receptorTopic (Signal.source signal))
  /\ (Signal.receptorTopic (Signal.source signal) = EmptyString ->
      Signal.receptorTopic (Signal.source sent) = deviceType (config t))
  /\ (Signal.generatedTime (Signal.source signal) <> EmptyString ->
      Signal.generatedTime (Signal.source sent) = Signal.generatedTime (Signal.source signal))
  /\ (Signal.generatedTime (Signal.source signal) = EmptyString ->
      Signal.generatedTime (Signal.source sent) = Signal.timestamp signal)
  /\ snd (sendSignal JSON_stringify byteLength t' sent now' completion') = sent.
Proof.
  intros Hconn sent t'.
  assert (Hsent : sent = autofill_source t signal).
  { subst sent; unfold sendSignal; rewrite Hconn; cbn [negb].
    destruct (Qgt_bool _ _); [reflexivity|].
    now destruct (sendMessage _ _ _) as [tr [error|u]]. }
  assert (Hkept : config t' = config t /\ connected t' = true).
  { destruct (sends_keep_the_connection_aux JSON_stringify byteLength t signal now completion)
      as (Hcfg & Hc).
    subst t'; split; [exact Hcfg | now rewrite Hc]. }
  destruct Hkept as [Hcfg Hconn'].
  assert (Hfill : forall field, field <> EmptyString -> forall value,
                    fill_if_empty field value = field).
  { intros field Hfield value; unfold fill_if_empty.
    now destruct (String.eqb_spec field EmptyString). }
  rewrite Hsent; cbn [autofill_source Signal.uuid Signal.type Signal.timestamp
                       Signal.payload Signal.source Signal.receptorId
                       Signal.receptorTopic Signal.generatedTime].
  repeat split; try (intros Hfield; first [now apply Hfill | now rewrite Hfield]).
  assert (Hagain : snd (sendSignal JSON_stringify byteLength t' (autofill_source t signal)
                          now' completion')
                   = autofill_source t' (autofill_source t signal)).
  { unfold sendSignal; rewrite Hconn'; cbn [negb].
    destruct (Qgt_bool _ _); [reflexivity|].
    now destruct (sendMessage _ _ _) as [tr [error|u]]. }
  rewrite Hagain; unfold autofill_source; rewrite Hcfg.
  cbn [Signal.uuid Signal.type Signal.timestamp Signal.payload Signal.source
       Signal.receptorId Signal.receptorTopic Signal.generatedTime].
  now rewrite !fill_if_empty_again.
Qed.

Lemma sendSignal_fills_the_source_witness :
  let sent :=
    snd (sendSignal stringify_plain ascii_byteLength sample_transport sample_signal 2000 None) in
  let t' :=
    after (fst (sendSignal stringify_plain ascii_byteLength sample_transport sample_signal
                  2000 None)) in
  Signal.uuid sent = Signal.uuid sample_signal
  /\ Signal.type sent = Signal.type sample_signal
  /\ Signal.timestamp sent = Signal.timestamp sample_signal
  /\ Signal.payload sent = Signal.payload sample_signal
  /\ (Signal.receptorId (Signal.source sample_signal) <> EmptyString ->
      Signal.receptorId (Signal.source sent) = Signal.receptorId (Signal.source sample_signal))
  /\ (Signal.receptorId (Signal.source sample_signal) = EmptyString ->
      Signal.receptorId (Signal.source sent) = deviceId (config sample_transport))
  /\ (Signal.receptorTopic (Signal.source sample_signal) <> EmptyString ->
      Signal.receptorTopic (Signal.source sent)
      = Signal.receptorTopic (Signal.source sample_signal))
  /\ (Signal.receptorTopic (Signal.source sample_signal) = EmptyString ->
      Signal.receptorTopic (Signal.source sent) = deviceType (config sample_transport))
  /\ (Signal.generatedTime (Signal.source sample_signal) <> EmptyString ->
      Signal.generatedTime (Signal.source sent)
      = Signal.generatedTime (Signal.source sample_signal))
  /\ (Signal.generatedTime (Signal.source sample_signal) = EmptyString ->
      Signal.generatedTime (Signal.source sent) = Signal.timestamp sample_signal)
  /\ snd (sendSignal stringify_plain ascii_byteLength t' sent 3000 (Some "socket hang up"))
     = sent.
Proof.
  apply (sendSignal_fills_the_source stringify_plain ascii_byteLength sample_transport
           sample_signal 2000 3000 None (Some "socket hang up")).
  reflexivity.
Defined.

(** ** Receiving *)

Lemma string_of_uint_digits (d : Decimal.uint) :
  all_digits (NilEmpty.string_of_uint d) = true.
Proof. induction d; simpl; auto. Qed.

Lemma string_of_nat_digits (n : nat) : all_digits (string_of_nat n) = true.
Proof.
  unfold string_of_nat, NilZero.string_of_uint.
  destruct (Nat.to_uint n) eqn:Hn; try reflexivity;
    rewrite <- Hn at 1; rewrite Hn; apply (string_of_uint_digits _).
Qed.

(** A key that is not written in digits only is no index. *)
Lemma at_index_no_index {A : Type} (l : list A) (key : string) :
  all_digits key = false -> at_index l key = None.
Proof.
  intros Hkey; unfold at_index.
  assert (Hfind : forall indices,
             find (fun i => String.eqb (string_of_nat i) key) indices = None).
  { induction indices as [|i rest IH]; [reflexivity|]; simpl.
    destruct (String.eqb_spec (string_of_nat i) key) as [Heq|_]; [|exact IH].
    rewrite <- Heq, string_of_nat_digits in Hkey; discriminate. }
  now rewrite Hfind.
Qed.

(** Reading [name] or [id] off a value that is neither [null] nor an object
    gives [undefined]. *)
Lemma get_property_of_other (data : Json) (key : string) :
  all_digits key = false -> key <> "length" ->
  data <> JNull -> (forall members, data <> JObject members) ->
  get_property data key = inr None.
Proof.
  intros Hkey Hlength Hnull Hobject.
  destruct data as [|b|q|str|items|members]; cbn [get_property];
    try reflexivity; try congruence.
  - destruct (String.eqb_spec key "length"); [contradiction|].
    now rewrite at_index_no_index.
  - destruct (String.eqb_spec key "length"); [contradiction|].
    now rewrite at_index_no_index.
Qed.

(** X6.  How [handleTextMessage] sorts an inbound text, whatever
    [JSON.parse] is.  A text on which [JSON.parse] throws, and one it reads
    as [null], count as one error and are reported to the error callback as
    [INTERNAL_ERROR]; a text it reads as an object whose [name] and [id] are
    both truthy is decoded to a directive with that name and id, counted in
    [directivesReceived], and handed to the directive callback when one is
    set and [enableDirectiveReceiving] is true (it is counted either way);
    every other value is ignored, with no count and no callback. *)
Theorem handleTextMessage_sorts
    (JSON_parse : string -> option Json)
    (t : WebSocketTransport) (message : string) (directiveNow : string) :
  let handled := handleTextMessage_with JSON_parse t message directiveNow in
  ((JSON_parse message = None \/ JSON_parse message = Some JNull) ->
   handled
   = (with_stats t (incr_errors (stats t)),
      call_onError t INTERNAL_ERROR "Invalid JSON message"))
  /\ (forall members name id,
        JSON_parse message = Some (JObject members) ->
        get_member members "name" = Some name -> truthy name = true ->
        get_member members "id" = Some id -> truthy id = true ->
        exists directive : Directive.t,
          Directive.fromJSON_with JSON_parse message directiveNow = inr directive
          /\ Directive.name directive = name
          /\ Directive.id directive = id
          /\ handled
             = (with_stats t (incr_directivesReceived (stats t)),
                match onDirective t with
                | Some cb =>
                    if enableDirectiveReceiving (config t)
                    then [CallOnDirective cb directive]
                    else []
                | None => []
                end))
  /\ (forall data,
        JSON_parse message = Some data ->
        data <> JNull ->
        (forall members,
            data = JObject members ->
            js_truthy (get_member members "name") && js_truthy (get_member members "id")
            = false) ->
        handled = (t, [])).
Proof.
  cbv zeta; split; [|split].
  - intros [Hparse|Hparse]; unfold handleTextMessage_with; now rewrite Hparse.
  - intros members name id Hparse Hname Hname_truthy Hid Hid_truthy.
    unfold handleTextMessage_with, Directive.fromJSON_with.
    rewrite Hparse; cbn [get_property].
    rewrite Hname, Hid; cbn [js_truthy or_else].
    rewrite Hname_truthy, Hid_truthy; cbn [andb].
    eexists; split; [reflexivity|].
    split; [reflexivity|]; split; reflexivity.
  - intros data Hparse Hnull Hobject.
    unfold handleTextMessage_with; rewrite Hparse.
    destruct data as [|b|q|str|items|members];
      try (rewrite !get_property_of_other by (reflexivity || discriminate); reflexivity).
    + congruence.
    + cbn [get_property]; now rewrite (Hobject members eq_refl).
Qed.

Lemma handleTextMessage_sorts_witness :
  (handleTextMessage sample_transport "not json" "2026-01-01T00:00:00.000Z"
   = (with_stats sample_transport (incr_errors (stats sample_transport)),
      call_onError sample_transport INTERNAL_ERROR "Invalid JSON message"))
  /\ (exists directive : Directive.t,
        Directive.fromJSON motor_move_text "2026-01-01T00:00:00.000Z" = inr directive
        /\ Directive.name directive = JString "motor.move"
        /\ Directive.id directive = JString "d1"
        /\ handleTextMessage sample_transport motor_move_text "2026-01-01T00:00:00.000Z"
           = (with_stats sample_transport (incr_directivesReceived (stats sample_transport)),
              match onDirective sample_transport with
              | Some cb =>
                  if enableDirectiveReceiving (config sample_transport)
                  then [CallOnDirective cb directive]
                  else []
              | None => []
              end))
  /\ handleTextMessage sample_transport heartbeat_text "2026-01-01T00:00:00.000Z"
     = (sample_transport, []).
Proof.
  split; [|split].
  - apply (proj1 (handleTextMessage_sorts JSON_parse sample_transport "not json"
                    "2026-01-01T00:00:00.000Z")).
    left; vm_compute; reflexivity.
  - apply (proj1 (proj2 (handleTextMessage_sorts JSON_parse sample_transport motor_move_text
                           "2026-01-01T00:00:00.000Z"))
             [("id", JString "d1"); ("name", JString "motor.move");
              ("parameters", JObject [("speed", JString "42"); ("enabled", JString "true")])]);
      reflexivity.
  - apply (proj2 (proj2 (handleTextMessage_sorts JSON_parse sample_transport heartbeat_text
                           "2026-01-01T00:00:00.000Z"))
             (JObject [("type", JString "ping")])).
    + vm_compute; reflexivity.
    + discriminate.
    + intros members Hmembers; injection Hmembers as <-; reflexivity.
Defined.

(** Every action of a list that is given element by element has a property
    that holds by computation. *)
Local Ltac each_action :=
  cbn; intros;
  repeat match goal with
         | H : In _ _ |- _ => cbn in H
         | H : _ \/ _ |- _ => destruct H as [<-|H]; [first [reflexivity | exact I]|]
         end;
  contradiction.

(** X7.  Whatever arrives, text or binary, well formed or not, ['message']
    stamps [lastActivity] and changes nothing of the connection: the
    socket, the connected flag, the reconnect state, the timers and the
    callbacks stay.  No counter goes down, the counters together grow by at
    most one, and nothing is written to the socket: a bad message is
    counted and reported, never answered and never a reason to drop the
    connection. *)
Theorem on_message_keeps_the_connection
    (t : WebSocketTransport) (now : Z) (data : Frame) (directiveNow : string) :
  let t' := fst (on_message t now data directiveNow) in
  lastActivity t' = now
  /\ same_connection t t'
  /\ counters_grow (stats t) (stats t')
  /\ counters_total (stats t') <= counters_total (stats t) + 1
  /\ (forall a, In a (snd (on_message t now data directiveNow)) ->
      match a with
      | Did (CallOnError _ code _) => code = INTERNAL_ERROR
      | CallOnDirective _ _ | CallOnAudioData _ _ => True
      | _ => False
      end).
Proof.
  destruct t as [cfg sock conn att act should hb rt ct c1 c2 c3 c4 c5 st].
  destruct data as [text|bytes]; cbv zeta.
  - unfold on_message, handleTextMessage, handleTextMessage_with, call_onError, fire_onError;
      cbn.
    destruct (JSON_parse text) as [data|]; cbn.
    2: { repeat split; cbn; unfold counters_total; cbn; try lia.
         destruct c4; each_action. }
    destruct (get_property data "name") as [thrown|name]; cbn.
    { repeat split; cbn; unfold counters_total; cbn; try lia.
      destruct c4; each_action. }
    destruct (get_property data "id") as [thrown|id]; cbn.
    { repeat split; cbn; unfold counters_total; cbn; try lia.
      destruct c4; each_action. }
    destruct (js_truthy name && js_truthy id); cbn.
    2: { repeat split; cbn; unfold counters_total; cbn; lia. }
    destruct (Directive.fromJSON_with JSON_parse text directiveNow) as [thrown|directive]; cbn.
    { repeat split; cbn; unfold counters_total; cbn; try lia.
      destruct c4; each_action. }
    repeat split; cbn; unfold counters_total; cbn; try lia.
    destruct c2; [destruct (enableDirectiveReceiving cfg)|]; each_action.
  - unfold on_message; cbn.
    repeat split; cbn; unfold counters_total; cbn; try lia.
    destruct c3; each_action.
Qed.

(** X8.  The receive path decodes nothing.  The frame that [sendBinaryData]
    hands to the socket, when it comes in at a peer as a binary message, is
    given to the audio callback byte for byte, with its 14-byte header and
    its mask: what the callback gets is 14 bytes longer than the payload
    that was sent. *)
Theorem inbound_binary_is_not_decoded
    (sender receiver : WebSocketTransport) (sock : WebSocket) (data : Buffer)
    (dataType : string) (random : nat -> Q) (now now' : Z) (completion : option string)
    (cb : Callback) (directiveNow : string) :
  connected sender = true ->
  ws sender = Some sock ->
  Buffer_length data <= 65535 ->
  onAudioData receiver = Some cb ->
  exists frame : Buffer,
    writes (trace (sendBinaryData sender data dataType random now completion))
    = [BinaryFrame frame]
    /\ Buffer_length frame = 14 + Buffer_length data
    /\ on_message receiver now' (BinaryFrame frame) directiveNow
       = (with_stats (with_lastActivity receiver now')
            (incr_audioReceived (stats receiver)),
          [CallOnAudioData cb frame]).
Proof.
  intros Hconn Hws Hlen Hcb.
  pose proof (protocolData_within_limit data dataType random Hlen) as Hbytes.
  eexists; split;
    [exact (sendBinaryData_writes sender sock _ _ _ now completion _ Hconn Hws Hbytes)|].
  split.
  - unfold Buffer_length, Buffer_from.
    rewrite length_map, !length_app, length_map, xor_from_length.
    unfold new_maskKey; cbn [List.length map]; lia.
  - unfold on_message; cbn [onAudioData with_lastActivity].
    now rewrite Hcb.
Qed.

(** A peer with an audio callback. *)
Lemma inbound_binary_is_not_decoded_witness :
  exists frame : Buffer,
    writes (trace (sendBinaryData sample_transport [1; 2; 3] "opus" sample_random 2000 None))
    = [BinaryFrame frame]
    /\ Buffer_length frame = 14 + Buffer_length [1; 2; 3]
    /\ on_message (setAudioDataCallback sample_transport (UserCallback 7)) 2500
         (BinaryFrame frame) "2026-01-01T00:00:00.000Z"
       = (with_stats
            (with_lastActivity (setAudioDataCallback sample_transport (UserCallback 7)) 2500)
            (incr_audioReceived
               (stats (setAudioDataCallback sample_transport (UserCallback 7)))),
          [CallOnAudioData (UserCallback 7) frame]).
Proof.
  apply (inbound_binary_is_not_decoded sample_transport
           (setAudioDataCallback sample_transport (UserCallback 7)) 1%nat [1; 2; 3] "opus"
           sample_random 2000 2500 None (UserCallback 7) "2026-01-01T00:00:00.000Z").
  - reflexivity.
  - reflexivity.
  - vm_compute; discriminate.
  - reflexivity.
Defined.

(** ** Disconnecting, closing and retrying *)

Lemma startReconnect_retries (t : WebSocketTransport) (random : Q) (handle : Timeout) :
  ((maxReconnectAttempts (config t) <= 0)%Q
   \/ (inject_Z (reconnectAttempts t) < maxReconnectAttempts (config t))%Q) ->
  startReconnect t random handle
  = (set_reconnectTimer t (Some handle),
     [SetTimeout handle ReconnectAttempt (calculateBackoffDelay t random)]).
Proof.
  intros Hretry; unfold startReconnect.
  destruct Hretry as [Hunlimited|Hleft].
  - now rewrite (Qgt_bool_false _ _ Hunlimited).
  - destruct (Qle_bool (maxReconnectAttempts (config t)) (inject_Z (reconnectAttempts t)))
      eqn:Hle; [|now rewrite andb_false_r].
    apply Qle_bool_iff in Hle.
    exfalso; exact (Qlt_not_le _ _ Hleft Hle).
Qed.

Lemma startReconnect_gives_up (t : WebSocketTransport) (random : Q) (handle : Timeout) :
  (0 < maxReconnectAttempts (config t))%Q ->
  (maxReconnectAttempts (config t) <= inject_Z (reconnectAttempts t))%Q ->
  startReconnect t random handle = (t, []).
Proof.
  intros Hlimited Hused; unfold startReconnect.
  rewrite (Qgt_bool_true _ _ Hlimited).
  apply Qle_bool_iff in Hused.
  now rewrite Hused.
Qed.

(** Membership in a list of actions that is given piece by piece. *)
Local Ltac in_cases :=
  unfold call_onClose, call_onConnected, call_onError, fire_onError, clear_timer in *;
  cbn in *;
  repeat match goal with
         | H : In _ (_ ++ _) |- _ => apply in_app_or in H; destruct H as [H|H]
         | H : In _ (match ?o with _ => _ end) |- _ => destruct o; cbn in H
         | H : In _ (_ :: _) |- _ => destruct H as [H|H]; [discriminate H|]
         | H : In _ [] |- _ => contradiction H
         | H : False |- _ => contradiction H
         | H : _ \/ _ |- _ => destruct H as [H|H]; [discriminate H|]
         end.

(** X9.  [disconnect()] is final.  Whatever the state, after it the
    transport is not connected, holds no socket and no timer, will not
    reconnect, and has the counters and the reconnect count it had.  What
    comes later does nothing to it: the ['close'] event of the socket it
    closed, a failed keepalive, a reconnect timer or a heartbeat timer that
    still fires change no field and arm no timer; a second [disconnect()]
    changes no field, closes no socket and clears no timer. *)
Theorem disconnect_is_final
    (t : WebSocketTransport) (code : Z) (reason : string) (random : Q)
    (handle timer : Timeout) (socket : string + WebSocket) (now : Z)
    (completion : option string) :
  let t' := fst (disconnect t) in
  (connected t' = false /\ ws t' = None /\ heartbeatTimer t' = None
   /\ reconnectTimer t' = None /\ shouldReconnect t' = false
   /\ stats t' = stats t /\ reconnectAttempts t' = reconnectAttempts t
   /\ config t' = config t)
  /\ fst (on_close t' code reason random handle) = t'
  /\ schedules_nothing (snd (on_close t' code reason random handle))
  /\ handleDisconnect t' random handle = (t', [])
  /\ reconnectAttempt t' timer socket random handle = (t', [])
  /\ sendHeartbeat t' now completion handle = (t', [], false)
  /\ disconnect t'
     = (t', (call_onClose t' 1000 "Normal disconnection"
               ++ call_onConnected t' false "User disconnected")%list).
Proof.
  destruct t as [cfg sock conn att act should hb rt ct c1 c2 c3 c4 c5 st].
  cbv zeta; cbn.
  repeat split.
  intros h d Hin; in_cases.
Qed.

(** X10.  An unsolicited close.  When the socket of a connected transport
    closes, the transport becomes not connected, lets go of the socket and
    of the heartbeat timer, and keeps its counters and its reconnect count.
    If the caller has not disconnected and the attempts are unlimited or not
    used up, the reconnect timer is armed, with the delay
    [calculateBackoffDelay] computes; if the attempts are used up nothing
    is armed.  Handling the loss a second time (a failed
    keepalive after the close) does nothing. *)
Theorem unsolicited_close
    (t : WebSocketTransport) (code : Z) (reason : string) (random random' : Q)
    (handle handle' : Timeout) :
  connected t = true ->
  let t' := fst (on_close t code reason random handle) in
  let actions := snd (on_close t code reason random handle) in
  (connected t' = false /\ ws t' = None /\ heartbeatTimer t' = None
   /\ stats t' = stats t /\ reconnectAttempts t' = reconnectAttempts t
   /\ shouldReconnect t' = shouldReconnect t /\ config t' = config t)
  /\ (will_retry t ->
      reconnectTimer t' = Some handle
      /\ In (SetTimeout handle ReconnectAttempt (calculateBackoffDelay t random)) actions)
  /\ (gives_up t -> reconnectTimer t' = reconnectTimer t /\ schedules_nothing actions)
  /\ handleDisconnect t' random' handle' = (t', []).
Proof.
  intros Hconn t' actions.
  set (t1 := set_heartbeatTimer (set_ws (set_connected t false) None) None).
  assert (Hclose : on_close t code reason random handle
                   = (if shouldReconnect t then fst (startReconnect t1 random handle) else t1,
                      (call_onClose t code
                         (if String.eqb reason EmptyString then "Abnormal closure" else reason)
                         ++ (clear_timer (heartbeatTimer t)
                               ++ call_onConnected t false "Connection lost")
                         ++ (if shouldReconnect t
                             then snd (startReconnect t1 random handle) else []))%list)).
  { unfold on_close, handleDisconnect; rewrite Hconn; cbn [negb].
    fold t1; change (shouldReconnect t1) with (shouldReconnect t).
    destruct (shouldReconnect t);
      [destruct (startReconnect t1 random handle) as [t2 scheduled]; reflexivity|].
    now rewrite app_nil_r. }
  assert (Hdelay : calculateBackoffDelay t1 random = calculateBackoffDelay t random)
    by reflexivity.
  subst t' actions; rewrite Hclose; cbn [fst snd].
  assert (Hfields :
    forall t2, (t2 = t1 \/ t2 = set_reconnectTimer t1 (Some handle)) ->
      (connected t2 = false /\ ws t2 = None /\ heartbeatTimer t2 = None
       /\ stats t2 = stats t /\ reconnectAttempts t2 = reconnectAttempts t
       /\ shouldReconnect t2 = shouldReconnect t /\ config t2 = config t)
      /\ handleDisconnect t2 random' handle' = (t2, [])).
  { intros t2 [->| ->]; repeat split. }
  assert (Hstate :
    (if shouldReconnect t then fst (startReconnect t1 random handle) else t1) = t1
    \/ (if shouldReconnect t then fst (startReconnect t1 random handle) else t1)
       = set_reconnectTimer t1 (Some handle)).
  { destruct (shouldReconnect t); [|now left].
    unfold startReconnect; destruct (_ && _); [now left | now right]. }
  destruct (Hfields _ Hstate) as [Hkept Hagain].
  split; [exact Hkept|]; split; [|split; [|exact Hagain]].
  - intros [Hshould Hleft].
    rewrite Hshould, (startReconnect_retries t1 random handle Hleft), Hdelay.
    cbn [fst snd]; split; [reflexivity|].
    apply in_or_app; right; apply in_or_app; right; now left.
  - intros Hgives.
    assert (Hnone :
      (if shouldReconnect t then startReconnect t1 random handle else (t1, [])) = (t1, [])).
    { destruct Hgives as [Hshould|[Hlimited Hused]]; [now rewrite Hshould|].
      destruct (shouldReconnect t); [|reflexivity].
      exact (startReconnect_gives_up t1 random handle Hlimited Hused). }
    assert (Hfst : (if shouldReconnect t then fst (startReconnect t1 random handle) else t1)
                   = t1)
      by (destruct (shouldReconnect t); [now rewrite Hnone | reflexivity]).
    assert (Hsnd : (if shouldReconnect t then snd (startReconnect t1 random handle) else [])
                   = [])
      by (destruct (shouldReconnect t); [now rewrite Hnone | reflexivity]).
    rewrite Hfst, Hsnd; split; [reflexivity|].
    intros h d Hin; in_cases.
Qed.

Lemma unsolicited_close_witness :
  let t' := fst (on_close sample_transport 1006 EmptyString (1 # 2) 9%nat) in
  let actions := snd (on_close sample_transport 1006 EmptyString (1 # 2) 9%nat) in
  (connected t' = false /\ ws t' = None /\ heartbeatTimer t' = None
   /\ stats t' = stats sample_transport
   /\ reconnectAttempts t' = reconnectAttempts sample_transport
   /\ shouldReconnect t' = shouldReconnect sample_transport
   /\ config t' = config sample_transport)
  /\ (will_retry sample_transport ->
      reconnectTimer t' = Some 9%nat
      /\ In (SetTimeout 9%nat ReconnectAttempt
               (calculateBackoffDelay sample_transport (1 # 2))) actions)
  /\ (gives_up sample_transport ->
      reconnectTimer t' = reconnectTimer sample_transport /\ schedules_nothing actions)
  /\ handleDisconnect t' (1 # 3) 10%nat = (t', []).
Proof.
  apply (unsolicited_close sample_transport 1006 EmptyString (1 # 2) (1 # 3) 9%nat 10%nat).
  reflexivity.
Defined.

Lemma failed_round_effect (timer : Timeout) (sock : WebSocket) (random : Q) (handle : Timeout)
    (t : WebSocketTransport) :
  connected t = false ->
  shouldReconnect t = true ->
  let t' := failed_round timer sock random handle t in
  connected t' = false
  /\ shouldReconnect t' = true
  /\ config t' = config t
  /\ reconnectAttempts t' = reconnectAttempts t + 1
  /\ stats t' = incr_errors (stats t).
Proof.
  destruct t as [cfg so conn att act should hb rt ct c1 c2 c3 c4 c5 st].
  cbn; intros -> ->.
  unfold failed_round, reconnectAttempt, connect, on_timeout, startReconnect; cbn.
  destruct (_ && _); cbn; repeat split.
Qed.

(** X11.  Failed reconnects are counted one by one.  From a transport that
    lost its connection and may reconnect, after [k] rounds in which the
    reconnect timer fires, [connect] opens a socket and its timeout expires,
    [reconnectAttempts] has grown by [k] and [errors] by [k]; the transport
    is still not connected and still willing, and its configuration and the
    other counters are untouched.  With [maxReconnectAttempts = max > 0] and
    a count starting at 0, the retry after each of the first [max - 1]
    failures is armed, and after failure number [max] nothing more is
    armed; an ['open'] sets the count back to 0. *)
Theorem failed_reconnects_are_counted
    (k : nat) (timer : Timeout) (sock : WebSocket) (random : Q) (handle : Timeout)
    (t : WebSocketTransport) (activityNow connectNow : Z) :
  connected t = false ->
  shouldReconnect t = true ->
  let t' := failed_rounds k timer sock random handle t in
  (connected t' = false /\ shouldReconnect t' = true /\ config t' = config t
   /\ reconnectAttempts t' = reconnectAttempts t + Z.of_nat k
   /\ errors (stats t') = errors (stats t) + Z.of_nat k
   /\ signalsSent (stats t') = signalsSent (stats t)
   /\ audioSent (stats t') = audioSent (stats t)
   /\ directivesReceived (stats t') = directivesReceived (stats t)
   /\ audioReceived (stats t') = audioReceived (stats t))
  /\ (forall max : Z,
        0 < max ->
        (maxReconnectAttempts (config t) == inject_Z max)%Q ->
        reconnectAttempts t = 0 ->
        (Z.of_nat k < max ->
         snd (startReconnect t' random handle)
         = [SetTimeout handle ReconnectAttempt (calculateBackoffDelay t' random)])
        /\ (Z.of_nat k = max -> startReconnect t' random handle = (t', [])))
  /\ reconnectAttempts (fst (on_open t' timer activityNow connectNow handle)) = 0.
Proof.
  intros Hconn Hshould t'; subst t'.
  assert (Hrounds :
    let t' := failed_rounds k timer sock random handle t in
    connected t' = false /\ shouldReconnect t' = true /\ config t' = config t
    /\ reconnectAttempts t' = reconnectAttempts t + Z.of_nat k
    /\ errors (stats t') = errors (stats t) + Z.of_nat k
    /\ signalsSent (stats t') = signalsSent (stats t)
    /\ audioSent (stats t') = audioSent (stats t)
    /\ directivesReceived (stats t') = directivesReceived (stats t)
    /\ audioReceived (stats t') = audioReceived (stats t)).
  { revert t Hconn Hshould; induction k as [|k IH]; intros t Hconn Hshould.
    - cbn; repeat split; try assumption; lia.
    - destruct (failed_round_effect timer sock random handle t Hconn Hshould)
        as (Hc & Hs & Hcfg & Hatt & Hstats).
      specialize (IH _ Hc Hs); cbv zeta in IH.
      cbn [failed_rounds]; cbv zeta.
      destruct IH as (H1 & H2 & H3 & H4 & H5 & H6 & H7 & H8 & H9).
      rewrite H1, H2, H3, H4, H5, H6, H7, H8, H9, Hcfg, Hatt, Hstats, Nat2Z.inj_succ.
      repeat split;
        cbn [incr_errors errors signalsSent audioSent directivesReceived audioReceived];
        lia. }
  cbv zeta in Hrounds.
  destruct Hrounds as (H1 & H2 & H3 & H4 & Hrest).
  split; [repeat split; tauto|]; split; [|reflexivity].
  intros max Hmax Hlimit Hzero; split; intros Hk.
  - rewrite startReconnect_retries; [reflexivity|].
    right; rewrite H3, H4, Hzero, Hlimit, <- Zlt_Qlt; lia.
  - apply startReconnect_gives_up.
    + rewrite H3, Hlimit; change 0%Q with (inject_Z 0); rewrite <- Zlt_Qlt; lia.
    + rewrite H3, H4, Hzero, Hlimit, <- Zle_Qle; lia.
Qed.

Lemma failed_reconnects_are_counted_witness :
  let t' := failed_rounds 3 4%nat 5%nat (1 # 2) 6%nat limited_transport in
  (connected t' = false /\ shouldReconnect t' = true /\ config t' = config limited_transport
   /\ reconnectAttempts t' = reconnectAttempts limited_transport + Z.of_nat 3
   /\ errors (stats t') = errors (stats limited_transport) + Z.of_nat 3
   /\ signalsSent (stats t') = signalsSent (stats limited_transport)
   /\ audioSent (stats t') = audioSent (stats limited_transport)
   /\ directivesReceived (stats t') = directivesReceived (stats limited_transport)
   /\ audioReceived (stats t') = audioReceived (stats limited_transport))
  /\ (forall max : Z,
        0 < max ->
        (maxReconnectAttempts (config limited_transport) == inject_Z max)%Q ->
        reconnectAttempts limited_transport = 0 ->
        (Z.of_nat 3 < max ->
         snd (startReconnect t' (1 # 2) 6%nat)
         = [SetTimeout 6%nat ReconnectAttempt (calculateBackoffDelay t' (1 # 2))])
        /\ (Z.of_nat 3 = max -> startReconnect t' (1 # 2) 6%nat = (t', [])))
  /\ reconnectAttempts (fst (on_open t' 4%nat 7000 7000 6%nat)) = 0.
Proof.
  apply (failed_reconnects_are_counted 3 4%nat 5%nat (1 # 2) 6%nat limited_transport
           7000 7000).
  - reflexivity.
  - reflexivity.
Defined.

(** X12.  Counters outlive a connection, uptime does not.  Across a close
    and the next ['open'] the five counters keep their values.  While the
    transport is down [getStatistics] reports not connected and an uptime of
    zero; after the ['open'] at time [connectNow > 0] it reports connected,
    zero reconnect attempts, and at time [later] an uptime of
    [(later - connectNow) / 1000] seconds, counted from the new connect
    time and not from the old one. *)
Theorem statistics_across_a_reconnect
    (t : WebSocketTransport) (code : Z) (reason : string) (random : Q)
    (handle timer handle' : Timeout) (activityNow connectNow later : Z) :
  0 < connectNow ->
  let down := fst (on_close t code reason random handle) in
  let up := fst (on_open down timer activityNow connectNow handle') in
  (stats down = stats t /\ stats up = stats t)
  /\ (connected t = true ->
      Statistics.connected (getStatistics down later) = false
      /\ Statistics.uptimeSeconds (getStatistics down later) = 0%Q)
  /\ Statistics.connected (getStatistics up later) = true
  /\ Statistics.reconnectAttempts (getStatistics up later) = 0
  /\ Statistics.uptimeSeconds (getStatistics up later)
     = (inject_Z (later - connectNow) / 1000)%Q
  /\ Statistics.signalsSent (getStatistics up later) = signalsSent (stats t)
  /\ Statistics.audioSent (getStatistics up later) = audioSent (stats t)
  /\ Statistics.directivesReceived (getStatistics up later) = directivesReceived (stats t)
  /\ Statistics.audioReceived (getStatistics up later) = audioReceived (stats t)
  /\ Statistics.errors (getStatistics up later) = errors (stats t).
Proof.
  intros Hnow.
  assert (Hgt : (connectNow >? 0) = true) by (apply Z.gtb_lt; lia).
  destruct t as [cfg sock conn att act should hb rt ct c1 c2 c3 c4 c5 st].
  unfold on_close, handleDisconnect, startReconnect; cbn.
  destruct conn; cbn;
    [destruct should; cbn; [destruct (_ && _); cbn|]|];
    rewrite ?Hgt; repeat split; intros; try discriminate; reflexivity.
Qed.

Lemma statistics_across_a_reconnect_witness :
  let down := fst (on_close narrow_transport 1006 EmptyString (1 # 2) 9%nat) in
  let up := fst (on_open down 4%nat 7000 7001 6%nat) in
  (stats down = stats narrow_transport /\ stats up = stats narrow_transport)
  /\ (connected narrow_transport = true ->
      Statistics.connected (getStatistics down 9500) = false
      /\ Statistics.uptimeSeconds (getStatistics down 9500) = 0%Q)
  /\ Statistics.connected (getStatistics up 9500) = true
  /\ Statistics.reconnectAttempts (getStatistics up 9500) = 0
  /\ Statistics.uptimeSeconds (getStatistics up 9500) = (inject_Z (9500 - 7001) / 1000)%Q
  /\ Statistics.signalsSent (getStatistics up 9500) = signalsSent (stats narrow_transport)
  /\ Statistics.audioSent (getStatistics up 9500) = audioSent (stats narrow_transport)
  /\ Statistics.directivesReceived (getStatistics up 9500)
     = directivesReceived (stats narrow_transport)
  /\ Statistics.audioReceived (getStatistics up 9500) = audioReceived (stats narrow_transport)
  /\ Statistics.errors (getStatistics up 9500) = errors (stats narrow_transport).
Proof.
  apply (statistics_across_a_reconnect narrow_transport 1006 EmptyString (1 # 2)
           9%nat 4%nat 6%nat 7000 7001 9500).
  lia.
Defined.

(** X13.  A connect attempt of the caller that fails is not retried.  On a
    transport that is not connected, when [new WebSocket] throws the promise
    of [connect] is rejected with [CONNECTION_FAILED]; when the socket is
    opened and the timeout expires it is rejected with
    [CONNECTION_TIMEOUT], and when the socket reports an error, with
    [CONNECTION_FAILED].  Each time one error is counted, the transport
    stays not connected and no reconnect timer is armed; after a timeout
    the socket is still held, not closed, and its later ['close'] changes
    nothing and arms nothing either. *)
Theorem failed_connect_is_not_retried
    (t : WebSocketTransport) (traceId : string) (timer : Timeout) (sock : WebSocket)
    (message : string) (code : Z) (reason : string) (random : Q) (handle : Timeout) :
  connected t = false ->
  message <> EmptyString ->
  let thrown := connect t traceId timer (inl message) in
  let pending := connect t traceId timer (inr sock) in
  let timed_out := on_timeout (fst (fst pending)) in
  let errored := on_error (fst (fst pending)) timer message in
  (snd thrown = Some (mkException (Some CONNECTION_FAILED) message)
   /\ schedules_nothing (snd (fst thrown))
   /\ stats (fst (fst thrown)) = incr_errors (stats t)
   /\ connected (fst (fst thrown)) = false
   /\ reconnectTimer (fst (fst thrown)) = reconnectTimer t)
  /\ (snd pending = None
      /\ snd (fst pending)
         = [SetTimeout timer ConnectTimeout (connectionTimeoutMs (config t));
            OpenSocket (getWebSocketUrl (config t) traceId)]
      /\ stats (fst (fst pending)) = stats t)
  /\ (snd timed_out = mkException (Some CONNECTION_TIMEOUT) "CONNECTION_TIMEOUT"
      /\ schedules_nothing (snd (fst timed_out))
      /\ stats (fst (fst timed_out)) = incr_errors (stats t)
      /\ connected (fst (fst timed_out)) = false
      /\ ws (fst (fst timed_out)) = Some sock
      /\ reconnectTimer (fst (fst timed_out)) = reconnectTimer t
      /\ fst (on_close (fst (fst timed_out)) code reason random handle) = fst (fst timed_out)
      /\ schedules_nothing (snd (on_close (fst (fst timed_out)) code reason random handle)))
  /\ (snd errored = mkException (Some CONNECTION_FAILED) message
      /\ schedules_nothing (snd (fst errored))
      /\ stats (fst (fst errored)) = incr_errors (stats t)
      /\ connected (fst (fst errored)) = false
      /\ reconnectTimer (fst (fst errored)) = reconnectTimer t).
Proof.
  destruct t as [cfg so conn att act should hb rt ct c1 c2 c3 c4 c5 st].
  cbn; intros -> Hmessage; cbv zeta.
  unfold connect, on_timeout, on_error, on_close, handleDisconnect, new_StreamIndError; cbn.
  destruct (String.eqb_spec message EmptyString) as [Heq|_]; [contradiction|].
  repeat split; intros h d Hin; destruct c1, c4; in_cases.
Qed.

Lemma failed_connect_is_not_retried_witness :
  let thrown := connect idle_transport "trace-1" 4%nat (inl "getaddrinfo ENOTFOUND") in
  let pending := connect idle_transport "trace-1" 4%nat (inr 5%nat) in
  let timed_out := on_timeout (fst (fst pending)) in
  let errored := on_error (fst (fst pending)) 4%nat "getaddrinfo ENOTFOUND" in
  (snd thrown = Some (mkException (Some CONNECTION_FAILED) "getaddrinfo ENOTFOUND")
   /\ schedules_nothing (snd (fst thrown))
   /\ stats (fst (fst thrown)) = incr_errors (stats idle_transport)
   /\ connected (fst (fst thrown)) = false
   /\ reconnectTimer (fst (fst thrown)) = reconnectTimer idle_transport)
  /\ (snd pending = None
      /\ snd (fst pending)
         = [SetTimeout 4%nat ConnectTimeout (connectionTimeoutMs (config idle_transport));
            OpenSocket (getWebSocketUrl (config idle_transport) "trace-1")]
      /\ stats (fst (fst pending)) = stats idle_transport)
  /\ (snd timed_out = mkException (Some CONNECTION_TIMEOUT) "CONNECTION_TIMEOUT"
      /\ schedules_nothing (snd (fst timed_out))
      /\ stats (fst (fst timed_out)) = incr_errors (stats idle_transport)
      /\ connected (fst (fst timed_out)) = false
      /\ ws (fst (fst timed_out)) = Some 5%nat
      /\ reconnectTimer (fst (fst timed_out)) = reconnectTimer idle_transport
      /\ fst (on_close (fst (fst timed_out)) 1006 EmptyString (1 # 2) 6%nat)
         = fst (fst timed_out)
      /\ schedules_nothing
           (snd (on_close (fst (fst timed_out)) 1006 EmptyString (1 # 2) 6%nat)))
  /\ (snd errored = mkException (Some CONNECTION_FAILED) "getaddrinfo ENOTFOUND"
      /\ schedules_nothing (snd (fst errored))
      /\ stats (fst (fst errored)) = incr_errors (stats idle_transport)
      /\ connected (fst (fst errored)) = false
      /\ reconnectTimer (fst (fst errored)) = reconnectTimer idle_transport).
Proof.
  apply (failed_connect_is_not_retried idle_transport "trace-1" 4%nat 5%nat
           "getaddrinfo ENOTFOUND" 1006 EmptyString (1 # 2) 6%nat).
  - reflexivity.
  - discriminate.
Defined.

Lemma Qle_bool_false (a b : Q) : (b < a)%Q -> Qle_bool a b = false.
Proof.
  intros Hlt.
  destruct (Qle_bool a b) eqn:Hle; [|reflexivity].
  apply Qle_bool_iff in Hle.
  exfalso; exact (Qlt_not_le _ _ Hlt Hle).
Qed.

(** X14.  The keepalive is sent only when the connection has been idle.
    On a connected transport a heartbeat tick at time [now] always re-arms
    the timer for one more interval; it writes the text frame
    [heartbeat_text] only if [now - lastActivity] has reached
    [heartbeatIntervalMs], and writes nothing otherwise.  A ping is not
    activity: [lastActivity] and the counters stay as they were, so the next
    tick pings again unless something else was sent or received.  The tick
    reports a failure exactly when the socket fails the write.  A tick that
    fires after [disconnect] does nothing. *)
Theorem heartbeat_only_when_idle
    (t : WebSocketTransport) (sock : WebSocket) (now now' : Z)
    (completion completion' : option string) (handle handle' : Timeout) :
  connected t = true ->
  ws t = Some sock ->
  let interval := heartbeatIntervalMs (config t) in
  let tick := sendHeartbeat t now completion handle in
  let ping := Did (WsSend (TextFrame heartbeat_text)) in
  fst (fst tick) = set_heartbeatTimer t (Some handle)
  /\ lastActivity (fst (fst tick)) = lastActivity t
  /\ stats (fst (fst tick)) = stats t
  /\ ((inject_Z (now - lastActivity t) < interval)%Q ->
      snd (fst tick) = [SetTimeout handle HeartbeatTick interval] /\ snd tick = false)
  /\ ((interval <= inject_Z (now - lastActivity t))%Q ->
      snd (fst tick) = [ping; SetTimeout handle HeartbeatTick interval]
      /\ (snd tick = true <-> completion <> None)
      /\ (now <= now' ->
          snd (fst (sendHeartbeat (fst (fst tick)) now' completion' handle'))
          = [ping; SetTimeout handle' HeartbeatTick interval]))
  /\ sendHeartbeat (fst (disconnect t)) now completion handle = (fst (disconnect t), [], false).
Proof.
  destruct t as [cfg so conn att act should hb rt ct c1 c2 c3 c4 c5 st].
  cbn; intros -> ->; cbv zeta.
  unfold sendHeartbeat, sendMessage, ws_send; cbn.
  split; [destruct (Qle_bool _ _); [destruct completion|]; reflexivity|].
  split; [destruct (Qle_bool _ _); [destruct completion|]; reflexivity|].
  split; [destruct (Qle_bool _ _); [destruct completion|]; reflexivity|].
  split; [|split; [|reflexivity]].
  - intros Hrecent.
    rewrite (Qle_bool_false _ _ Hrecent); split; reflexivity.
  - intros Hidle.
    assert (Hlater : now <= now' ->
                     Qle_bool (heartbeatIntervalMs cfg) (inject_Z (now' - act)) = true).
    { intros Hle.
      apply Qle_bool_iff.
      apply Qle_trans with (inject_Z (now - act)); [assumption|].
      rewrite <- Zle_Qle; lia. }
    apply Qle_bool_iff in Hidle; rewrite Hidle.
    destruct completion; cbn; (split; [reflexivity|]); (split; [split; congruence|]);
      intros Hle; rewrite (Hlater Hle); destruct completion'; reflexivity.
Qed.

Lemma heartbeat_only_when_idle_witness :
  let t := narrow_transport in
  let interval := heartbeatIntervalMs (config t) in
  let tick := sendHeartbeat t (lastActivity t + 40000) None 6%nat in
  let ping := Did (WsSend (TextFrame heartbeat_text)) in
  fst (fst tick) = set_heartbeatTimer t (Some 6%nat)
  /\ lastActivity (fst (fst tick)) = lastActivity t
  /\ stats (fst (fst tick)) = stats t
  /\ ((inject_Z (lastActivity t + 40000 - lastActivity t) < interval)%Q ->
      snd (fst tick) = [SetTimeout 6%nat HeartbeatTick interval] /\ snd tick = false)
  /\ ((interval <= inject_Z (lastActivity t + 40000 - lastActivity t))%Q ->
      snd (fst tick) = [ping; SetTimeout 6%nat HeartbeatTick interval]
      /\ (snd tick = true <-> (None : option string) <> None)
      /\ (lastActivity t + 40000 <= lastActivity t + 80000 ->
          snd (fst (sendHeartbeat (fst (fst tick)) (lastActivity t + 80000) None 7%nat))
          = [ping; SetTimeout 7%nat HeartbeatTick interval]))
  /\ sendHeartbeat (fst (disconnect t)) (lastActivity t + 40000) None 6%nat
     = (fst (disconnect t), [], false).
Proof.
  apply (heartbeat_only_when_idle narrow_transport 1%nat
           (lastActivity narrow_transport + 40000) (lastActivity narrow_transport + 80000)
           None None 6%nat 7%nat).
  - reflexivity.
  - reflexivity.
Defined.

(** ** Every step of a transport *)

Local Ltac step_split :=
  repeat match goal with
  | |- context [match ?x with _ => _ end] =>
      lazymatch x with
      | context [match _ with _ => _ end] => fail
      | _ =>
          destruct x eqn:?;
          cbn -[JSON_parse Directive.fromJSON Directive.fromJSON_with get_property protocolData calculateBackoffDelay
                Qgt_bool Qle_bool getWebSocketUrl] in *
      end
  end.

Local Ltac step_done :=
  unfold bounded_effect, counters_grow, counters_total;
  cbn -[JSON_parse Directive.fromJSON Directive.fromJSON_with get_property protocolData calculateBackoffDelay
        Qgt_bool Qle_bool getWebSocketUrl];
  repeat split; intros; try reflexivity; try discriminate; try lia; auto;
  try (subst; cbn [negb] in *; discriminate).

Lemma step_bounded
    (JSON_stringify : Json -> string) (byteLength : string -> Z)
    (t t' : WebSocketTransport) :
  step JSON_stringify byteLength t t' -> bounded_effect t t'.
Proof.
  destruct 1;
    destruct t as [cfg sock conn att act should hb rt ct c1 c2 c3 c4 c5 [s1 s2 s3 s4 s5]];
    unfold connect, on_timeout, on_open, on_message, handleTextMessage,
      handleTextMessage_with, on_error, on_close,
      disconnect, sendSignal, sendBinaryData, sendMessage, sendBinary, ws_send, sendHeartbeat,
      handleDisconnect, reconnectAttempt, connect, startReconnect, startHeartbeat,
      setConnectionCallback, setDirectiveCallback, setAudioDataCallback, setErrorCallback,
      setCloseCallback;
    cbn -[JSON_parse Directive.fromJSON Directive.fromJSON_with get_property protocolData calculateBackoffDelay
          Qgt_bool Qle_bool getWebSocketUrl];
    step_split; step_done.
Qed.

Lemma run_reachable
    (JSON_stringify : Json -> string) (byteLength : string -> Z)
    (cfg : Config) (n : nat) (t t' : WebSocketTransport) :
  run JSON_stringify byteLength n t t' ->
  reachable JSON_stringify byteLength cfg t ->
  reachable JSON_stringify byteLength cfg t'.
Proof.
  induction 1 as [t|n t t' t'' _ IH Hstep]; intros Hreach; [assumption|].
  exact (reach_step _ _ _ _ _ (IH Hreach) Hstep).
Qed.

Lemma worn_transport_run :
  run stringify_plain ascii_byteLength 6 idle_transport worn_transport.
Proof.
  unfold worn_transport; cbv zeta.
  eapply run_step; [|apply step_reconnect].
  eapply run_step; [|apply step_close].
  eapply run_step; [|apply step_message].
  eapply run_step; [|apply step_message].
  eapply run_step; [|apply step_open].
  eapply run_step; [|apply step_connect].
  apply run_nil.
Qed.

(** X15.  Every state a transport goes through is well formed.  Starting
    from [new WebSocketTransport(cfg)], after any sequence of method calls,
    socket events, timer callbacks and [resetStatistics], in any order and
    with any inputs: the configuration is still [getConfigWithDefaults cfg],
    a transport that is not connected holds no heartbeat timer, and the
    reconnect count and the five counters are not negative, so
    [getStatistics] never reports a negative count. *)
Theorem reachable_states_are_well_formed
    (JSON_stringify : Json -> string) (byteLength : string -> Z)
    (cfg : Config) (t : WebSocketTransport) (now : Z) :
  reachable JSON_stringify byteLength cfg t ->
  transport_invariant cfg t
  /\ 0 <= Statistics.signalsSent (getStatistics t now)
  /\ 0 <= Statistics.audioSent (getStatistics t now)
  /\ 0 <= Statistics.directivesReceived (getStatistics t now)
  /\ 0 <= Statistics.audioReceived (getStatistics t now)
  /\ 0 <= Statistics.errors (getStatistics t now)
  /\ 0 <= Statistics.reconnectAttempts (getStatistics t now).
Proof.
  intros Hreach.
  assert (Hinv : transport_invariant cfg t).
  { induction Hreach as [|t t' _ IH Hstep|t _ IH].
    - unfold transport_invariant; cbn; repeat split; intros; try reflexivity; lia.
    - destruct (step_bounded _ _ _ _ Hstep) as (Hcfg & Hgrow & _ & Hatt & Hhb).
      destruct IH as (Icfg & Ihb & Iatt & I1 & I2 & I3 & I4 & I5).
      destruct Hgrow as (G1 & G2 & G3 & G4 & G5).
      unfold transport_invariant.
      rewrite Hcfg.
      repeat split; auto; lia.
    - destruct IH as (Icfg & Ihb & Iatt & _).
      unfold transport_invariant, resetStatistics.
      destruct t; cbn in *.
      repeat split; auto; lia. }
  split; [exact Hinv|].
  destruct Hinv as (_ & _ & Iatt & I1 & I2 & I3 & I4 & I5).
  unfold getStatistics; cbn.
  repeat split; assumption.
Qed.

Lemma reachable_states_are_well_formed_witness :
  reachable stringify_plain ascii_byteLength sample_config worn_transport
  /\ (transport_invariant sample_config worn_transport
      /\ 0 <= Statistics.signalsSent (getStatistics worn_transport 9000)
      /\ 0 <= Statistics.audioSent (getStatistics worn_transport 9000)
      /\ 0 <= Statistics.directivesReceived (getStatistics worn_transport 9000)
      /\ 0 <= Statistics.audioReceived (getStatistics worn_transport 9000)
      /\ 0 <= Statistics.errors (getStatistics worn_transport 9000)
      /\ 0 <= Statistics.reconnectAttempts (getStatistics worn_transport 9000)).
Proof.
  assert (Hreach : reachable stringify_plain ascii_byteLength sample_config worn_transport).
  { apply (run_reachable _ _ _ _ _ _ worn_transport_run).
    apply reach_new. }
  split; [exact Hreach|].
  exact (reachable_states_are_well_formed stringify_plain ascii_byteLength sample_config
           worn_transport 9000 Hreach).
Defined.

(** X16.  Statistics accumulate.  Over any [n] steps of a transport with no
    [resetStatistics] among them (sends, received frames, errors, closes,
    reconnects, [disconnect] and a new [connect]) no counter that
    [getStatistics] reports goes down, the five counters together grow by at
    most [n], and the configuration is unchanged: closing and reopening the
    connection never clears a counter. *)
Theorem statistics_accumulate
    (JSON_stringify : Json -> string) (byteLength : string -> Z)
    (n : nat) (t t' : WebSocketTransport) (now now' : Z) :
  run JSON_stringify byteLength n t t' ->
  config t' = config t
  /\ Statistics.signalsSent (getStatistics t now)
     <= Statistics.signalsSent (getStatistics t' now')
  /\ Statistics.audioSent (getStatistics t now)
     <= Statistics.audioSent (getStatistics t' now')
  /\ Statistics.directivesReceived (getStatistics t now)
     <= Statistics.directivesReceived (getStatistics t' now')
  /\ Statistics.audioReceived (getStatistics t now)
     <= Statistics.audioReceived (getStatistics t' now')
  /\ Statistics.errors (getStatistics t now) <= Statistics.errors (getStatistics t' now')
  /\ counters_total (stats t') <= counters_total (stats t) + Z.of_nat n.
Proof.
  unfold getStatistics; cbn.
  induction 1 as [t|n t t' t'' _ IH Hstep].
  - repeat split; lia.
  - destruct (step_bounded _ _ _ _ Hstep) as (Hcfg & Hgrow & Htotal & _).
    destruct Hgrow as (G1 & G2 & G3 & G4 & G5).
    destruct IH as (Icfg & I1 & I2 & I3 & I4 & I5 & Itotal).
    rewrite Nat2Z.inj_succ.
    repeat split; [congruence|lia..].
Qed.

Lemma statistics_accumulate_witness :
  config worn_transport = config idle_transport
  /\ Statistics.signalsSent (getStatistics idle_transport 0)
     <= Statistics.signalsSent (getStatistics worn_transport 9000)
  /\ Statistics.audioSent (getStatistics idle_transport 0)
     <= Statistics.audioSent (getStatistics worn_transport 9000)
  /\ Statistics.directivesReceived (getStatistics idle_transport 0)
     <= Statistics.directivesReceived (getStatistics worn_transport 9000)
  /\ Statistics.audioReceived (getStatistics idle_transport 0)
     <= Statistics.audioReceived (getStatistics worn_transport 9000)
  /\ Statistics.errors (getStatistics idle_transport 0)
     <= Statistics.errors (getStatistics worn_transport 9000)
  /\ counters_total (stats worn_transport)
     <= counters_total (stats idle_transport) + Z.of_nat 6.
Proof.
  exact (statistics_accumulate stringify_plain ascii_byteLength 6 idle_transport
           worn_transport 0 9000 worn_transport_run).
Defined.

(** ** The registry *)

Section StringMapFacts.
Context {V : Type}.
Implicit Types (m : list (string * V)) (k : string) (v : V).

Lemma StringMap_get_absent m k : StringMap.get m k = None <-> ~ In k (StringMap.keys m).
Proof.
  induction m as [|[k0 v0] rest IH]; cbn; [tauto|].
  destruct (String.eqb_spec k0 k) as [->|Hne].
  - split; [discriminate|]; intros Hnot; exfalso; apply Hnot; now left.
  - rewrite IH; tauto.
Qed.

Lemma StringMap_get_present m k : StringMap.get m k <> None <-> In k (StringMap.keys m).
Proof.
  induction m as [|[k0 v0] rest IH]; cbn; [tauto|].
  destruct (String.eqb_spec k0 k) as [->|Hne].
  - split; [now left|discriminate].
  - rewrite IH; tauto.
Qed.

Lemma StringMap_get_set_same m k v : StringMap.get (StringMap.set m k v) k = Some v.
Proof.
  induction m as [|[k0 v0] rest IH]; cbn.
  - now rewrite String.eqb_refl.
  - destruct (String.eqb_spec k0 k) as [->|Hne]; cbn.
    + now rewrite String.eqb_refl.
    + now apply String.eqb_neq in Hne; rewrite Hne.
Qed.

Lemma StringMap_get_set_other m k v k' :
  k' <> k -> StringMap.get (StringMap.set m k v) k' = StringMap.get m k'.
Proof.
  intros Hother.
  assert (Hne : String.eqb k k' = false) by (apply String.eqb_neq; congruence).
  induction m as [|[k0 v0] rest IH]; cbn.
  - now rewrite Hne.
  - destruct (String.eqb_spec k0 k) as [->|Hk0]; cbn; [now rewrite Hne|].
    now rewrite IH.
Qed.

Lemma StringMap_keys_set_present m k v :
  StringMap.get m k <> None -> StringMap.keys (StringMap.set m k v) = StringMap.keys m.
Proof.
  unfold StringMap.keys.
  induction m as [|[k0 v0] rest IH]; cbn; [congruence|].
  destruct (String.eqb_spec k0 k) as [->|Hne]; cbn; [reflexivity|].
  intros Hget; now rewrite (IH Hget).
Qed.

Lemma StringMap_set_fresh m k v :
  StringMap.get m k = None -> StringMap.set m k v = (m ++ [(k, v)])%list.
Proof.
  induction m as [|[k0 v0] rest IH]; cbn; [reflexivity|].
  destruct (String.eqb k0 k); [discriminate|].
  intros Hget; now rewrite (IH Hget).
Qed.

Lemma StringMap_delete_fresh m k v :
  StringMap.get m k = None -> StringMap.delete (m ++ [(k, v)])%list k = m.
Proof.
  induction m as [|[k0 v0] rest IH]; cbn.
  - now rewrite String.eqb_refl.
  - destruct (String.eqb k0 k); [discriminate|].
    intros Hget; now rewrite (IH Hget).
Qed.

Lemma StringMap_get_delete_other m k k' :
  k' <> k -> StringMap.get (StringMap.delete m k) k' = StringMap.get m k'.
Proof.
  intros Hother.
  induction m as [|[k0 v0] rest IH]; cbn; [reflexivity|].
  destruct (String.eqb_spec k0 k) as [->|Hne]; cbn.
  - assert (Hne : String.eqb k k' = false) by (apply String.eqb_neq; congruence).
    now rewrite Hne.
  - now rewrite IH.
Qed.

Lemma StringMap_keys_delete m k :
  NoDup (StringMap.keys m) ->
  NoDup (StringMap.keys (StringMap.delete m k))
  /\ ~ In k (StringMap.keys (StringMap.delete m k))
  /\ (forall k', In k' (StringMap.keys (StringMap.delete m k)) -> In k' (StringMap.keys m)).
Proof.
  induction m as [|[k0 v0] rest IH]; cbn; intros Hnodup.
  - repeat split; [constructor|tauto|tauto].
  - inversion Hnodup as [|? ? Hnotin Hrest]; subst.
    destruct (String.eqb_spec k0 k) as [->|Hne]; cbn.
    + repeat split; [assumption|assumption|tauto].
    + destruct (IH Hrest) as (Hnd & Hgone & Hsub).
      repeat split.
      * constructor; [|assumption].
        intros Hin; apply Hnotin; now apply Hsub.
      * intros [Heq|Hin]; [congruence|contradiction].
      * intros k' [Heq|Hin]; [now left|right; now apply Hsub].
Qed.
End StringMapFacts.

Lemma SDK_set_terminals_same (sdk : SDK) : SDK.set_terminals sdk (terminals sdk) = sdk.
Proof. now destruct sdk. Qed.

(** X17.  Every operation on one terminal refuses an id that is not
    registered in the same way: it returns [TERMINAL_NOT_FOUND], sets the
    last error to [Terminal <id> not found], does nothing to any socket,
    timer or callback, and leaves the registered terminals as they are.
    [isConnected] answers [false] and [getTerminalStatistics] answers
    [null]. *)
Theorem unknown_terminal_is_refused
    (JSON_stringify : Json -> string) (byteLength : string -> Z)
    (sdk : SDK) (terminalId traceId : string) (timer : Timeout) (socket : string + WebSocket)
    (signal : Signal.t) (data : Buffer) (dataType : string) (audioFormat : option string)
    (random : nat -> Q) (now : Z) (completion : option string) (fn : nat) :
  ~ In terminalId (getAllTerminals sdk) ->
  let refused := SDK.not_found sdk terminalId in
  (terminals refused = terminals sdk
   /\ SDK.getLastError refused = ("Terminal " ++ terminalId ++ " not found")%string)
  /\ SDK.unregisterTerminal sdk terminalId = (refused, TERMINAL_NOT_FOUND, [])
  /\ SDK.connect sdk terminalId traceId timer socket = (refused, [], Some TERMINAL_NOT_FOUND)
  /\ SDK.disconnect sdk terminalId = (refused, TERMINAL_NOT_FOUND, [])
  /\ SDK.sendSignal JSON_stringify byteLength sdk terminalId signal now completion
     = (refused, TERMINAL_NOT_FOUND, [], signal)
  /\ SDK.sendBinaryData sdk terminalId data dataType random now completion
     = (refused, TERMINAL_NOT_FOUND, [])
  /\ SDK.sendAudioData sdk terminalId data audioFormat random now completion
     = (refused, TERMINAL_NOT_FOUND, [])
  /\ SDK.setConnectionCallback sdk terminalId fn = (refused, TERMINAL_NOT_FOUND)
  /\ SDK.setDirectiveCallback sdk terminalId fn = (refused, TERMINAL_NOT_FOUND)
  /\ SDK.setAudioDataCallback sdk terminalId fn = (refused, TERMINAL_NOT_FOUND)
  /\ SDK.setErrorCallback sdk terminalId fn = (refused, TERMINAL_NOT_FOUND)
  /\ SDK.setCloseCallback sdk terminalId fn = (refused, TERMINAL_NOT_FOUND)
  /\ SDK.isConnected sdk terminalId = false
  /\ SDK.getTerminalStatistics sdk terminalId now = None.
Proof.
  intros Habsent; cbv zeta.
  apply StringMap_get_absent in Habsent.
  unfold SDK.unregisterTerminal, SDK.connect, SDK.disconnect, SDK.sendSignal,
    SDK.sendAudioData, SDK.sendBinaryData, SDK.setConnectionCallback,
    SDK.setDirectiveCallback, SDK.setAudioDataCallback, SDK.setErrorCallback,
    SDK.setCloseCallback, SDK.set_callback, SDK.isConnected, SDK.getTerminalStatistics.
  rewrite Habsent.
  repeat split.
Qed.

Lemma unknown_terminal_is_refused_witness :
  let refused := SDK.not_found one_terminal_sdk "terminal-2" in
  (terminals refused = terminals one_terminal_sdk
   /\ SDK.getLastError refused = ("Terminal " ++ "terminal-2" ++ " not found")%string)
  /\ SDK.unregisterTerminal one_terminal_sdk "terminal-2" = (refused, TERMINAL_NOT_FOUND, [])
  /\ SDK.connect one_terminal_sdk "terminal-2" "trace-1" 4%nat (inr 5%nat)
     = (refused, [], Some TERMINAL_NOT_FOUND)
  /\ SDK.disconnect one_terminal_sdk "terminal-2" = (refused, TERMINAL_NOT_FOUND, [])
  /\ SDK.sendSignal stringify_plain ascii_byteLength one_terminal_sdk "terminal-2"
       sample_signal 2000 None
     = (refused, TERMINAL_NOT_FOUND, [], sample_signal)
  /\ SDK.sendBinaryData one_terminal_sdk "terminal-2" [1; 2; 3] "opus" sample_random 2000 None
     = (refused, TERMINAL_NOT_FOUND, [])
  /\ SDK.sendAudioData one_terminal_sdk "terminal-2" [1; 2; 3] None sample_random 2000 None
     = (refused, TERMINAL_NOT_FOUND, [])
  /\ SDK.setConnectionCallback one_terminal_sdk "terminal-2" 7%nat
     = (refused, TERMINAL_NOT_FOUND)
  /\ SDK.setDirectiveCallback one_terminal_sdk "terminal-2" 7%nat = (refused, TERMINAL_NOT_FOUND)
  /\ SDK.setAudioDataCallback one_terminal_sdk "terminal-2" 7%nat = (refused, TERMINAL_NOT_FOUND)
  /\ SDK.setErrorCallback one_terminal_sdk "terminal-2" 7%nat = (refused, TERMINAL_NOT_FOUND)
  /\ SDK.setCloseCallback one_terminal_sdk "terminal-2" 7%nat = (refused, TERMINAL_NOT_FOUND)
  /\ SDK.isConnected one_terminal_sdk "terminal-2" = false
  /\ SDK.getTerminalStatistics one_terminal_sdk "terminal-2" 2000 = None.
Proof.
  apply (unknown_terminal_is_refused stringify_plain ascii_byteLength one_terminal_sdk
           "terminal-2" "trace-1" 4%nat (inr 5%nat) sample_signal [1; 2; 3] "opus" None
           sample_random 2000 None 7%nat).
  cbn; intros [Heq|[]]; discriminate.
Defined.

(** X18.  Registering an id that is not yet registered returns [OK] and
    adds the id after the ones already there.  The new terminal is not
    connected, all its statistics are zero, and the other terminals are what
    they were.  Unregistering it at once returns [OK], closes nothing and
    gives back the registry as it was before the registration. *)
Theorem register_then_unregister
    (sdk : SDK) (terminalId : string) (config : Config) (now : Z) :
  ~ In terminalId (getAllTerminals sdk) ->
  let registered := fst (registerTerminal sdk terminalId config) in
  snd (registerTerminal sdk terminalId config) = OK
  /\ getAllTerminals registered = (getAllTerminals sdk ++ [terminalId])%list
  /\ lastError registered = lastError sdk
  /\ SDK.isConnected registered terminalId = false
  /\ SDK.getConnectedTerminals registered = SDK.getConnectedTerminals sdk
  /\ SDK.getTerminalStatistics registered terminalId now
     = Some (Statistics.make 0 0 0 0 0 false 0%Q 0)
  /\ (forall other : string,
        other <> terminalId ->
        StringMap.get (terminals registered) other = StringMap.get (terminals sdk) other)
  /\ SDK.unregisterTerminal registered terminalId = (sdk, OK, []).
Proof.
  intros Habsent; cbv zeta.
  apply StringMap_get_absent in Habsent.
  unfold registerTerminal, StringMap.has, getAllTerminals, SDK.isConnected,
    SDK.getConnectedTerminals, SDK.getTerminalStatistics, SDK.unregisterTerminal.
  rewrite Habsent; cbn [fst snd terminals lastError].
  rewrite StringMap_get_set_same.
  set (transport := apply_global _ _ _ _).
  assert (Hnew : connected transport = false /\ stats transport = mkStats 0 0 0 0 0
                 /\ connectTime transport = 0 /\ reconnectAttempts transport = 0).
  { subst transport; unfold apply_global.
    destruct (globalConnectionCallback sdk), (globalDirectiveCallback sdk),
      (globalErrorCallback sdk), (globalCloseCallback sdk); cbn; repeat split. }
  destruct Hnew as (Hconn & Hstats & Htime & Hatt).
  rewrite (StringMap_set_fresh _ _ _ Habsent).
  repeat split.
  - unfold StringMap.keys; now rewrite map_app.
  - cbn [Terminal.transport]; unfold isConnected; exact Hconn.
  - rewrite filter_app, map_app; cbn [filter snd Terminal.transport].
    unfold isConnected at 2; rewrite Hconn; cbn.
    now rewrite app_nil_r.
  - unfold getStatistics; cbn [Terminal.transport].
    now rewrite Hconn, Hstats, Hatt.
  - intros other Hother.
    rewrite <- (StringMap_set_fresh _ _ (Terminal.make config transport) Habsent).
    now apply StringMap_get_set_other.
  - cbn [Terminal.transport]; unfold isConnected; rewrite Hconn.
    unfold SDK.set_terminals; cbn.
    rewrite (StringMap_delete_fresh _ _ _ Habsent).
    now destruct sdk.
Qed.

Lemma register_then_unregister_witness :
  let registered := fst (registerTerminal one_terminal_sdk "terminal-2" sample_config) in
  snd (registerTerminal one_terminal_sdk "terminal-2" sample_config) = OK
  /\ getAllTerminals registered = (getAllTerminals one_terminal_sdk ++ ["terminal-2"])%list
  /\ lastError registered = lastError one_terminal_sdk
  /\ SDK.isConnected registered "terminal-2" = false
  /\ SDK.getConnectedTerminals registered = SDK.getConnectedTerminals one_terminal_sdk
  /\ SDK.getTerminalStatistics registered "terminal-2" 2000
     = Some (Statistics.make 0 0 0 0 0 false 0%Q 0)
  /\ (forall other : string,
        other <> "terminal-2" ->
        StringMap.get (terminals registered) other
        = StringMap.get (terminals one_terminal_sdk) other)
  /\ SDK.unregisterTerminal registered "terminal-2" = (one_terminal_sdk, OK, []).
Proof.
  apply (register_then_unregister one_terminal_sdk "terminal-2" sample_config 2000).
  cbn; intros [Heq|[]]; discriminate.
Defined.

Lemma StreamIndError_message (code : ErrorCode) (message : option string) :
  exn_message (new_StreamIndError code message) <> EmptyString.
Proof.
  unfold new_StreamIndError; cbn.
  destruct message as [m|].
  - destruct (String.eqb_spec m EmptyString) as [_|Hne]; [|exact Hne].
    destruct code; discriminate.
  - destruct code; discriminate.
Qed.

Lemma StreamIndError_code (code : ErrorCode) (message : option string) (fallback : ErrorCode) :
  code <> OK -> SDK.code_or (new_StreamIndError code message) fallback = code.
Proof. destruct code; cbn; congruence. Qed.

(** What [store_transport] does to the registry when the id is registered. *)
Lemma SDK_store_transport_effect
    (sdk : SDK) (terminalId : string) (terminal : Terminal.t) (transport : WebSocketTransport) :
  StringMap.get (terminals sdk) terminalId = Some terminal ->
  let sdk' := SDK.store_transport sdk terminalId terminal transport in
  getAllTerminals sdk' = getAllTerminals sdk
  /\ lastError sdk' = lastError sdk
  /\ StringMap.get (terminals sdk') terminalId
     = Some (Terminal.make (Terminal.config terminal) transport)
  /\ (forall other : string,
        other <> terminalId ->
        StringMap.get (terminals sdk') other = StringMap.get (terminals sdk) other).
Proof.
  intros Hget; cbv zeta.
  unfold SDK.store_transport, SDK.set_terminals, getAllTerminals; cbn.
  repeat split.
  - apply StringMap_keys_set_present; congruence.
  - apply StringMap_get_set_same.
  - intros other Hother; now apply StringMap_get_set_other.
Qed.

Lemma SDK_settle_effect
    (sdk : SDK) (terminalId : string) (terminal : Terminal.t) (out : Outcome) :
  StringMap.get (terminals sdk) terminalId = Some terminal ->
  let sdk' := fst (fst (SDK.settle sdk terminalId terminal out)) in
  getAllTerminals sdk' = getAllTerminals sdk
  /\ StringMap.get (terminals sdk') terminalId
     = Some (Terminal.make (Terminal.config terminal) (after out))
  /\ (forall other : string,
        other <> terminalId ->
        StringMap.get (terminals sdk') other = StringMap.get (terminals sdk) other).
Proof.
  intros Hget; cbv zeta.
  destruct (SDK_store_transport_effect sdk terminalId terminal (after out) Hget)
    as (Hkeys & _ & Hsame & Hother).
  unfold SDK.settle.
  destruct (settled out); cbn; repeat split; assumption.
Qed.

Lemma keeps_the_registry_not_found (sdk : SDK) (terminalId : string) :
  keeps_the_registry sdk terminalId (SDK.not_found sdk terminalId).
Proof. unfold keeps_the_registry; cbn; repeat split. Qed.

Lemma keeps_the_registry_store
    (sdk : SDK) (terminalId : string) (terminal : Terminal.t) (transport : WebSocketTransport) :
  StringMap.get (terminals sdk) terminalId = Some terminal ->
  keeps_the_registry sdk terminalId (SDK.store_transport sdk terminalId terminal transport).
Proof.
  intros Hget.
  destruct (SDK_store_transport_effect sdk terminalId terminal transport Hget)
    as (Hkeys & _ & Hsame & Hother).
  unfold keeps_the_registry.
  rewrite Hsame, Hget.
  repeat split; assumption.
Qed.

Lemma keeps_the_registry_settle
    (sdk : SDK) (terminalId : string) (terminal : Terminal.t) (out : Outcome) :
  StringMap.get (terminals sdk) terminalId = Some terminal ->
  keeps_the_registry sdk terminalId (fst (fst (SDK.settle sdk terminalId terminal out))).
Proof.
  intros Hget.
  destruct (SDK_settle_effect sdk terminalId terminal out Hget) as (Hkeys & Hsame & Hother).
  unfold keeps_the_registry.
  rewrite Hsame, Hget.
  repeat split; assumption.
Qed.

(** X19.  An operation on one terminal touches that terminal only.
    [connect], [disconnect], [sendSignal], [sendBinaryData] and the five
    callback setters keep the list of registered ids, in order, keep every
    other terminal as it is and keep the configuration the terminal was
    registered with, whatever they return.  [registerTerminal] and
    [unregisterTerminal] keep the other terminals too; the ids stay free of
    duplicates, and after [unregisterTerminal] the id is not listed any
    more. *)
Theorem operations_touch_one_terminal
    (JSON_stringify : Json -> string) (byteLength : string -> Z)
    (sdk : SDK) (terminalId traceId : string) (timer : Timeout) (socket : string + WebSocket)
    (signal : Signal.t) (data : Buffer) (dataType : string)
    (random : nat -> Q) (now : Z) (completion : option string) (fn : nat) (config : Config) :
  NoDup (getAllTerminals sdk) ->
  let kept := keeps_the_registry sdk terminalId in
  kept (fst (fst (SDK.connect sdk terminalId traceId timer socket)))
  /\ kept (fst (fst (SDK.disconnect sdk terminalId)))
  /\ kept (fst (fst (fst (SDK.sendSignal JSON_stringify byteLength sdk terminalId signal
                           now completion))))
  /\ kept (fst (fst (SDK.sendBinaryData sdk terminalId data dataType random now completion)))
  /\ kept (fst (SDK.setConnectionCallback sdk terminalId fn))
  /\ kept (fst (SDK.setDirectiveCallback sdk terminalId fn))
  /\ kept (fst (SDK.setAudioDataCallback sdk terminalId fn))
  /\ kept (fst (SDK.setErrorCallback sdk terminalId fn))
  /\ kept (fst (SDK.setCloseCallback sdk terminalId fn))
  /\ (let registered := fst (registerTerminal sdk terminalId config) in
      NoDup (getAllTerminals registered)
      /\ In terminalId (getAllTerminals registered)
      /\ (forall other : string,
            other <> terminalId ->
            StringMap.get (terminals registered) other = StringMap.get (terminals sdk) other))
  /\ (let unregistered := fst (fst (SDK.unregisterTerminal sdk terminalId)) in
      NoDup (getAllTerminals unregistered)
      /\ ~ In terminalId (getAllTerminals unregistered)
      /\ (forall other : string,
            other <> terminalId ->
            StringMap.get (terminals unregistered) other = StringMap.get (terminals sdk) other)).
Proof.
  intros Hnodup; cbv zeta.
  unfold SDK.connect, SDK.disconnect, SDK.sendSignal, SDK.sendBinaryData,
    SDK.setConnectionCallback, SDK.setDirectiveCallback, SDK.setAudioDataCallback,
    SDK.setErrorCallback, SDK.setCloseCallback, SDK.set_callback, SDK.unregisterTerminal,
    registerTerminal, StringMap.has.
  destruct (StringMap.get (terminals sdk) terminalId) as [terminal|] eqn:Hget.
  - pose proof (keeps_the_registry_store sdk terminalId terminal) as Hstore.
    pose proof (keeps_the_registry_settle sdk terminalId terminal) as Hsettle.
    repeat match goal with |- _ /\ _ => split end;
      try (cbn [fst]; now apply Hstore); try assumption.
    + destruct (connect (Terminal.transport terminal) traceId timer socket)
        as [[transport actions] [error|]]; cbn [fst].
      * destruct (Hstore transport Hget) as (Hkeys & Hsame & Hother).
        unfold keeps_the_registry; cbn; repeat split; assumption.
      * now apply Hstore.
    + destruct (sendSignal _ _ _ _ _ _) as [out signal']; cbn [fst].
      now apply Hsettle.
    + now apply Hsettle.
    + cbn [fst]; unfold getAllTerminals; cbn [terminals].
      apply StringMap_get_present; rewrite Hget; discriminate.
    + reflexivity.
    + cbn [fst terminals]; unfold SDK.set_terminals, getAllTerminals; cbn [terminals].
      now apply StringMap_keys_delete.
    + cbn [fst terminals]; unfold SDK.set_terminals, getAllTerminals; cbn [terminals].
      now apply StringMap_keys_delete.
    + intros other Hother.
      cbn [fst terminals]; unfold SDK.set_terminals; cbn [terminals].
      now apply StringMap_get_delete_other.
  - pose proof (keeps_the_registry_not_found sdk terminalId) as Hrefused.
    assert (Hfresh : ~ In terminalId (getAllTerminals sdk))
      by (now apply StringMap_get_absent).
    repeat match goal with |- _ /\ _ => split end;
      try exact Hrefused; try assumption; cbn [fst terminals].
    + unfold getAllTerminals; cbn [terminals].
      rewrite (StringMap_set_fresh _ _ _ Hget).
      unfold StringMap.keys; rewrite map_app; cbn.
      apply NoDup_app; [assumption|repeat constructor; intros []|].
      intros k Hin [<-|[]]; contradiction.
    + unfold getAllTerminals; cbn [terminals].
      rewrite (StringMap_set_fresh _ _ _ Hget).
      unfold StringMap.keys; rewrite map_app; cbn.
      apply in_or_app; right; now left.
    + intros other Hother.
      now apply StringMap_get_set_other.
    + reflexivity.
Qed.

Lemma operations_touch_one_terminal_witness :
  let sdk := one_terminal_sdk in
  let terminalId := "terminal-1" in
  let kept := keeps_the_registry sdk terminalId in
  kept (fst (fst (SDK.connect sdk terminalId "trace-1" 4%nat (inr 5%nat))))
  /\ kept (fst (fst (SDK.disconnect sdk terminalId)))
  /\ kept (fst (fst (fst (SDK.sendSignal stringify_plain ascii_byteLength sdk terminalId
                           sample_signal 2000 None))))
  /\ kept (fst (fst (SDK.sendBinaryData sdk terminalId [1; 2; 3] "opus" sample_random
                      2000 None)))
  /\ kept (fst (SDK.setConnectionCallback sdk terminalId 7%nat))
  /\ kept (fst (SDK.setDirectiveCallback sdk terminalId 7%nat))
  /\ kept (fst (SDK.setAudioDataCallback sdk terminalId 7%nat))
  /\ kept (fst (SDK.setErrorCallback sdk terminalId 7%nat))
  /\ kept (fst (SDK.setCloseCallback sdk terminalId 7%nat))
  /\ (let registered := fst (registerTerminal sdk terminalId sample_config) in
      NoDup (getAllTerminals registered)
      /\ In terminalId (getAllTerminals registered)
      /\ (forall other : string,
            other <> terminalId ->
            StringMap.get (terminals registered) other = StringMap.get (terminals sdk) other))
  /\ (let unregistered := fst (fst (SDK.unregisterTerminal sdk terminalId)) in
      NoDup (getAllTerminals unregistered)
      /\ ~ In terminalId (getAllTerminals unregistered)
      /\ (forall other : string,
            other <> terminalId ->
            StringMap.get (terminals unregistered) other = StringMap.get (terminals sdk) other)).
Proof.
  apply (operations_touch_one_terminal stringify_plain ascii_byteLength one_terminal_sdk
           "terminal-1" "trace-1" 4%nat (inr 5%nat) sample_signal [1; 2; 3] "opus"
           sample_random 2000 None 7%nat sample_config).
  cbn; repeat constructor; intros [].
Defined.

(** X20.  The code a send through the registry returns.  [sendBinaryData]
    returns [OK], [TERMINAL_NOT_FOUND], [NOT_CONNECTED] or [SEND_FAILED] and
    no other code; [sendSignal] may also return [SIGNAL_TOO_LARGE].  When
    the code is [OK] exactly one frame was handed to the socket and the last
    error is what it was; when it is not, the last error is a non-empty
    message.  For a registered, connected terminal a payload above 65535
    bytes gives [SEND_FAILED] with the message of the size check, and
    nothing is written. *)
Theorem registry_send_codes
    (JSON_stringify : Json -> string) (byteLength : string -> Z)
    (sdk : SDK) (terminalId : string) (signal : Signal.t) (data : Buffer) (dataType : string)
    (random : nat -> Q) (now : Z) (completion : option string) :
  let binary := SDK.sendBinaryData sdk terminalId data dataType random now completion in
  let text :=
    fst (SDK.sendSignal JSON_stringify byteLength sdk terminalId signal now completion) in
  let answers (sent : SDK * ErrorCode * list Event) :=
    (snd (fst sent) = OK ->
     (exists frame : Frame, snd sent = [WsSend frame])
     /\ lastError (fst (fst sent)) = lastError sdk)
    /\ (snd (fst sent) <> OK -> lastError (fst (fst sent)) <> EmptyString) in
  In (snd (fst binary)) [OK; TERMINAL_NOT_FOUND; NOT_CONNECTED; SEND_FAILED]
  /\ In (snd (fst text)) [OK; TERMINAL_NOT_FOUND; NOT_CONNECTED; SIGNAL_TOO_LARGE; SEND_FAILED]
  /\ answers binary
  /\ answers text
  /\ (forall terminal : Terminal.t,
        StringMap.get (terminals sdk) terminalId = Some terminal ->
        connected (Terminal.transport terminal) = true ->
        Buffer_length data > 65535 ->
        snd (fst binary) = SEND_FAILED
        /\ lastError (fst (fst binary)) = "Binary data exceeds 65535 bytes"
        /\ writes (snd binary) = []).
Proof.
  cbv zeta.
  unfold SDK.sendBinaryData, SDK.sendSignal.
  destruct (StringMap.get (terminals sdk) terminalId) as [terminal|] eqn:Hget.
  2:{ cbn; repeat split; try tauto; try discriminate; congruence. }
  assert (Hstored : forall transport,
             lastError (SDK.store_transport sdk terminalId terminal transport)
             = lastError sdk) by reflexivity.
  unfold SDK.settle, sendSignal, sendBinaryData, sendMessage, sendBinary, ws_send.
  destruct (connected (Terminal.transport terminal)) eqn:Hconn; cbn [negb].
  2:{ cbn; repeat split; try tauto; try discriminate; congruence. }
  split; [|split; [|split; [|split]]].
  - destruct (protocolData data dataType random) as [thrown|bytes]; [cbn; tauto|].
    destruct (ws (Terminal.transport terminal)); [|cbn; tauto].
    destruct completion; cbn; tauto.
  - destruct (Qgt_bool _ _); [cbn; tauto|].
    destruct (ws (Terminal.transport terminal)); [|cbn; tauto].
    destruct completion; cbn; tauto.
  - destruct (protocolData data dataType random) as [thrown|bytes];
      [|destruct (ws (Terminal.transport terminal)); [destruct completion|]];
      cbn [fst snd settled trace after SDK.code_or app];
      rewrite ?StreamIndError_code by discriminate;
      (split; [intros Hok|intros Hno]);
      try discriminate; try congruence;
      try (cbn [SDK.set_lastError lastError]; apply StreamIndError_message).
    split; [eexists; reflexivity|apply Hstored].
  - destruct (Qgt_bool _ _);
      [|destruct (ws (Terminal.transport terminal)); [destruct completion|]];
      cbn [fst snd settled trace after SDK.code_or app];
      rewrite ?StreamIndError_code by discriminate;
      (split; [intros Hok|intros Hno]);
      try discriminate; try congruence;
      try (cbn [SDK.set_lastError lastError]; apply StreamIndError_message).
    split; [eexists; reflexivity|apply Hstored].
  - intros terminal' Hsame _ Hlong.
    unfold protocolData.
    assert (Hgt : (Buffer_length data >? 65535) = true) by (apply Z.gtb_lt; lia).
    rewrite Hgt; cbn.
    repeat split.
    unfold fire_onError; destruct (onError _); reflexivity.
Qed.

Lemma connected_listing (m : list (string * Terminal.t)) (k : string) :
  NoDup (StringMap.keys m) ->
  In k (map fst (filter (fun entry => isConnected (Terminal.transport (snd entry))) m))
  <-> exists terminal : Terminal.t,
        StringMap.get m k = Some terminal
        /\ isConnected (Terminal.transport terminal) = true.
Proof.
  induction m as [|[k0 t0] rest IH]; cbn; intros Hnodup.
  - split; [tauto|intros (terminal & Hget & _); discriminate].
  - inversion Hnodup as [|? ? Hnotin Hrest]; subst.
    specialize (IH Hrest).
    destruct (String.eqb_spec k0 k) as [->|Hne].
    + destruct (isConnected (Terminal.transport t0)) eqn:Hconn; cbn.
      * split; [intros _; now exists t0|now left].
      * split.
        -- intros Hin; exfalso; apply Hnotin.
           apply IH in Hin; destruct Hin as (terminal & Hget & _).
           apply StringMap_get_present; congruence.
        -- intros (terminal & Hget & Hc); congruence.
    + destruct (isConnected (Terminal.transport t0)); cbn; [|exact IH].
      rewrite IH; split; [intros [Heq|H]; [contradiction|exact H]|now right].
Qed.

Lemma connected_listing_sublist (m : list (string * Terminal.t)) :
  NoDup (StringMap.keys m) ->
  NoDup (map fst (filter (fun entry => isConnected (Terminal.transport (snd entry))) m))
  /\ (forall k : string,
        In k (map fst (filter (fun entry => isConnected (Terminal.transport (snd entry))) m)) ->
        In k (StringMap.keys m)).
Proof.
  induction m as [|[k0 t0] rest IH]; cbn; intros Hnodup.
  - split; [constructor|tauto].
  - inversion Hnodup as [|? ? Hnotin Hrest]; subst.
    destruct (IH Hrest) as (Hnd & Hsub).
    destruct (isConnected (Terminal.transport t0)); cbn.
    + split.
      * constructor; [|assumption].
        intros Hin; apply Hnotin; now apply Hsub.
      * intros k [Heq|Hin]; [now left|right; now apply Hsub].
    + split; [assumption|].
      intros k Hin; right; now apply Hsub.
Qed.

(** X21.  The two ways to ask whether a terminal is connected agree.  An
    id is listed by [getConnectedTerminals] exactly when [isConnected]
    answers [true] for it; the list has no duplicates and holds registered
    ids only.  After [disconnect] of a terminal, [isConnected] is [false]
    for it and it is not listed any more, while it stays registered and the
    other terminals are listed as before. *)
Theorem connected_terminals_agree (sdk : SDK) (terminalId other : string) :
  NoDup (getAllTerminals sdk) ->
  other <> terminalId ->
  let sdk' := fst (fst (SDK.disconnect sdk terminalId)) in
  (In terminalId (SDK.getConnectedTerminals sdk) <-> SDK.isConnected sdk terminalId = true)
  /\ NoDup (SDK.getConnectedTerminals sdk)
  /\ (forall k : string, In k (SDK.getConnectedTerminals sdk) -> In k (getAllTerminals sdk))
  /\ SDK.isConnected sdk' terminalId = false
  /\ ~ In terminalId (SDK.getConnectedTerminals sdk')
  /\ getAllTerminals sdk' = getAllTerminals sdk
  /\ (In other (SDK.getConnectedTerminals sdk') <-> In other (SDK.getConnectedTerminals sdk)).
Proof.
  intros Hnodup Hother; cbv zeta.
  assert (Hlisted : forall (s : SDK) (k : string),
             NoDup (getAllTerminals s) ->
             In k (SDK.getConnectedTerminals s) <-> SDK.isConnected s k = true).
  { intros s k Hs.
    unfold SDK.getConnectedTerminals, SDK.isConnected.
    rewrite (connected_listing _ k Hs).
    destruct (StringMap.get (terminals s) k) as [terminal|].
    - split; [intros (t' & Heq & Hc); congruence|intros Hc; now exists terminal].
    - split; [intros (t' & Heq & _); discriminate|discriminate]. }
  destruct (connected_listing_sublist _ Hnodup) as (Hnd & Hsub).
  assert (Hafter : getAllTerminals (fst (fst (SDK.disconnect sdk terminalId)))
                   = getAllTerminals sdk
                   /\ SDK.isConnected (fst (fst (SDK.disconnect sdk terminalId))) terminalId
                      = false
                   /\ SDK.isConnected (fst (fst (SDK.disconnect sdk terminalId))) other
                      = SDK.isConnected sdk other).
  { unfold SDK.disconnect, SDK.isConnected.
    destruct (StringMap.get (terminals sdk) terminalId) as [terminal|] eqn:Hget.
    - destruct (SDK_store_transport_effect sdk terminalId terminal
                  (fst (disconnect (Terminal.transport terminal))) Hget)
        as (Hkeys & _ & Hsame & Hothers).
      cbn [fst disconnect].
      cbn [fst disconnect] in Hkeys, Hsame, Hothers.
      rewrite Hsame, (Hothers other Hother).
      repeat split; assumption.
    - cbn; rewrite Hget; repeat split. }
  destruct Hafter as (Hkeys & Hoff & Hsame).
  assert (Hnodup' : NoDup (getAllTerminals (fst (fst (SDK.disconnect sdk terminalId)))))
    by (rewrite Hkeys; exact Hnodup).
  repeat match goal with |- _ /\ _ => split end.
  - now apply Hlisted.
  - exact Hnd.
  - exact Hsub.
  - exact Hoff.
  - rewrite (Hlisted _ _ Hnodup'), Hoff; discriminate.
  - exact Hkeys.
  - now rewrite (Hlisted _ _ Hnodup'), (Hlisted _ _ Hnodup), Hsame.
Qed.

Lemma connected_terminals_agree_witness :
  let sdk := one_terminal_sdk in
  let sdk' := fst (fst (SDK.disconnect sdk "terminal-1")) in
  (In "terminal-1" (SDK.getConnectedTerminals sdk) <-> SDK.isConnected sdk "terminal-1" = true)
  /\ NoDup (SDK.getConnectedTerminals sdk)
  /\ (forall k : string, In k (SDK.getConnectedTerminals sdk) -> In k (getAllTerminals sdk))
  /\ SDK.isConnected sdk' "terminal-1" = false
  /\ ~ In "terminal-1" (SDK.getConnectedTerminals sdk')
  /\ getAllTerminals sdk' = getAllTerminals sdk
  /\ (In "terminal-2" (SDK.getConnectedTerminals sdk')
      <-> In "terminal-2" (SDK.getConnectedTerminals sdk)).
Proof.
  apply (connected_terminals_agree one_terminal_sdk "terminal-1" "terminal-2").
  - cbn; repeat constructor; intros [].
  - discriminate.
Defined.

(** ** Payloads *)

Lemma get_member_set_same (members : list (string * Json)) (key : string) (v : Json) :
  get_member (set_member members key v) key = Some v.
Proof. exact (StringMap_get_set_same members key v). Qed.

Lemma get_member_set_other (members : list (string * Json)) (key other : string) (v : Json) :
  other <> key -> get_member (set_member members key v) other = get_member members other.
Proof. exact (StringMap_get_set_other members key v other). Qed.

Lemma set_member_twice (members : list (string * Json)) (key : string) (v v' : Json) :
  set_member (set_member members key v) key v' = set_member members key v'.
Proof.
  induction members as [|[k0 v0] rest IH]; cbn.
  - now rewrite String.eqb_refl.
  - destruct (String.eqb k0 key) eqn:Hk; cbn; rewrite Hk; [reflexivity|].
    now rewrite IH.
Qed.

(** X22.  What a payload returns for a key that was set.  For a key other
    than [__proto__] (which JavaScript does not store as a property), a
    getter returns the value its own setter stored; [getObject] returns the
    default for a stored [null].  Across types: [getString] gives the
    default for a stored number or boolean; [getBool] reads the strings
    [true] and [false] and gives the default for a number; [getNumber] reads
    a boolean as 1 or 0, a stored [null] as 0 and a string as the number it
    spells, or the default when it spells none.  Setting a key changes no
    other key, setting it twice keeps the second value, and after [clear]
    the typed getters return their defaults. *)
Theorem payload_set_then_get
    (Number_toString : Q -> string) (StringToNumber : string -> option Q)
    (p : Payload.t) (key other : string)
    (s d_s : string) (q d_q : Q) (b d_b : bool) (v v' d_v : Json) :
  key <> "__proto__" ->
  other <> key ->
  let getNumber := Payload.getNumber Number_toString StringToNumber in
  (Payload.getString (Payload.setString p key s) key d_s = s
   /\ getNumber (Payload.setNumber p key q) key d_q = q
   /\ Payload.getBool (Payload.setBool p key b) key d_b = b
   /\ Payload.getObject (Payload.setObject p key v) key d_v
      = match v with JNull => d_v | _ => v end)
  /\ (Payload.getString (Payload.setNumber p key q) key d_s = d_s
      /\ Payload.getString (Payload.setBool p key b) key d_s = d_s
      /\ Payload.getBool (Payload.setString p key "true") key d_b = true
      /\ Payload.getBool (Payload.setString p key "false") key d_b = false
      /\ Payload.getBool (Payload.setNumber p key q) key d_b = d_b
      /\ getNumber (Payload.setBool p key b) key d_q = (if b then 1%Q else 0%Q)
      /\ getNumber (Payload.setObject p key JNull) key d_q = 0%Q
      /\ getNumber (Payload.setString p key s) key d_q
         = match StringToNumber s with Some num => num | None => d_q end)
  /\ (Payload.getString (Payload.setObject p key v) other d_s = Payload.getString p other d_s
      /\ getNumber (Payload.setObject p key v) other d_q = getNumber p other d_q
      /\ Payload.getBool (Payload.setObject p key v) other d_b = Payload.getBool p other d_b
      /\ Payload.getObject (Payload.setObject p key v) other d_v
         = Payload.getObject p other d_v)
  /\ Payload.setObject (Payload.setObject p key v) key v' = Payload.setObject p key v'
  /\ (Payload.getString (Payload.clear p) key d_s = d_s
      /\ getNumber (Payload.clear p) key d_q = d_q
      /\ Payload.getBool (Payload.clear p) key d_b = d_b).
Proof.
  intros _ Hother; cbv zeta.
  unfold Payload.getString, Payload.getNumber, Payload.getBool, Payload.getObject,
    Payload.setString, Payload.setNumber, Payload.setBool, Payload.setObject, Payload.clear.
  cbn [Payload.data].
  rewrite !get_member_set_same, !(get_member_set_other _ _ _ _ Hother), set_member_twice.
  cbn.
  repeat split; try reflexivity.
  now destruct b.
Qed.

Lemma payload_set_then_get_witness :
  let p := Payload.setNumber (Payload.setString Payload.empty "unit" "celsius") "value" 25%Q in
  let getNumber := Payload.getNumber print_integer (fun _ => None) in
  (Payload.getString (Payload.setString p "unit" "kelvin") "unit" EmptyString = "kelvin"
   /\ getNumber (Payload.setNumber p "unit" 3%Q) "unit" 0%Q = 3%Q
   /\ Payload.getBool (Payload.setBool p "unit" true) "unit" false = true
   /\ Payload.getObject (Payload.setObject p "unit" (JArray [])) "unit" JNull
      = match JArray [] with JNull => JNull | _ => JArray [] end)
  /\ (Payload.getString (Payload.setNumber p "unit" 3%Q) "unit" EmptyString = EmptyString
      /\ Payload.getString (Payload.setBool p "unit" true) "unit" EmptyString = EmptyString
      /\ Payload.getBool (Payload.setString p "unit" "true") "unit" false = true
      /\ Payload.getBool (Payload.setString p "unit" "false") "unit" false = false
      /\ Payload.getBool (Payload.setNumber p "unit" 3%Q) "unit" false = false
      /\ getNumber (Payload.setBool p "unit" true) "unit" 0%Q = (if true then 1%Q else 0%Q)
      /\ getNumber (Payload.setObject p "unit" JNull) "unit" 0%Q = 0%Q
      /\ getNumber (Payload.setString p "unit" "kelvin") "unit" 0%Q
         = match (fun _ : string => @None Q) "kelvin" with Some num => num | None => 0%Q end)
  /\ (Payload.getString (Payload.setObject p "unit" (JArray [])) "value" EmptyString
      = Payload.getString p "value" EmptyString
      /\ getNumber (Payload.setObject p "unit" (JArray [])) "value" 0%Q
         = getNumber p "value" 0%Q
      /\ Payload.getBool (Payload.setObject p "unit" (JArray [])) "value" false
         = Payload.getBool p "value" false
      /\ Payload.getObject (Payload.setObject p "unit" (JArray [])) "value" JNull
         = Payload.getObject p "value" JNull)
  /\ Payload.setObject (Payload.setObject p "unit" (JArray [])) "unit" (JBool true)
     = Payload.setObject p "unit" (JBool true)
  /\ (Payload.getString (Payload.clear p) "unit" EmptyString = EmptyString
      /\ getNumber (Payload.clear p) "unit" 0%Q = 0%Q
      /\ Payload.getBool (Payload.clear p) "unit" false = false).
Proof.
  apply (payload_set_then_get print_integer (fun _ => None)
           (Payload.setNumber (Payload.setString Payload.empty "unit" "celsius") "value" 25%Q)
           "unit" "value" "kelvin" EmptyString 3%Q 0%Q true false (JArray []) (JBool true)
           JNull).
  - discriminate.
  - discriminate.
Defined.

(** ** Signals *)

Lemma no_underscore_split (a a' b b' : string) :
  ~ In "_"%char (list_ascii_of_string a) ->
  ~ In "_"%char (list_ascii_of_string a') ->
  (a ++ String "_" b)%string = (a' ++ String "_" b')%string ->
  a = a' /\ b = b'.
Proof.
  revert a'; induction a as [|c rest IH]; intros [|c' rest']; cbn; intros Ha Ha' Heq.
  - injection Heq as Hb; now split.
  - injection Heq as Hc _; exfalso; apply Ha'; now left.
  - injection Heq as Hc _; exfalso; apply Ha; now left.
  - injection Heq as Hc Hrest.
    destruct (IH rest') as (Hr & Hb); [tauto|tauto|assumption|].
    now subst.
Qed.

Lemma string_of_uint_no_underscore (d : Decimal.uint) :
  ~ In "_"%char (list_ascii_of_string (NilEmpty.string_of_uint d)).
Proof.
  induction d; cbn; [tauto|..]; (intros [Heq|Hin]; [discriminate|auto]).
Qed.

Lemma decimal_no_underscore (z : Z) :
  ~ In "_"%char (list_ascii_of_string (Signal.decimal z)).
Proof.
  unfold Signal.decimal, NilZero.string_of_int, NilZero.string_of_uint.
  destruct (Z.to_int z) as [d|d]; destruct d eqn:Hd; cbn;
    try (intros [Heq|[]]; discriminate);
    try (intros [Heq|[Heq|[]]]; discriminate);
    repeat (intros [Heq|Hin]; [discriminate|revert Hin]);
    apply string_of_uint_no_underscore.
Qed.

Lemma decimal_inj (z z' : Z) : Signal.decimal z = Signal.decimal z' -> z = z'.
Proof.
  unfold Signal.decimal; intros Heq.
  apply DecimalZ.to_int_inj.
  assert (Hgood : forall n : Z,
             Z.to_int n <> Decimal.Pos Decimal.Nil /\ Z.to_int n <> Decimal.Neg Decimal.Nil).
  { intros [|p|p]; cbn; split; try discriminate; intros [= Hp];
      exact (DecimalPos.Unsigned.to_uint_nonnil p Hp). }
  destruct (Hgood z) as (Hp & Hn), (Hgood z') as (Hp' & Hn').
  pose proof (NilZero.isi _ Hp Hn) as Hz.
  pose proof (NilZero.isi _ Hp' Hn') as Hz'.
  rewrite Heq, Hz' in Hz.
  now injection Hz.
Qed.

(** X23.  No two signals get the same [uuid].  [new Signal(type)] raises
    the counter of the module by one, whatever the time, and two signals
    made at different values of the counter have different [uuid]s, even
    when they are made in the same millisecond.  A new signal has an empty
    payload, an empty receptor id and topic, and a source time equal to its
    timestamp. *)
Theorem signal_uuids_are_distinct
    (signalCounter signalCounter' : Z) (type type' : string) (nowMs nowMs' : Z)
    (nowIso nowIso' : string) :
  signalCounter <> signalCounter' ->
  let made := Signal.create signalCounter type nowMs nowIso in
  let made' := Signal.create signalCounter' type' nowMs' nowIso' in
  Signal.uuid (fst made) <> Signal.uuid (fst made')
  /\ snd made = signalCounter + 1
  /\ Signal.uuid (fst made)
     <> Signal.uuid (fst (Signal.create (snd made) type' nowMs' nowIso'))
  /\ Signal.getPayload (fst made) = []
  /\ Signal.source (fst made) = Signal.mkSource EmptyString EmptyString nowIso
  /\ Signal.timestamp (fst made) = nowIso
  /\ Signal.type (fst made) = type.
Proof.
  intros Hcounter; cbv zeta.
  assert (Hdistinct : forall c c' ms ms',
             c <> c' ->
             ("sig_" ++ Signal.decimal ms ++ "_" ++ Signal.decimal (c + 1))%string
             <> ("sig_" ++ Signal.decimal ms' ++ "_" ++ Signal.decimal (c' + 1))%string).
  { intros c c' ms ms' Hc Heq.
    cbn in Heq.
    injection Heq as Heq.
    apply no_underscore_split in Heq; try apply decimal_no_underscore.
    destruct Heq as (_ & Heq).
    apply decimal_inj in Heq; lia. }
  unfold Signal.create; cbn [fst snd Signal.uuid Signal.getPayload Signal.payload
                               Signal.source Signal.timestamp Signal.type].
  repeat split.
  - now apply Hdistinct.
  - apply Hdistinct; lia.
Qed.

Lemma signal_uuids_are_distinct_witness :
  let made := Signal.create 0 "sensor.data" 1767225600000 "2026-01-01T00:00:00.000Z" in
  let made' := Signal.create 1 "sensor.data" 1767225600000 "2026-01-01T00:00:00.000Z" in
  Signal.uuid (fst made) <> Signal.uuid (fst made')
  /\ snd made = 0 + 1
  /\ Signal.uuid (fst made)
     <> Signal.uuid (fst (Signal.create (snd made) "sensor.data" 1767225600000
                            "2026-01-01T00:00:00.000Z"))
  /\ Signal.getPayload (fst made) = []
  /\ Signal.source (fst made)
     = Signal.mkSource EmptyString EmptyString "2026-01-01T00:00:00.000Z"
  /\ Signal.timestamp (fst made) = "2026-01-01T00:00:00.000Z"
  /\ Signal.type (fst made) = "sensor.data".
Proof.
  apply (signal_uuids_are_distinct 0 1 "sensor.data" "sensor.data"
           1767225600000 1767225600000
           "2026-01-01T00:00:00.000Z" "2026-01-01T00:00:00.000Z").
  discriminate.
Defined.

(** ** Directives *)

(** X24.  The two ways a directive may carry its parameters decode alike,
    whatever [JSON.parse] is.  A directive whose [parameters] field is a
    non-empty string that [JSON.parse] reads as an object is decoded by
    [Directive.fromJSON] to the same directive as the one whose
    [parameters] field is that object.  When [JSON.parse] throws on the
    string the directive is still decoded, with no parameters: the four
    typed accessors return their default for every key, and
    [getObjectParameter] does for every key that is not the name of a
    property all objects inherit. *)
Theorem directive_parameters_two_formats
    (JSON_parse : string -> option Json)
    (Number_toString : Q -> string) (StringToNumber : string -> option Q)
    (text text' now inner : string) (members ms : list (string * Json)) :
  JSON_parse text = Some (JObject members) ->
  get_member members "parameters" = Some (JString inner) ->
  JSON_parse text' = Some (JObject (set_member members "parameters" (JObject ms))) ->
  let fromJSON := Directive.fromJSON_with JSON_parse in
  let decoded :=
    Directive.make (or_else (get_member members "id") (JString EmptyString))
      (or_else (get_member members "name") (JString EmptyString)) now in
  (JSON_parse inner = Some (JObject ms) ->
   inner <> EmptyString ->
   fromJSON text now = inr (decoded (JObject ms))
   /\ fromJSON text' now = inr (decoded (JObject ms)))
  /\ (JSON_parse inner = None ->
      fromJSON text now = inr (decoded (JObject []))
      /\ forall (key : string) (d_s : string) (d_q : Q) (d_b : bool) (d_v : Json),
           Directive.getStringParameter (decoded (JObject [])) key d_s = inr d_s
           /\ Directive.getNumberParameter Number_toString StringToNumber
                (decoded (JObject [])) key d_q = inr d_q
           /\ Directive.getIntParameter Number_toString (decoded (JObject [])) key d_q
              = inr d_q
           /\ Directive.getBoolParameter (decoded (JObject [])) key d_b = inr d_b
           /\ (is_inherited_name key = false ->
               Directive.getObjectParameter (decoded (JObject [])) key d_v = inr d_v)).
Proof.
  intros Htext Hparameters Htext'; cbv zeta.
  unfold Directive.fromJSON_with.
  rewrite Htext, Htext'; cbn [get_property].
  rewrite get_member_set_same, !get_member_set_other by discriminate.
  rewrite Hparameters.
  split.
  - intros Hinner Hnonempty.
    destruct inner as [|c rest]; [congruence|].
    cbn [or_else truthy String.eqb negb]; rewrite Hinner.
    split; reflexivity.
  - intros Hinner.
    split.
    + destruct inner as [|c rest]; [reflexivity|].
      cbn [or_else truthy String.eqb negb]; now rewrite Hinner.
    + intros key d_s d_q d_b d_v.
      repeat split.
Qed.

Lemma directive_parameters_two_formats_witness :
  let members :=
    [("id", JString "d1"); ("name", JString "motor.move");
     ("parameters", JString (json_text "{'speed':'42','enabled':'true'}"))] in
  let ms := [("speed", JString "42"); ("enabled", JString "true")] in
  let inner := json_text "{'speed':'42','enabled':'true'}" in
  let now := "2026-01-01T00:00:00.000Z" in
  let fromJSON := Directive.fromJSON_with JSON_parse in
  let decoded :=
    Directive.make (or_else (get_member members "id") (JString EmptyString))
      (or_else (get_member members "name") (JString EmptyString)) now in
  (JSON_parse inner = Some (JObject ms) ->
   inner <> EmptyString ->
   fromJSON encoded_parameters_text now = inr (decoded (JObject ms))
   /\ fromJSON motor_move_text now = inr (decoded (JObject ms)))
  /\ (JSON_parse inner = None ->
      fromJSON encoded_parameters_text now = inr (decoded (JObject []))
      /\ forall (key : string) (d_s : string) (d_q : Q) (d_b : bool) (d_v : Json),
           Directive.getStringParameter (decoded (JObject [])) key d_s = inr d_s
           /\ Directive.getNumberParameter print_integer (fun _ => None)
                (decoded (JObject [])) key d_q = inr d_q
           /\ Directive.getIntParameter print_integer (decoded (JObject [])) key d_q
              = inr d_q
           /\ Directive.getBoolParameter (decoded (JObject [])) key d_b = inr d_b
           /\ (is_inherited_name key = false ->
               Directive.getObjectParameter (decoded (JObject [])) key d_v = inr d_v)).
Proof.
  apply (directive_parameters_two_formats JSON_parse print_integer (fun _ => None)
           encoded_parameters_text motor_move_text "2026-01-01T00:00:00.000Z"
           (json_text "{'speed':'42','enabled':'true'}")
           [("id", JString "d1"); ("name", JString "motor.move");
            ("parameters", JString (json_text "{'speed':'42','enabled':'true'}"))]
           [("speed", JString "42"); ("enabled", JString "true")]).
  - vm_compute; reflexivity.
  - reflexivity.
  - vm_compute; reflexivity.
Defined.
